(** * The ClamAV bytecode-emulator VMM (clamemu/vmm.c), embedded in Rocq

    A shallow embedding of [src/clamemu/vmm.c]: the page table built from the
    section list of a PE image, the 15-slot page cache with its one-entry
    shortcut, page-in and page-out against the input file and the temporary
    file, and the read / write / protection entry points.

    Machine integers are [Z] with the wrap-around of their C type written
    out; bytes are [Z] in [0, 256); arrays are lists read with [!!] and
    updated with [<[ _ := _ ]>].  The C code works on one [emu_vmm_t] through
    a pointer, so every function is a state transformer over [emu_vmm]; an
    access outside an array has no defined result in C and is the outcome
    [UB] here. *)

From Stdlib Require Import ZArith List Lia Bool.
From stdpp Require Import base list.
Import ListNotations.
Local Open Scope Z_scope.

(** ** Constants of the source *)

Definition MINALIGN : Z := 512.
Definition IMAGE_SCN_CNT_UNINITIALIZED_DATA : Z := 128.
Definition IMAGE_SCN_MEM_EXECUTE : Z := 0x20000000.
Definition IMAGE_SCN_MEM_READ : Z := 0x40000000.
Definition IMAGE_SCN_MEM_WRITE : Z := 0x80000000.

(** Modelled from the spec: the enumerators [flag_r], [flag_w], [flag_x] are
    declared in vmm.h, which is not among the sources.  The spec calls the
    permissions a bitset of {read, write, execute}, and [page_t.flag_rwx] is
    three bits wide, so the three enumerators are the bit positions 0, 1, 2. *)
Definition flag_r : Z := 0.
Definition flag_w : Z := 1.
Definition flag_x : Z := 2.

(** The error enumerators of vmm.h.  Their numeric values are not in the
    sources; the code only ever returns them negated, so they stay symbolic. *)
Inductive emu_err : Set :=
| EMU_ERR_GENERIC
| EMU_ERR_VMM_READ
| EMU_ERR_VMM_WRITE.

(** What an [int]-returning entry point hands back: a plain value, a negated
    error enumerator, or nothing at all (control reached the closing brace of
    a non-void function). *)
Inductive retval : Set :=
| Val (z : Z)
| Neg (e : emu_err)
| NoValue.

(** ** Data model *)

(** [page_t]: one packed word per page; the widths are those of the
    bit-fields (23, 3, 1, 1, 4). *)
Record page_t : Set := mk_page {
  file_offset : Z;
  flag_rwx : Z;
  modified : Z;
  init : Z;
  cached_page_idx : Z
}.

(** [cached_page_t]; the two reserved fields are never accessed. *)
Record cached_page_t : Set := mk_cached {
  c_flag_rwx : Z;
  dirty : Z;
  data : list Z
}.

(** [struct emu_vmm].  A file descriptor is represented by what [pread] sees
    through it: [Some bytes] for an open file, [None] for a descriptor on
    which the call returns -1 (for [tmpfd], the value -1 itself).  The
    [tempfile] name is only used by [unlink] and is left out. *)
Record emu_vmm : Type := mk_vmm {
  cached : list cached_page_t;
  cached_idx : Z;
  lastused_page : Z;
  lastused_page_idx : Z;
  imagebase : Z;
  page_flags : list page_t;
  n_pages : Z;
  infd : option (list Z);
  tmpfd : option (list Z);
  tmpfd_written : Z
}.

(** [struct cli_exe_section], declared outside vmm.c: the fields vmm.c
    reads, all 32-bit unsigned. *)
Record cli_exe_section : Set := mk_section {
  rva : Z;
  vsz : Z;
  raw : Z;
  chr : Z;
  urva : Z
}.

(** [struct cli_pe_hook_data], declared outside vmm.c: the fields vmm.c
    reads. *)
Record cli_pe_hook_data : Set := mk_pedata {
  Machine : Z;            (* file_hdr.Machine *)
  Magic : Z;              (* opt64.Magic, as stored *)
  ImageBase : Z;          (* opt32.ImageBase *)
  SectionAlignment : Z;   (* opt32.SectionAlignment *)
  FileAlignment : Z;      (* opt32.FileAlignment *)
  nsections : Z
}.

(** What the code gets from outside itself, taken as parameters: the byte
    order of the host, whether [cli_calloc] (defined outside vmm.c) returns
    memory for a given number of elements, and whether [cli_gentempfd] and
    [pwrite] succeed. *)
Record host : Type := mk_host {
  big_endian : bool;
  calloc_ok : Z -> bool;
  gentemp_ok : bool;
  pwrite_ok : bool
}.

(** ** Field updates *)

Definition uint32 (x : Z) : Z := x mod 2 ^ 32.
Definition uint16 (x : Z) : Z := x mod 2 ^ 16.
Definition uint8 (x : Z) : Z := x mod 2 ^ 8.

Definition set_file_offset (x : Z) (p : page_t) : page_t :=
  mk_page (x mod 2 ^ 23) (flag_rwx p) (modified p) (init p) (cached_page_idx p).
Definition set_flag_rwx (x : Z) (p : page_t) : page_t :=
  mk_page (file_offset p) (x mod 2 ^ 3) (modified p) (init p) (cached_page_idx p).
Definition set_modified (x : Z) (p : page_t) : page_t :=
  mk_page (file_offset p) (flag_rwx p) (x mod 2) (init p) (cached_page_idx p).
Definition set_init (x : Z) (p : page_t) : page_t :=
  mk_page (file_offset p) (flag_rwx p) (modified p) (x mod 2) (cached_page_idx p).
Definition set_cached_page_idx (x : Z) (p : page_t) : page_t :=
  mk_page (file_offset p) (flag_rwx p) (modified p) (init p) (x mod 2 ^ 4).

Definition set_c_flag_rwx (x : Z) (c : cached_page_t) : cached_page_t :=
  mk_cached (uint8 x) (dirty c) (data c).
Definition set_dirty (x : Z) (c : cached_page_t) : cached_page_t :=
  mk_cached (c_flag_rwx c) (uint8 x) (data c).
Definition set_data (d : list Z) (c : cached_page_t) : cached_page_t :=
  mk_cached (c_flag_rwx c) (dirty c) d.

Definition with_cached (x : list cached_page_t) (v : emu_vmm) : emu_vmm :=
  mk_vmm x (cached_idx v) (lastused_page v) (lastused_page_idx v) (imagebase v)
         (page_flags v) (n_pages v) (infd v) (tmpfd v) (tmpfd_written v).
Definition with_cached_idx (x : Z) (v : emu_vmm) : emu_vmm :=
  mk_vmm (cached v) x (lastused_page v) (lastused_page_idx v) (imagebase v)
         (page_flags v) (n_pages v) (infd v) (tmpfd v) (tmpfd_written v).
Definition with_lastused (pg idx : Z) (v : emu_vmm) : emu_vmm :=
  mk_vmm (cached v) (cached_idx v) pg idx (imagebase v)
         (page_flags v) (n_pages v) (infd v) (tmpfd v) (tmpfd_written v).
Definition with_page_flags (x : list page_t) (v : emu_vmm) : emu_vmm :=
  mk_vmm (cached v) (cached_idx v) (lastused_page v) (lastused_page_idx v) (imagebase v)
         x (n_pages v) (infd v) (tmpfd v) (tmpfd_written v).
Definition with_tmpfd (x : option (list Z)) (v : emu_vmm) : emu_vmm :=
  mk_vmm (cached v) (cached_idx v) (lastused_page v) (lastused_page_idx v) (imagebase v)
         (page_flags v) (n_pages v) (infd v) x (tmpfd_written v).
Definition with_tmpfd_written (x : Z) (v : emu_vmm) : emu_vmm :=
  mk_vmm (cached v) (cached_idx v) (lastused_page v) (lastused_page_idx v) (imagebase v)
         (page_flags v) (n_pages v) (infd v) (tmpfd v) x.

(** ** The monad of the embedding: state passing, with undefined behaviour *)

Inductive outcome (A : Type) : Type :=
| Ret (a : A)
| UB.
Arguments Ret {A} a.
Arguments UB {A}.

Definition M (A : Type) : Type := emu_vmm -> outcome (A * emu_vmm).

Definition ret {A} (a : A) : M A := fun v => Ret (a, v).
Definition bind {A B} (m : M A) (k : A -> M B) : M B :=
  fun v => match m v with
           | Ret (a, v') => k a v'
           | UB => UB
           end.
Definition undefined {A} : M A := fun _ => UB.
Definition gets {A} (f : emu_vmm -> A) : M A := fun v => Ret (f v, v).
Definition modify (f : emu_vmm -> emu_vmm) : M unit := fun v => Ret (tt, f v).

Notation "'let*' x ':=' m 'in' k" := (bind m (fun x => k))
  (at level 10, x name, m at level 100, k at level 200).

(** [v->page_flags[page]], read and written; outside the allocated array the
    access is undefined. *)
Definition load_page (page : Z) : M page_t := fun v =>
  match page_flags v !! Z.to_nat page with
  | Some p => if 0 <=? page then Ret (p, v) else UB
  | None => UB
  end.
Definition update_page (page : Z) (f : page_t -> page_t) : M unit :=
  let* p := load_page page in
  modify (fun v => with_page_flags (<[Z.to_nat page := f p]> (page_flags v)) v).

(** [v->cached[c]]. *)
Definition load_slot (c : Z) : M cached_page_t := fun v =>
  match cached v !! Z.to_nat c with
  | Some s => if 0 <=? c then Ret (s, v) else UB
  | None => UB
  end.
Definition update_slot (c : Z) (f : cached_page_t -> cached_page_t) : M unit :=
  let* s := load_slot c in
  modify (fun v => with_cached (<[Z.to_nat c := f s]> (cached v)) v).

(** [int * int]: a bit-field narrower than [int] is promoted to [int], and a
    signed product that does not fit is undefined. *)
Definition int_mul (a b : Z) : M Z :=
  if a * b <? 2 ^ 31 then ret (a * b) else undefined.

(** A page of zero bytes: what [cli_calloc] leaves in a slot's buffer and
    what [memset(c->data, 0, 4096)] writes. *)
Definition zero_data : list Z := replicate 4096 0.

(** ** The files behind the descriptors *)

(** [pread(fd, buf, 4096, off)] on an open file: the bytes available from
    [off], at most 4096, overwrite the start of the buffer. *)
Definition pread (f : list Z) (off : Z) (buf : list Z) : list Z :=
  let chunk := take 4096 (drop (Z.to_nat off) f) in
  chunk ++ drop (length chunk) buf.

(** [pwrite(fd, buf, 4096, off)] on an open file: a write past the end
    leaves a hole of zero bytes. *)
Definition pwrite (f : list Z) (off : Z) (buf : list Z) : list Z :=
  let o := Z.to_nat off in
  let bs := take 4096 buf in
  take o f ++ replicate (o - length f)%nat 0 ++ bs ++ drop (o + length bs)%nat f.

(** ** Paging (vmm.c lines 137-203) *)

Section Paging.
Variable h : host.

(** Modelled from the spec: [cli_gentempfd] is defined outside vmm.c.  The
    spec has the scratch store created lazily, on first use; the call
    [cli_gentempfd(NULL, &v->tempfile, &v->tmpfd)] leaves an empty temporary
    file behind [tmpfd], or leaves [tmpfd] at -1 when the host cannot make
    one. *)
Definition cli_gentempfd : M unit :=
  if gentemp_ok h then modify (with_tmpfd (Some [])) else ret tt.

(** Lines 152-156: the [pwrite] of the slot's buffer.  Its result is only
    compared (against the offset) to decide on a debug message. *)
Definition pageout_write (c p : Z) : M unit :=
  let* pe := load_page p in
  let* n := int_mul (file_offset pe) MINALIGN in
  let* s := load_slot c in
  let* fd := gets tmpfd in
  match fd with
  | Some f => if pwrite_ok h then modify (with_tmpfd (Some (pwrite f n (data s))))
              else ret tt
  | None => ret tt
  end.

(** [vmm_pageout(v, c, p)]: [c] is a slot index, [p] a page index. *)
Definition vmm_pageout (c p : Z) : M unit :=
  let* _ := update_page p (set_init 1) in
  let* pe := load_page p in
  if modified pe =? 0 then
    let* _ := update_page p (set_modified 1) in
    let* fd0 := gets tmpfd in
    let* _ := (match fd0 with None => cli_gentempfd | Some _ => ret tt end) in
    let* fd := gets tmpfd in
    match fd with
    | None => ret tt
    | Some _ =>
        let* w := gets tmpfd_written in
        let* _ := update_page p (set_file_offset w) in
        let* _ := modify (with_tmpfd_written (uint32 (w + 4096 / MINALIGN))) in
        pageout_write c p
    end
  else pageout_write c p.

(** [vmm_pagein(v, p)]: the slot filled, or [None] for the NULL of a failed
    [pread]. *)
Definition vmm_pagein (p : Z) : M (option Z) :=
  let* c := gets cached_idx in
  let nextidx := uint32 (c + 1) in
  let* _ := modify (with_cached_idx (if 15 <=? nextidx then 0 else nextidx)) in
  let* s := load_slot c in
  let* _ := (if dirty s =? 0 then ret tt else vmm_pageout c p) in
  let* pe := load_page p in
  let* _ := update_slot c (set_c_flag_rwx (flag_rwx pe)) in
  let* _ := update_slot c (set_dirty 0) in
  let* idx := gets cached_idx in
  let* _ := update_page p (set_cached_page_idx (idx + 1)) in
  if init pe =? 0 then
    let* _ := update_slot c (set_data zero_data) in
    ret (Some c)
  else
    let* off := int_mul (file_offset pe) MINALIGN in
    let* fd := gets (if modified pe =? 0 then infd else tmpfd) in
    match fd with
    | None => ret None
    | Some f =>
        let* _ := update_slot c (fun s => set_data (pread f off (data s)) s) in
        ret (Some c)
    end.

(** [vmm_cache_2page(v, va)]: the slot for the page of [va], or [None]. *)
Definition vmm_cache_2page (va : Z) : M (option Z) :=
  let page := va / 4096 in
  let* lp := gets lastused_page in
  if lp =? page then
    let* i := gets lastused_page_idx in ret (Some i)
  else
    let* n := gets n_pages in
    if n <? page then ret None
    else
      let* pe := load_page page in
      let idx := cached_page_idx pe in
      if idx =? 0 then
        let* _ := (if page + 1 <? n then
                     let* _ := vmm_pagein (page + 1) in ret tt
                   else ret tt) in
        vmm_pagein page
      else
        let* _ := modify (with_lastused page (idx - 1)) in
        ret (Some (idx - 1)).

(** ** Reads and writes (lines 205-285) *)

(** [memcpy(value, p->data + off, len)] on the buffer [d] of a slot: defined
    while it stays inside [data[4096]]. *)
Definition copy_out (d : list Z) (off len : Z) : M (list Z) :=
  if (off + len <=? Z.of_nat (length d)) && (0 <=? len)
  then ret (take (Z.to_nat len) (drop (Z.to_nat off) d))
  else undefined.

(** [memcpy(p->data + off, value, len)]. *)
Definition copy_in (d : list Z) (off : Z) (value : list Z) (len : Z) : M (list Z) :=
  if (off + len <=? Z.of_nat (length d)) && (0 <=? len)
     && (len <=? Z.of_nat (length value))
  then ret (take (Z.to_nat off) d ++ take (Z.to_nat len) value
            ++ drop (Z.to_nat (off + len)) d)
  else undefined.

(** [vmm_read]: the result code, and the bytes copied to [value] when there
    was a copy. *)
Definition vmm_read (va len flags : Z) : M (retval * option (list Z)) :=
  let* p := vmm_cache_2page va in
  match p with
  | None => ret (Neg EMU_ERR_VMM_READ, None)
  | Some c =>
      let* s := load_slot c in
      if Z.land (c_flag_rwx s) flags =? 0 then ret (Neg EMU_ERR_VMM_READ, None)
      else
        let* bs := copy_out (data s) (Z.land va 0xfff) len in
        ret (Val 0, Some bs)
  end.

Definition cli_emu_vmm_read_r (va len : Z) : M (retval * option (list Z)) :=
  vmm_read va len (Z.shiftl 1 flag_r).

Definition cli_emu_vmm_read_x (va len : Z) : M (retval * option (list Z)) :=
  vmm_read va len (Z.shiftl 1 flag_x).

(** The value of [n] bytes read as a little-endian number: what
    [le16_to_host] / [le32_to_host] (macros of cltypes.h, little-endian to
    host order) make of the host word that [memcpy] filled, on a host of
    either byte order. *)
Fixpoint le_value (bs : list Z) : Z :=
  match bs with
  | [] => 0
  | b :: bs' => b + 256 * le_value bs'
  end.

(** The [n] low bytes of [x], lowest first; [host_bytes] is the [n]-byte
    host word holding [x], as [memcpy] sees it. *)
Fixpoint le_bytes (n : nat) (x : Z) : list Z :=
  match n with
  | O => []
  | S n' => x mod 256 :: le_bytes n' (x / 256)
  end.
Definition host_bytes (n : nat) (x : Z) : list Z :=
  if big_endian h then rev (le_bytes n x) else le_bytes n x.

(** [cli_emu_vmm_read8/16/32]: [*value] is assigned from a local that is
    only written on success, so it is [None] (indeterminate) on failure. *)
Definition read_value (va len : Z) : M (retval * option Z) :=
  let* r := vmm_read va len (Z.shiftl 1 flag_r) in
  ret (fst r, option_map le_value (snd r)).

Definition cli_emu_vmm_read8 (va : Z) : M (retval * option Z) := read_value va 1.
Definition cli_emu_vmm_read16 (va : Z) : M (retval * option Z) := read_value va 2.
Definition cli_emu_vmm_read32 (va : Z) : M (retval * option Z) := read_value va 4.

Definition cli_emu_vmm_write (va : Z) (value : list Z) (len : Z) : M retval :=
  let* p := vmm_cache_2page va in
  match p with
  | None => ret (Neg EMU_ERR_VMM_WRITE)
  | Some c =>
      let* s := load_slot c in
      if Z.land (c_flag_rwx s) (Z.shiftl 1 flag_w) =? 0 then ret (Neg EMU_ERR_VMM_WRITE)
      else
        let* d := copy_in (data s) (Z.land va 0xfff) value len in
        let* _ := update_slot c (set_data d) in
        let* _ := update_slot c (set_dirty 1) in
        ret (Val 0)
  end.

Definition cli_emu_vmm_write8 (va value : Z) : M retval :=
  cli_emu_vmm_write va (host_bytes 1 (uint8 value)) 1.
Definition cli_emu_vmm_write16 (va value : Z) : M retval :=
  cli_emu_vmm_write va (host_bytes 2 (uint16 value)) 2.
Definition cli_emu_vmm_write32 (va value : Z) : M retval :=
  cli_emu_vmm_write va (host_bytes 4 (uint32 value)) 4.

(** ** Protection (lines 287-307) *)

Definition cli_emu_vmm_prot_set (va len rwx : Z) : M retval :=
  let page := va / 4096 in
  let* n := gets n_pages in
  if n <=? page then ret (Neg EMU_ERR_GENERIC)
  else
    let* _ := update_page page (set_flag_rwx rwx) in
    ret NoValue.

Definition cli_emu_vmm_prot_get (va len : Z) : M retval :=
  let page := va / 4096 in
  let* n := gets n_pages in
  if n <=? page then ret (Neg EMU_ERR_GENERIC)
  else
    let* pe := load_page page in
    ret (Val (flag_rwx pe)).

End Paging.

(** ** Construction (lines 72-135 and 309-340) *)

Section Construction.
Variable h : host.

(** [sections[i]]: the caller's array has as many entries as the list. *)
Definition load_section (sections : list cli_exe_section) (i : Z) : M cli_exe_section :=
  match sections !! Z.to_nat i with
  | Some s => if 0 <=? i then ret s else undefined
  | None => undefined
  end.

(** Lines 93-96, [for (i=0; i*4096 < sections[0].rva; i++)].  [k] counts the
    entries of the page table not yet passed: the store at [i] is undefined
    once they are used up, so the loop never runs longer. *)
Fixpoint map_header (k : nat) (i rva0 : Z) : M unit :=
  if uint32 (i * 4096) <? rva0 then
    let* _ := update_page i (set_file_offset (uint32 (i * 4096) / MINALIGN)) in
    let* _ := update_page i (set_flag_rwx (Z.shiftl 1 flag_r)) in
    match k with
    | O => undefined
    | S k' => map_header k' (uint32 (i + 1)) rva0
    end
  else ret tt.

Definition section_flag_rwx (c : Z) : Z :=
  Z.lor (Z.lor (if Z.land c IMAGE_SCN_MEM_EXECUTE =? 0 then 0 else Z.shiftl 1 flag_x)
               (if Z.land c IMAGE_SCN_MEM_READ =? 0 then 0 else Z.shiftl 1 flag_r))
        (if Z.land c IMAGE_SCN_MEM_WRITE =? 0 then 0 else Z.shiftl 1 flag_w).

(** Lines 116-128, [for (j=0; j<pages; j++)] with [k] iterations to go:
    [false] is the [return -1] of line 120. *)
Fixpoint map_section_pages (k : nat) (j : Z) (s : cli_exe_section) : M bool :=
  match k with
  | O => ret true
  | S k' =>
      let page := uint32 (rva s / 4096 + j) in
      let* n := gets n_pages in
      if n <=? page then ret false
      else
        let zeroinit := Z.land (chr s) IMAGE_SCN_CNT_UNINITIALIZED_DATA in
        let* _ := update_page page (set_init (if zeroinit =? 0 then 1 else 0)) in
        let* _ := (if zeroinit =? 0
                   then update_page page
                          (set_file_offset (uint32 (raw s + uint32 (j * 4096)) / MINALIGN))
                   else ret tt) in
        let* _ := update_page page
                    (fun p => set_flag_rwx (Z.lor (flag_rwx p) (section_flag_rwx (chr s))) p) in
        map_section_pages k' (uint32 (j + 1)) s
  end.

(** Lines 97-133, [for (i=0; i < pedata->nsections; i++)] with [k]
    iterations to go: the result is that of [map_pages], 0 or -1. *)
Fixpoint map_sections (k : nat) (i : Z) (sections : list cli_exe_section) : M Z :=
  match k with
  | O => ret 0
  | S k' =>
      let* s := load_section sections i in
      let pages := uint32 (vsz s + 4095) / 4096 in
      let* broken :=
        (if i =? 0 then ret false
         else
           let* prev := load_section sections (i - 1) in
           ret (negb (uint32 (urva s - urva prev) =? vsz prev))) in
      if broken : bool then ret (-1)
      else
        let* ok := map_section_pages (Z.to_nat pages) 0 s in
        if ok : bool then map_sections k' (i + 1) sections else ret (-1)
  end.

Definition map_pages (pedata : cli_pe_hook_data) (sections : list cli_exe_section) : M Z :=
  let m := Machine pedata in
  if negb ((m =? 0x14c) || (m =? 0x14d) || (m =? 0x14e)) then ret (-1)
  else
    let* s0 := load_section sections 0 in
    let* pf := gets page_flags in
    let* _ := map_header (length pf) 0 (rva s0) in
    map_sections (Z.to_nat (nsections pedata)) 0 sections.

(** Modelled from the spec: [le16_to_host] is a macro of cltypes.h, which is
    not among the sources.  The spec calls the stored values little-endian:
    the conversion is the identity on a little-endian host and a byte swap on
    a big-endian one. *)
Definition le16_to_host (x : Z) : Z :=
  if big_endian h then (x mod 256) * 256 + x / 256 else x.

(** The zeroed [emu_vmm_t] that [cli_calloc] yields, with the assignments of lines
    324-326 and 333 done; [page_flags] is the array of line 328. *)
Definition fresh_slot : cached_page_t := mk_cached 0 0 zero_data.
Definition fresh_page : page_t := mk_page 0 0 0 0 0.
Definition fresh_vmm (pedata : cli_pe_hook_data) (n : Z) (fd : option (list Z)) : emu_vmm :=
  mk_vmm (replicate 15 fresh_slot) 0 (2 ^ 32 - 1) 0 (ImageBase pedata)
         (replicate (Z.to_nat n) fresh_page) n fd None 0.

(** [cli_emu_vmm_new]: [Ret None] is the NULL result. *)
Definition cli_emu_vmm_new (pedata : cli_pe_hook_data) (sections : list cli_exe_section)
    (fd : option (list Z)) : outcome (option emu_vmm) :=
  if le16_to_host (Magic pedata) =? 0x020b then Ret None
  else if nsections pedata =? 0 then Ret None
  else if negb (calloc_ok h 1) then Ret None
  else
    match sections !! Z.to_nat (nsections pedata - 1) with
    | None => UB
    | Some last =>
        let n := uint32 (rva last + vsz last + 4095) / 4096 in
        if negb (calloc_ok h n) then Ret None
        else
          match map_pages pedata sections (fresh_vmm pedata n fd) with
          | UB => UB
          | Ret (rc, v) => if rc =? -1 then Ret None else Ret (Some v)
          end
    end.

End Construction.

(** ** Running a sequence of calls *)

(** The state after a call, when the call has a defined outcome. *)
Definition after {A} (m : M A) (v : emu_vmm) : option emu_vmm :=
  match m v with
  | Ret (_, v') => Some v'
  | UB => None
  end.

(** The result of a call, when it has a defined outcome. *)
Definition result {A} (m : M A) (v : emu_vmm) : option A :=
  match m v with
  | Ret (a, _) => Some a
  | UB => None
  end.

(** A call keeps the observation [f] of the state, whenever it has a
    defined outcome. *)
Definition keeps {A B} (f : emu_vmm -> B) (m : M A) : Prop :=
  forall v a v', m v = Ret (a, v') -> f v' = f v.

(** [ceil(a / 4096)] over the integers. *)
Definition ceil_pages (a : Z) : Z := (a + 4095) / 4096.

(** ** The hosts and images of the examples *)

(** A little-endian host on which allocation, the temporary file and its
    writes all succeed. *)
Definition x86 : host := mk_host false (fun _ => true) true true.

(** A PE32 header for an i386 image based at 0x400000, with [n] sections. *)
Definition pe32 (n : Z) : cli_pe_hook_data :=
  mk_pedata 0x14c 0x10b 0x400000 0x1000 0x200 n.

Definition R_X : Z := Z.lor IMAGE_SCN_MEM_READ IMAGE_SCN_MEM_EXECUTE.
Definition R_W : Z := Z.lor IMAGE_SCN_MEM_READ IMAGE_SCN_MEM_WRITE.

(** A file of [n] pages in which every byte of page [k] is [k]. *)
Definition paged_file (n : nat) : list Z :=
  concat (map (fun k => replicate 4096 (Z.of_nat k)) (seq 0 n)).

(** [n] bytes counting up from [i], modulo 256. *)
Fixpoint counting (n : nat) (i : Z) : list Z :=
  match n with
  | O => []
  | S n' => i mod 256 :: counting n' (i + 1)
  end.

(** A file whose byte at offset [0x400 + i] is [i] (modulo 256), behind a
    header of 0x400 bytes 'M'. *)
Definition counting_file : list Z :=
  replicate 0x400 0x4d ++ counting (Z.to_nat 0x2000) 0.

(** The address space of a constructed image; the empty one stands in where
    construction gives none. *)
Definition no_vmm : emu_vmm := mk_vmm [] 0 0 0 0 [] 0 None None 0.
Definition constructed (o : outcome (option emu_vmm)) : emu_vmm :=
  match o with
  | Ret (Some v) => v
  | _ => no_vmm
  end.

(** One section {rva 0x1000, size 0x2000, raw 0x400, read|execute}. *)
Definition sec_rx : cli_exe_section := mk_section 0x1000 0x2000 0x400 R_X 0x1000.
Definition vmm_rx : emu_vmm :=
  constructed (cli_emu_vmm_new x86 (pe32 1) [sec_rx] (Some counting_file)).
(** The same image behind a descriptor whose [pread] fails. *)
Definition vmm_rx_unreadable : emu_vmm :=
  constructed (cli_emu_vmm_new x86 (pe32 1) [sec_rx] None).

(** One read|write section of two pages at rva 0x1000, file offset 0x1000. *)
Definition sec_rw : cli_exe_section := mk_section 0x1000 0x2000 0x1000 R_W 0x1000.
Definition vmm_rw : emu_vmm :=
  constructed (cli_emu_vmm_new x86 (pe32 1) [sec_rw] (Some (paged_file 3))).

(** One read|execute section of two pages at rva 0x1000, file offset 0x1000. *)
Definition sec_rx_paged : cli_exe_section := mk_section 0x1000 0x2000 0x1000 R_X 0x1000.
Definition vmm_rx_paged : emu_vmm :=
  constructed (cli_emu_vmm_new x86 (pe32 1) [sec_rx_paged] (Some (paged_file 3))).

(** A read|write page 1 followed by a read-only page 2. *)
Definition sec_rw_1 : cli_exe_section := mk_section 0x1000 0x1000 0x1000 R_W 0x1000.
Definition sec_ro_2 : cli_exe_section :=
  mk_section 0x2000 0x1000 0x2000 IMAGE_SCN_MEM_READ 0x2000.
Definition vmm_rw_ro : emu_vmm :=
  constructed (cli_emu_vmm_new x86 (pe32 2) [sec_rw_1; sec_ro_2] (Some (paged_file 3))).

(** Seventeen read|write pages 1..17 behind one header page: 18 pages. *)
Definition sec_17 : cli_exe_section := mk_section 0x1000 0x11000 0x1000 R_W 0x1000.
Definition vmm_18 : emu_vmm :=
  constructed (cli_emu_vmm_new x86 (pe32 1) [sec_17] (Some (paged_file 18))).

(** Sixteen header pages, then a read-only section of two pages, behind a
    descriptor whose [pread] fails. *)
Definition sec_high : cli_exe_section :=
  mk_section 0x10000 0x2000 0x400 IMAGE_SCN_MEM_READ 0x10000.
Definition vmm_high_unreadable : emu_vmm :=
  constructed (cli_emu_vmm_new x86 (pe32 1) [sec_high] None).

(** A last section whose size wraps the 32-bit sum. *)
Definition sec_wrap : cli_exe_section := mk_section 0x2000 0xFFFFFFFF 0 0 0.
Definition vmm_wrap : emu_vmm :=
  constructed (cli_emu_vmm_new x86 (pe32 1) [sec_wrap] None).

(** The address space of the image {base 0x400000; one section rva 0x1000,
    size 0x2000, raw 0x400, read|execute} over the file [f]: as constructed,
    and after the first fault on page 1. *)
Definition scenario_vmm (f : list Z) : emu_vmm :=
  mk_vmm (replicate 15 fresh_slot) 0 (2 ^ 32 - 1) 0 0x400000
    [mk_page 0 1 0 0 0; mk_page 2 5 0 1 0; mk_page 10 5 0 1 0] 3 (Some f) None 0.
Definition scenario_vmm_faulted (f : list Z) : emu_vmm :=
  mk_vmm (mk_cached 5 0 (pread f 5120 zero_data) :: mk_cached 5 0 (pread f 1024 zero_data)
          :: replicate 13 fresh_slot) 2 (2 ^ 32 - 1) 0 0x400000
    [mk_page 0 1 0 0 0; mk_page 2 5 0 1 3; mk_page 10 5 0 1 2] 3 (Some f) None 0.

(** [cli_emu_vmm_read8] at each address in turn. *)
Fixpoint read8_each (h : host) (vas : list Z) : M (list (retval * option Z)) :=
  match vas with
  | [] => ret []
  | va :: rest =>
      let* r := cli_emu_vmm_read8 h va in
      let* rs := read8_each h rest in
      ret (r :: rs)
  end.

(** The state a call leaves behind (the state it started from, had it no
    defined outcome). *)
Definition state_after {A} (m : M A) (v : emu_vmm) : emu_vmm :=
  match m v with
  | Ret (_, v') => v'
  | UB => v
  end.

(** The read|write image after its page 1 was read: page 2 sits in slot 0,
    page 1 in slot 1. *)
Definition vmm_rw_faulted : emu_vmm := state_after (cli_emu_vmm_read8 x86 0x1000) vmm_rw.

(** Two sections with a hole of one page between them. *)
Definition sec_first : cli_exe_section := mk_section 0 4096 0 R_X 0.
Definition sec_after_gap : cli_exe_section := mk_section 8192 4096 0x1000 R_X 8192.

(** ** Predicates on states *)

(** The address [va] resolves to slot [c] without a fault: through the
    last-used shortcut, or through the entry of its page. *)
Definition names_slot (v : emu_vmm) (va c : Z) : Prop :=
  (lastused_page v = va / 4096 /\ lastused_page_idx v = c) \/
  (lastused_page v <> va / 4096 /\ 0 <= va / 4096 <= n_pages v /\
   cached_page_idx <$> page_flags v !! Z.to_nat (va / 4096) = Some (c + 1) /\ 0 <= c).

(** The entry of page [p] exists and satisfies [P]. *)
Definition page_sat (P : page_t -> Prop) (p : Z) (v : emu_vmm) : Prop :=
  exists pe, page_flags v !! Z.to_nat p = Some pe /\ P pe.

(** What [vmm_pageout] leaves in the entry it is given. *)
Definition written_out (pe : page_t) : Prop := init pe = 1 /\ modified pe <> 0.

(** The two stores of the header loop (lines 94-95) on the entry of page [i]. *)
Definition header_fields (i : Z) (pe : page_t) : page_t :=
  set_flag_rwx (Z.shiftl 1 flag_r) (set_file_offset (uint32 (i * 4096) / MINALIGN) pe).

(** The bytes in the buffer of slot [c]. *)
Definition slot_data (c : nat) (v : emu_vmm) : option (list Z) :=
  data <$> cached v !! c.

(** ** The calls of the examples *)

(** A write that faults its page in, then a read of the same address. *)
Definition write32_then_read32 (va x : Z) : M (retval * (retval * option Z)) :=
  let* w := cli_emu_vmm_write32 x86 va x in
  let* r := cli_emu_vmm_read32 x86 va in
  ret (w, r).

(** The addresses whose reads fault pages 2,1, 4,3, ..., 14,13 in. *)
Definition odd_pages : list Z := [0x1000; 0x3000; 0x5000; 0x7000; 0x9000; 0xb000; 0xd000].

(** The 18-page image once all fifteen slots are filled and slot 0, the next
    victim, is dirty. *)
Definition vmm_18_full : emu_vmm :=
  state_after (let* _ := cli_emu_vmm_write8 x86 0x11000 0xAA in
               read8_each x86 odd_pages) vmm_18.

(** Page 17 is written as the first page faulted in; fifteen more pages
    follow (2,1, ..., 14,13, then 16 on the read of page 15); page 17 is then
    read again. *)
Definition evict_written_page : M (retval * list (retval * option Z)
                                   * (retval * option Z) * (retval * option Z)) :=
  let* w := cli_emu_vmm_write8 x86 0x11000 0xAA in
  let* rs := read8_each x86 odd_pages in
  let* r15 := cli_emu_vmm_read8 x86 0xf000 in
  let* again := cli_emu_vmm_read8 x86 0x11000 in
  ret (w, rs, r15, again).

(** All fifteen slots are filled from zero pages (page 2 made writable and
    written on the way); then page 0x10 is read twice through the failing
    descriptor. *)
Definition fill_then_fail : M (retval * list (retval * option Z)) :=
  let* _ := cli_emu_vmm_read8 x86 0x0 in
  let* _ := cli_emu_vmm_prot_set 0x2000 1 (Z.lor (Z.shiftl 1 flag_r) (Z.shiftl 1 flag_w)) in
  let* w := cli_emu_vmm_write8 x86 0x2000 0x5A in
  let* rs := read8_each x86 [0x4000; 0x6000; 0x8000; 0xa000; 0xc000; 0xe000] in
  ret (w, rs).
Definition read_twice (va : Z) : M ((retval * option Z) * Z * option page_t
                                    * (retval * option Z) * Z) :=
  let* r1 := cli_emu_vmm_read8 x86 va in
  let* c1 := gets cached_idx in
  let* pf := gets page_flags in
  let* r2 := cli_emu_vmm_read8 x86 va in
  let* c2 := gets cached_idx in
  ret (r1, c1, pf !! Z.to_nat (va / 4096), r2, c2).

(** A write to the read|write page 1, then a read, a write and a read at
    one address of the read-only page 2. *)
Definition write_read_only_page : M (retval * retval * (retval * option Z)
                                     * retval * (retval * option Z)) :=
  let* w1 := cli_emu_vmm_write8 x86 0x1000 0x11 in
  let* prot := cli_emu_vmm_prot_get 0x2004 1 in
  let* before := cli_emu_vmm_read8 x86 0x2004 in
  let* w2 := cli_emu_vmm_write8 x86 0x2004 0x77 in
  let* after_w := cli_emu_vmm_read8 x86 0x2004 in
  ret (w1, prot, before, w2, after_w).

(** ** Definitions for the further properties *)

(** ** Invariants of the address space *)

(** Partial correctness of a call: from a state that satisfies [P], every
    defined outcome satisfies [Q]. *)
Definition triple {A} (P : emu_vmm -> Prop) (m : M A) (Q : A -> emu_vmm -> Prop) : Prop :=
  forall v a v', P v -> m v = Ret (a, v') -> Q a v'.

(** The shape the code relies on without testing it: [cached] has its 15
    slots, each with a buffer of 4096 bytes; the two slot indices the struct
    holds are within the 15 slots; every entry names no slot or one of the
    15; and [page_flags] has [n_pages] entries. *)
Record well_formed (v : emu_vmm) : Prop := mk_wf {
  wf_slots : length (cached v) = 15%nat;
  wf_cached_idx : 0 <= cached_idx v < 15;
  wf_lastused_idx : 0 <= lastused_page_idx v < 15;
  wf_buffers : Forall (fun s => length (data s) = 4096%nat) (cached v);
  wf_entries : Forall (fun pe => 0 <= cached_page_idx pe <= 15) (page_flags v);
  wf_pages : length (page_flags v) = Z.to_nat (n_pages v)
}.

(** The calls a user of the address space can make: [vmm_read] is behind
    every read entry point, [cli_emu_vmm_write] behind every write. *)
Inductive call : Type :=
| Read (va len flags : Z)
| Write (va : Z) (value : list Z) (len : Z)
| ProtSet (va len rwx : Z)
| ProtGet (va len : Z).

Definition perform (h : host) (c : call) : M unit :=
  match c with
  | Read va len flags => let* _ := vmm_read h va len flags in ret tt
  | Write va value len => let* _ := cli_emu_vmm_write h va value len in ret tt
  | ProtSet va len rwx => let* _ := cli_emu_vmm_prot_set va len rwx in ret tt
  | ProtGet va len => let* _ := cli_emu_vmm_prot_get va len in ret tt
  end.

(** A sequence of calls, one after the other. *)
Fixpoint perform_all (h : host) (cs : list call) : M unit :=
  match cs with
  | [] => ret tt
  | c :: cs' => let* _ := perform h c in perform_all h cs'
  end.

(** What construction hands over before any call: nothing resident, nothing
    modified, no temp file, the shortcut on no page. *)
Definition pristine (v : emu_vmm) : Prop :=
  well_formed v /\
  cached v = replicate 15 fresh_slot /\
  cached_idx v = 0 /\ lastused_page v = 2 ^ 32 - 1 /\
  tmpfd v = None /\ tmpfd_written v = 0 /\
  Forall (fun pe => cached_page_idx pe = 0 /\ modified pe = 0) (page_flags v).

(** The fields that identify the image an address space was made for. *)
Definition image (v : emu_vmm) : Z * Z * option (list Z) :=
  (imagebase v, n_pages v, infd v).

(** One read|write section of two pages of uninitialised data at rva 0x1000:
    its pages are zero-filled, no file is read. *)
Definition sec_bss : cli_exe_section :=
  mk_section 0x1000 0x2000 0 (Z.lor R_W IMAGE_SCN_CNT_UNINITIALIZED_DATA) 0x1000.
Definition vmm_bss : emu_vmm :=
  constructed (cli_emu_vmm_new x86 (pe32 1) [sec_bss] None).

(** A write, a read of the next page, and the two protection calls. *)
Definition session : list call :=
  [Write 0x1000 [7] 1; Read 0x2000 1 1; ProtSet 0x1000 1 1; ProtGet 0x1000 1].

(** The checks on the headers pass: not PE32+ (line 312), at least one
    section (line 316), one of the three machine types of lines 79-81. *)
Definition supported (h : host) (pedata : cli_pe_hook_data) : bool :=
  negb (le16_to_host h (Magic pedata) =? 0x020b) &&
  negb (nsections pedata =? 0) &&
  ((Machine pedata =? 0x14c) || (Machine pedata =? 0x14d) || (Machine pedata =? 0x14e)).

(** The page count that line 327 computes from the last section. *)
Definition page_count (last : cli_exe_section) : Z :=
  uint32 (rva last + vsz last + 4095) / 4096.

(** Two sections in the wrong order: the first starts past the end of the
    second, which is the last. *)
Definition sec_late : cli_exe_section := mk_section 0x3000 0x1000 0x1000 R_X 0x3000.
Definition sec_early : cli_exe_section := mk_section 0x1000 0x1000 0x2000 R_X 0x4000.

(** A first section of three pages before a last section that ends sooner. *)
Definition sec_long : cli_exe_section := mk_section 0x1000 0x3000 0x1000 R_X 0x1000.
Definition sec_short : cli_exe_section := mk_section 0x1000 0x1000 0x4000 R_X 0x4000.

(** The number of pages of a section, line 100. *)
Definition section_pages (s : cli_exe_section) : Z := uint32 (vsz s + 4095) / 4096.

(** The rights [m] are among those of the entry. *)
Definition has_rights (m : Z) (pe : page_t) : Prop := Z.land (flag_rwx pe) m = m.

(** What lines 122-126 store for page [j] of section [s]. *)
Definition backed_by (s : cli_exe_section) (j : Z) (pe : page_t) : Prop :=
  if Z.land (chr s) IMAGE_SCN_CNT_UNINITIALIZED_DATA =? 0
  then init pe = 1 /\ file_offset pe = (uint32 (raw s + j * 4096) / MINALIGN) mod 2 ^ 23
  else init pe = 0.

(** A read-only code section followed by two pages of uninitialised data. *)
Definition sec_text : cli_exe_section := mk_section 0x1000 0x1000 0x400 R_X 0x1000.
Definition sec_data : cli_exe_section :=
  mk_section 0x2000 0x2000 0 (Z.lor R_W IMAGE_SCN_CNT_UNINITIALIZED_DATA) 0x2000.
Definition vmm_text_data : emu_vmm :=
  constructed (cli_emu_vmm_new x86 (pe32 2) [sec_text; sec_data] None).

(** A code section at file offset 0 of a file of three bytes. *)
Definition sec_rx0 : cli_exe_section := mk_section 0x1000 0x1000 0 R_X 0x1000.
Definition short_file : list Z := [0x4d; 0x5a; 0x90].
Definition vmm_short : emu_vmm :=
  constructed (cli_emu_vmm_new x86 (pe32 1) [sec_rx0] (Some short_file)).

Definition is_write (c : call) : bool :=
  match c with
  | Write _ _ _ => true
  | _ => false
  end.

(** No slot is dirty, no page is marked modified, there is no temp file. *)
Definition untouched (v : emu_vmm) : Prop :=
  Forall (fun s => dirty s = 0) (cached v) /\
  tmpfd v = None /\ tmpfd_written v = 0 /\
  Forall (fun pe => modified pe = 0) (page_flags v).

(** A host that stores the most significant byte first. *)
Definition big_endian_host : host := mk_host true (fun _ => true) true true.

(** The 32-bit value with its four bytes in the opposite order. *)
Definition bswap32 (x : Z) : Z :=
  (x mod 256) * 2 ^ 24 + (x / 2 ^ 8 mod 256) * 2 ^ 16 + (x / 2 ^ 16 mod 256) * 2 ^ 8
  + x / 2 ^ 24 mod 256.

(** * Properties *)

(** ** Running binds *)

Lemma bind_Ret {A B} (m : M A) (k : A -> M B) v a v' :
  m v = Ret (a, v') -> bind m k v = k a v'.
Proof. intros H. unfold bind. rewrite H. reflexivity. Qed.

Lemma bind_UB {A B} (m : M A) (k : A -> M B) v :
  m v = UB -> bind m k v = UB.
Proof. intros H. unfold bind. rewrite H. reflexivity. Qed.

Lemma bind_inv {A B} (m : M A) (k : A -> M B) v b v'' :
  bind m k v = Ret (b, v'') -> exists a v', m v = Ret (a, v') /\ k a v' = Ret (b, v'').
Proof.
  unfold bind. destruct (m v) as [[a v']|]; [|discriminate]. eauto.
Qed.

Lemma result_state_after {A} (m : M A) v a :
  result m v = Some a -> m v = Ret (a, state_after m v).
Proof.
  unfold result, state_after. destruct (m v) as [[a' v']|]; [|discriminate].
  intros [= ->]. reflexivity.
Qed.

(** ** What a call keeps *)

Section Keeps.
Context {B : Type} (f : emu_vmm -> B).

Lemma keeps_ret {A} (a : A) : keeps f (ret a).
Proof. intros v a' v' [= _ ->]. reflexivity. Qed.

Lemma keeps_undefined {A} : keeps f (@undefined A).
Proof. intros v a v' [=]. Qed.

Lemma keeps_gets {A} (g : emu_vmm -> A) : keeps f (gets g).
Proof. intros v a v' [= _ ->]. reflexivity. Qed.

Lemma keeps_modify (g : emu_vmm -> emu_vmm) :
  (forall v, f (g v) = f v) -> keeps f (modify g).
Proof. intros Hg v a v' [= _ <-]. apply Hg. Qed.

Lemma keeps_bind {A C} (m : M A) (k : A -> M C) :
  keeps f m -> (forall a, keeps f (k a)) -> keeps f (bind m k).
Proof.
  intros Hm Hk v c v'' H. apply bind_inv in H as (a & v' & H1 & H2).
  rewrite (Hk _ _ _ _ H2). eapply Hm; eauto.
Qed.

Lemma keeps_if {A} (b : bool) (m1 m2 : M A) :
  keeps f m1 -> keeps f m2 -> keeps f (if b then m1 else m2).
Proof. destruct b; auto. Qed.

Lemma keeps_load_page p : keeps f (load_page p).
Proof.
  intros v a v'. unfold load_page.
  destruct (page_flags v !! Z.to_nat p); [|discriminate].
  destruct (0 <=? p); [|discriminate]. intros [= _ ->]. reflexivity.
Qed.

Lemma keeps_load_slot c : keeps f (load_slot c).
Proof.
  intros v a v'. unfold load_slot.
  destruct (cached v !! Z.to_nat c); [|discriminate].
  destruct (0 <=? c); [|discriminate]. intros [= _ ->]. reflexivity.
Qed.

Lemma keeps_load_section l i : keeps f (load_section l i).
Proof.
  unfold load_section. destruct (l !! Z.to_nat i); [|apply keeps_undefined].
  destruct (0 <=? i); [apply keeps_ret | apply keeps_undefined].
Qed.

End Keeps.

Create HintDb keeps.
#[local] Hint Resolve keeps_ret keeps_undefined keeps_gets keeps_load_page keeps_load_slot
  keeps_load_section : keeps.
#[local] Hint Extern 2 (keeps _ (bind _ _)) => apply keeps_bind; [|intros ?] : keeps.
#[local] Hint Extern 2 (keeps _ (if _ then _ else _)) => apply keeps_if : keeps.
#[local] Hint Extern 2 (keeps _ (match ?x with Some _ => _ | None => _ end)) => destruct x : keeps.
#[local] Hint Extern 1 (keeps _ (modify _)) => apply keeps_modify; intros ?; reflexivity : keeps.

Lemma keeps_n_pages_update_page p g : keeps n_pages (update_page p g).
Proof. unfold update_page. auto with keeps. Qed.
#[local] Hint Resolve keeps_n_pages_update_page : keeps.

Lemma keeps_n_pages_map_header k : forall i rva0, keeps n_pages (map_header k i rva0).
Proof.
  induction k as [|k IH]; intros i rva0; simpl; auto 10 with keeps.
Qed.

Lemma keeps_n_pages_map_section_pages k : forall j s, keeps n_pages (map_section_pages k j s).
Proof.
  induction k as [|k IH]; intros j s; simpl; auto 20 with keeps.
Qed.

Lemma keeps_n_pages_map_sections k : forall i l, keeps n_pages (map_sections k i l).
Proof.
  pose proof keeps_n_pages_map_section_pages.
  induction k as [|k IH]; intros i l; simpl; auto 20 with keeps.
Qed.

Lemma keeps_n_pages_map_pages pe l : keeps n_pages (map_pages pe l).
Proof.
  pose proof keeps_n_pages_map_header. pose proof keeps_n_pages_map_sections.
  unfold map_pages. auto 20 with keeps.
Qed.

Lemma keeps_update_page_of {B} (f : emu_vmm -> B) p g :
  (forall pf v, f (with_page_flags pf v) = f v) -> keeps f (update_page p g).
Proof.
  intros Hf. unfold update_page. apply keeps_bind; [apply keeps_load_page|].
  intros pe. apply keeps_modify. intros v. apply Hf.
Qed.

Lemma keeps_update_slot_of {B} (f : emu_vmm -> B) c g :
  (forall cs v, f (with_cached cs v) = f v) -> keeps f (update_slot c g).
Proof.
  intros Hf. unfold update_slot. apply keeps_bind; [apply keeps_load_slot|].
  intros s. apply keeps_modify. intros v. apply Hf.
Qed.

Lemma keeps_int_mul {B} (f : emu_vmm -> B) a b : keeps f (int_mul a b).
Proof. unfold int_mul. destruct (a * b <? 2 ^ 31); auto with keeps. Qed.
#[local] Hint Resolve keeps_int_mul : keeps.

Lemma keeps_cached_idx_update_page p g : keeps cached_idx (update_page p g).
Proof. apply keeps_update_page_of. reflexivity. Qed.
Lemma keeps_cached_idx_update_slot c g : keeps cached_idx (update_slot c g).
Proof. apply keeps_update_slot_of. reflexivity. Qed.
Lemma keeps_page_flags_update_slot c g : keeps page_flags (update_slot c g).
Proof. apply keeps_update_slot_of. reflexivity. Qed.
#[local] Hint Resolve keeps_cached_idx_update_page keeps_cached_idx_update_slot
  keeps_page_flags_update_slot : keeps.

Lemma keeps_cached_idx_pageout h c p : keeps cached_idx (vmm_pageout h c p).
Proof.
  unfold vmm_pageout, pageout_write, cli_gentempfd. auto 30 with keeps.
Qed.
#[local] Hint Resolve keeps_cached_idx_pageout : keeps.

Lemma keeps_n_pages_update_slot c g : keeps n_pages (update_slot c g).
Proof. apply keeps_update_slot_of. reflexivity. Qed.
#[local] Hint Resolve keeps_n_pages_update_slot : keeps.

Lemma keeps_n_pages_pageout h c p : keeps n_pages (vmm_pageout h c p).
Proof. unfold vmm_pageout, pageout_write, cli_gentempfd. auto 30 with keeps. Qed.
#[local] Hint Resolve keeps_n_pages_pageout : keeps.

Lemma keeps_n_pages_pagein h p : keeps n_pages (vmm_pagein h p).
Proof. unfold vmm_pagein. auto 40 with keeps. Qed.
#[local] Hint Resolve keeps_n_pages_pagein : keeps.

Lemma keeps_n_pages_cache_2page h va : keeps n_pages (vmm_cache_2page h va).
Proof. unfold vmm_cache_2page. auto 40 with keeps. Qed.
#[local] Hint Resolve keeps_n_pages_cache_2page : keeps.

Lemma keeps_copy_out {B} (f : emu_vmm -> B) d off len : keeps f (copy_out d off len).
Proof. unfold copy_out. auto with keeps. Qed.
Lemma keeps_copy_in {B} (f : emu_vmm -> B) d off value len : keeps f (copy_in d off value len).
Proof. unfold copy_in. auto with keeps. Qed.
#[local] Hint Resolve keeps_copy_out keeps_copy_in : keeps.

Lemma keeps_page_flags_pageout_write h c p : keeps page_flags (pageout_write h c p).
Proof.
  unfold pageout_write. auto 30 with keeps.
Qed.

Lemma keeps_page_flags_gentempfd h : keeps page_flags (cli_gentempfd h).
Proof. unfold cli_gentempfd. auto with keeps. Qed.

(** ** Single steps *)

Lemma load_page_inside v p pe :
  0 <= p -> page_flags v !! Z.to_nat p = Some pe -> load_page p v = Ret (pe, v).
Proof.
  intros Hp Hl. unfold load_page. rewrite Hl.
  replace (0 <=? p) with true by (symmetry; apply Z.leb_le; exact Hp). reflexivity.
Qed.

Lemma load_page_outside v p :
  page_flags v !! Z.to_nat p = None -> load_page p v = UB.
Proof. intros Hl. unfold load_page. rewrite Hl. reflexivity. Qed.

Lemma load_slot_inside v c s :
  0 <= c -> cached v !! Z.to_nat c = Some s -> load_slot c v = Ret (s, v).
Proof.
  intros Hc Hl. unfold load_slot. rewrite Hl.
  replace (0 <=? c) with true by (symmetry; apply Z.leb_le; exact Hc). reflexivity.
Qed.

Lemma update_slot_inside v c s g :
  0 <= c -> cached v !! Z.to_nat c = Some s ->
  update_slot c g v = Ret (tt, with_cached (<[Z.to_nat c := g s]> (cached v)) v).
Proof.
  intros Hc Hl. unfold update_slot.
  rewrite (bind_Ret _ _ _ _ _ (load_slot_inside v c s Hc Hl)). reflexivity.
Qed.

Lemma update_page_lookup p g v u v' :
  update_page p g v = Ret (u, v') ->
  exists pe, page_flags v !! Z.to_nat p = Some pe /\
             page_flags v' = <[Z.to_nat p := g pe]> (page_flags v) /\
             cached_idx v' = cached_idx v.
Proof.
  unfold update_page. intros H. apply bind_inv in H as (pe & v1 & H1 & H2).
  unfold load_page in H1. destruct (page_flags v !! Z.to_nat p) as [pe'|] eqn:E; [|discriminate].
  destruct (0 <=? p); [|discriminate]. injection H1 as -> ->.
  injection H2 as _ <-. exists pe. repeat split; reflexivity.
Qed.

Lemma update_page_other p g v u v' i :
  update_page p g v = Ret (u, v') -> 0 <= p -> 0 <= i -> i <> p ->
  page_flags v' !! Z.to_nat i = page_flags v !! Z.to_nat i.
Proof.
  intros H Hp Hi Hne. apply update_page_lookup in H as (pe & _ & Hpf & _).
  rewrite Hpf. apply list_lookup_insert_ne. lia.
Qed.

Lemma update_page_nonneg p g v u v' : update_page p g v = Ret (u, v') -> 0 <= p.
Proof.
  unfold update_page, load_page. intros H. apply bind_inv in H as (pe & v1 & H & _).
  destruct (page_flags v !! Z.to_nat p); [|discriminate].
  destruct (Z.leb_spec 0 p); [assumption | discriminate].
Qed.

Lemma update_page_at p g v u v' :
  update_page p g v = Ret (u, v') ->
  exists pe, page_flags v !! Z.to_nat p = Some pe /\
             page_flags v' !! Z.to_nat p = Some (g pe).
Proof.
  intros H. apply update_page_lookup in H as (pe & Hpe & Hpf & _).
  exists pe. split; [exact Hpe|]. rewrite Hpf.
  apply list_lookup_insert_eq. eapply lookup_lt_Some; eauto.
Qed.

Lemma copy_out_inside d off len v :
  0 <= off -> 0 <= len -> off + len <= Z.of_nat (length d) ->
  copy_out d off len v = Ret (take (Z.to_nat len) (drop (Z.to_nat off) d), v).
Proof.
  intros Ho Hl Hin. unfold copy_out.
  replace (off + len <=? Z.of_nat (length d)) with true by (symmetry; apply Z.leb_le; lia).
  replace (0 <=? len) with true by (symmetry; apply Z.leb_le; lia).
  reflexivity.
Qed.

Lemma copy_in_inside d off value len v :
  0 <= off -> 0 <= len -> off + len <= Z.of_nat (length d) ->
  len <= Z.of_nat (length value) ->
  copy_in d off value len v
  = Ret (take (Z.to_nat off) d ++ take (Z.to_nat len) value ++ drop (Z.to_nat (off + len)) d, v).
Proof.
  intros Ho Hl Hin Hv. unfold copy_in.
  replace (off + len <=? Z.of_nat (length d)) with true by (symmetry; apply Z.leb_le; lia).
  replace (0 <=? len) with true by (symmetry; apply Z.leb_le; lia).
  replace (len <=? Z.of_nat (length value)) with true by (symmetry; apply Z.leb_le; lia).
  reflexivity.
Qed.

Lemma uint32_small x : 0 <= x < 2 ^ 32 -> uint32 x = x.
Proof. intros H. unfold uint32. apply Z.mod_small. exact H. Qed.

Lemma uint32_div_bound x : uint32 x / 4096 < 2 ^ 20.
Proof.
  unfold uint32. pose proof (Z.mod_pos_bound x (2 ^ 32) eq_refl).
  apply Z.div_lt_upper_bound; lia.
Qed.

Lemma page_offset_range va : 0 <= Z.land va 0xfff < 4096.
Proof.
  change 0xfff with (Z.ones 12). rewrite Z.land_ones by lia.
  apply Z.mod_pos_bound. reflexivity.
Qed.

(** ** The bounds tests *)

(** X1.  The protection calls refuse every address at or past the mapped extent
    with -EMU_ERR_GENERIC, and change nothing. *)
Theorem protection_calls_refuse_past_extent v va len rwx :
  n_pages v <= va / 4096 ->
  cli_emu_vmm_prot_get va len v = Ret (Neg EMU_ERR_GENERIC, v) /\
  cli_emu_vmm_prot_set va len rwx v = Ret (Neg EMU_ERR_GENERIC, v).
Proof.
  intros H. apply Z.leb_le in H.
  unfold cli_emu_vmm_prot_get, cli_emu_vmm_prot_set, bind, gets. rewrite H.
  split; reflexivity.
Qed.

Lemma protection_calls_refuse_past_extent_witness :
  cli_emu_vmm_prot_get 0x3000 1 vmm_rx_unreadable
    = Ret (Neg EMU_ERR_GENERIC, vmm_rx_unreadable) /\
  cli_emu_vmm_prot_set 0x3000 1 7 vmm_rx_unreadable
    = Ret (Neg EMU_ERR_GENERIC, vmm_rx_unreadable).
Proof.
  apply (protection_calls_refuse_past_extent vmm_rx_unreadable 0x3000 1 7).
  vm_compute. discriminate.
Defined.

Lemma cache_2page_beyond h v va :
  n_pages v < va / 4096 -> lastused_page v <> va / 4096 ->
  vmm_cache_2page h va v = Ret (None, v).
Proof.
  intros Hn Hl. apply Z.ltb_lt in Hn. apply Z.eqb_neq in Hl.
  unfold vmm_cache_2page, bind, gets. rewrite Hl, Hn. reflexivity.
Qed.

(** X2.  A read or a write more than one page past the mapped extent (and not on
    the page last used) is refused with the read or the write error, and
    changes nothing. *)
Theorem accesses_refuse_beyond_next_page h v va len flags value :
  n_pages v < va / 4096 -> lastused_page v <> va / 4096 ->
  vmm_read h va len flags v = Ret ((Neg EMU_ERR_VMM_READ, None), v) /\
  cli_emu_vmm_write h va value len v = Ret (Neg EMU_ERR_VMM_WRITE, v).
Proof.
  intros Hn Hl. unfold vmm_read, cli_emu_vmm_write.
  rewrite !(bind_Ret _ _ _ _ _ (cache_2page_beyond h v va Hn Hl)). split; reflexivity.
Qed.

Lemma accesses_refuse_beyond_next_page_witness :
  vmm_read x86 0x4000 1 (Z.shiftl 1 flag_r) vmm_rx_unreadable
    = Ret ((Neg EMU_ERR_VMM_READ, None), vmm_rx_unreadable) /\
  cli_emu_vmm_write x86 0x4000 [1] 1 vmm_rx_unreadable
    = Ret (Neg EMU_ERR_VMM_WRITE, vmm_rx_unreadable).
Proof.
  apply (accesses_refuse_beyond_next_page x86 vmm_rx_unreadable 0x4000 1 _ [1]).
  - vm_compute. reflexivity.
  - vm_compute. discriminate.
Defined.

(** X3.  The off-by-one of line 188: for the page just past the extent the test
    [page > n_pages] lets the address through, and the entry read is one past
    the array of [n_pages] entries. *)
Theorem resolution_at_page_count_is_undefined h v va :
  va / 4096 = n_pages v -> lastused_page v <> n_pages v ->
  length (page_flags v) = Z.to_nat (n_pages v) ->
  vmm_cache_2page h va v = UB.
Proof.
  intros Hp Hl Hlen. apply Z.eqb_neq in Hl.
  unfold vmm_cache_2page. rewrite Hp. unfold bind at 1, gets at 1. rewrite Hl.
  unfold bind at 1, gets at 1. rewrite Z.ltb_irrefl.
  apply bind_UB, load_page_outside, lookup_ge_None. lia.
Qed.

Lemma resolution_at_page_count_is_undefined_witness :
  vmm_cache_2page x86 0x3000 vmm_rx_unreadable = UB.
Proof.
  apply (resolution_at_page_count_is_undefined x86 vmm_rx_unreadable 0x3000);
    vm_compute; first [reflexivity | discriminate].
Defined.

(** X4.  [prot_set] on a page within the extent hands back no value (the
    function ends without a return); the [prot_get] that follows returns the
    low three bits of what was set. *)
Theorem prot_set_then_get v va len len' rwx :
  0 <= va / 4096 < n_pages v ->
  (Z.to_nat (va / 4096) < length (page_flags v))%nat ->
  result (let* s := cli_emu_vmm_prot_set va len rwx in
          let* g := cli_emu_vmm_prot_get va len' in
          ret (s, g)) v
  = Some (NoValue, Val (rwx mod 8)).
Proof.
  intros [H0 Hn] Hlen.
  destruct (lookup_lt_is_Some_2 _ _ Hlen) as [pe Hpe].
  assert (Hb : (n_pages v <=? va / 4096) = false) by (apply Z.leb_gt; exact Hn).
  unfold result, cli_emu_vmm_prot_set, cli_emu_vmm_prot_get, update_page.
  unfold bind, gets, modify, ret. rewrite Hb, (load_page_inside _ _ _ H0 Hpe).
  cbn [n_pages with_page_flags]. rewrite Hb.
  unfold load_page. cbn [page_flags with_page_flags].
  rewrite list_lookup_insert_eq by exact Hlen.
  replace (0 <=? va / 4096) with true by (symmetry; apply Z.leb_le; exact H0).
  reflexivity.
Qed.

Lemma prot_set_then_get_witness :
  result (let* s := cli_emu_vmm_prot_set 0x2000 1 0xff in
          let* g := cli_emu_vmm_prot_get 0x2000 4 in
          ret (s, g)) vmm_rx_unreadable
  = Some (NoValue, Val (0xff mod 8)).
Proof.
  apply (prot_set_then_get vmm_rx_unreadable 0x2000 1 4 0xff).
  - vm_compute. split; [discriminate | reflexivity].
  - vm_compute. lia.
Defined.

(** ** Page-in and the slot it records *)

(** X5.  [vmm_pagein] fills slot [cached_idx] and advances [cached_idx] round the
    15 slots; the entry of the page then names the slot after the one filled,
    since line 170 reads [cached_idx] after line 163 advanced it. *)
Theorem page_in_names_the_next_slot h p v r v' :
  0 <= cached_idx v < 15 ->
  vmm_pagein h p v = Ret (r, v') ->
  (r = None \/ r = Some (cached_idx v)) /\
  cached_idx v' = (cached_idx v + 1) mod 15 /\
  cached_page_idx <$> page_flags v' !! Z.to_nat p = Some ((cached_idx v + 1) mod 15 + 1).
Proof.
  intros Hc H. unfold vmm_pagein in H.
  apply bind_inv in H as (c & v0 & H0 & H). injection H0 as <- <-.
  apply bind_inv in H as (? & v1 & H1 & H). injection H1 as _ <-.
  set (next := if 15 <=? uint32 (cached_idx v + 1) then 0 else uint32 (cached_idx v + 1)) in *.
  assert (Hnext : next = (cached_idx v + 1) mod 15).
  { unfold next, uint32. rewrite (Z.mod_small (cached_idx v + 1) (2 ^ 32)) by lia.
    destruct (Z.leb_spec 15 (cached_idx v + 1)).
    - replace (cached_idx v + 1) with 15 by lia. reflexivity.
    - rewrite Z.mod_small by lia. reflexivity. }
  apply bind_inv in H as (s & v2 & H2 & H).
  apply keeps_load_slot with (f := cached_idx) in H2 as K2.
  apply bind_inv in H as (? & v3 & H3 & H).
  assert (K3 : cached_idx v3 = cached_idx v2).
  { destruct (dirty s =? 0); [injection H3 as _ <-; reflexivity|].
    eapply keeps_cached_idx_pageout; eauto. }
  apply bind_inv in H as (pe & v4 & H4 & H).
  apply keeps_load_page with (f := cached_idx) in H4 as K4.
  apply bind_inv in H as (? & v5 & H5 & H).
  apply keeps_cached_idx_update_slot in H5 as K5.
  apply bind_inv in H as (? & v6 & H6 & H).
  apply keeps_cached_idx_update_slot in H6 as K6.
  apply bind_inv in H as (idx & v7 & H7 & H). injection H7 as <- <-.
  apply bind_inv in H as (? & v8 & H8 & H).
  apply update_page_lookup in H8 as (pe' & Hpe' & Hpf & K8).
  assert (Kidx : cached_idx v6 = next) by (rewrite K6, K5, K4, K3, K2; reflexivity).
  assert (Hfinal : cached_idx v8 = (cached_idx v + 1) mod 15 /\
            cached_page_idx <$> page_flags v8 !! Z.to_nat p
            = Some ((cached_idx v + 1) mod 15 + 1)).
  { split; [rewrite K8, Kidx; exact Hnext|].
    rewrite Hpf, list_lookup_insert_eq by (eapply lookup_lt_Some; eauto).
    rewrite Kidx, Hnext. cbn. f_equal. apply Z.mod_small.
    pose proof (Z.mod_pos_bound (cached_idx v + 1) 15). lia. }
  destruct (init pe =? 0).
  - apply bind_inv in H as (? & v9 & H9 & H). injection H as <- <-.
    apply keeps_cached_idx_update_slot in H9 as K9.
    apply keeps_page_flags_update_slot in H9 as P9.
    rewrite K9, P9. split; [right; reflexivity | exact Hfinal].
  - apply bind_inv in H as (off & v9 & H9 & H).
    apply (keeps_int_mul (fun v => (cached_idx v, page_flags v))) in H9 as K9.
    injection K9 as K9 P9.
    apply bind_inv in H as (fd & v10 & H10 & H). injection H10 as _ <-.
    destruct fd as [fl|].
    + apply bind_inv in H as (? & v11 & H11 & H). injection H as <- <-.
      apply keeps_cached_idx_update_slot in H11 as K11.
      apply keeps_page_flags_update_slot in H11 as P11.
      rewrite K11, P11, K9, P9. split; [right; reflexivity | exact Hfinal].
    + injection H as <- <-. rewrite K9, P9. split; [left; reflexivity | exact Hfinal].
Qed.

Lemma page_in_names_the_next_slot_witness :
  (Some 0 = None \/ Some 0 = Some (cached_idx vmm_rx_unreadable)) /\
  cached_idx (state_after (vmm_pagein x86 0) vmm_rx_unreadable)
    = (cached_idx vmm_rx_unreadable + 1) mod 15 /\
  cached_page_idx <$> page_flags (state_after (vmm_pagein x86 0) vmm_rx_unreadable) !! Z.to_nat 0
    = Some ((cached_idx vmm_rx_unreadable + 1) mod 15 + 1).
Proof.
  apply (page_in_names_the_next_slot x86 0 vmm_rx_unreadable (Some 0)
           (state_after (vmm_pagein x86 0) vmm_rx_unreadable)).
  - vm_compute. split; [discriminate | reflexivity].
  - apply result_state_after. vm_compute. reflexivity.
Defined.



(** ** Page-out marks the page coming in *)

Lemma page_sat_same_flags (P : page_t -> Prop) p v v' :
  page_flags v' = page_flags v -> page_sat P p v -> page_sat P p v'.
Proof. intros E (pe & H & HP). exists pe. rewrite E. split; assumption. Qed.

Lemma update_page_sat (P Q : page_t -> Prop) p g v u v' :
  (forall pe, P pe -> Q (g pe)) ->
  page_sat P p v -> update_page p g v = Ret (u, v') -> page_sat Q p v'.
Proof.
  intros HPQ (pe & Hpe & HP) H.
  apply update_page_lookup in H as (pe' & Hpe' & Hpf & _).
  rewrite Hpe in Hpe'. injection Hpe' as <-.
  exists (g pe). split; [|apply HPQ; exact HP].
  rewrite Hpf. apply list_lookup_insert_eq. eapply lookup_lt_Some; eauto.
Qed.

Lemma update_page_defined p g v u v' :
  update_page p g v = Ret (u, v') -> page_sat (fun _ => True) p v.
Proof.
  intros H. apply update_page_lookup in H as (pe & Hpe & _). exists pe. split; [exact Hpe | exact I].
Qed.

Lemma load_page_sat (P : page_t -> Prop) p v pe v' :
  page_sat P p v -> load_page p v = Ret (pe, v') -> P pe /\ v' = v.
Proof.
  intros (pe' & Hpe' & HP). unfold load_page. rewrite Hpe'.
  destruct (0 <=? p); [|discriminate]. intros [= <- <-]. split; [exact HP | reflexivity].
Qed.

Lemma pageout_marks h c p v u v' :
  vmm_pageout h c p v = Ret (u, v') -> page_sat written_out p v'.
Proof.
  unfold vmm_pageout. intros H.
  apply bind_inv in H as (? & v1 & H1 & H).
  assert (S1 : page_sat (fun pe => init pe = 1) p v1).
  { eapply (update_page_sat (fun _ => True)); [|eapply update_page_defined|]; eauto.
    intros pe _. reflexivity. }
  apply bind_inv in H as (pe & v2 & H2 & H).
  destruct (load_page_sat _ _ _ _ _ S1 H2) as [Hinit ->].
  destruct (modified pe =? 0) eqn:Hm.
  - apply bind_inv in H as (? & v3 & H3 & H).
    assert (S3 : page_sat written_out p v3).
    { eapply (update_page_sat (fun pe => init pe = 1)); [|exact S1|exact H3].
      intros pe0 Hp0. split; [exact Hp0 | discriminate]. }
    apply bind_inv in H as (fd0 & v4 & H4 & H). injection H4 as _ <-.
    apply bind_inv in H as (? & v5 & H5 & H).
    assert (S5 : page_sat written_out p v5).
    { apply (page_sat_same_flags _ _ v3); [|exact S3].
      destruct fd0; [injection H5 as _ <-; reflexivity|].
      eapply keeps_page_flags_gentempfd; eauto. }
    apply bind_inv in H as (fd & v6 & H6 & H). injection H6 as _ <-.
    destruct fd as [fl|]; [|injection H as _ <-; exact S5].
    apply bind_inv in H as (w & v7 & H7 & H). injection H7 as _ <-.
    apply bind_inv in H as (? & v8 & H8 & H).
    assert (S8 : page_sat written_out p v8).
    { eapply (update_page_sat written_out); [|exact S5|exact H8].
      intros pe0 Hp0. exact Hp0. }
    apply bind_inv in H as (? & v9 & H9 & H). injection H9 as _ <-.
    apply keeps_page_flags_pageout_write in H.
    apply (page_sat_same_flags _ _ v8); [exact H | exact S8].
  - apply keeps_page_flags_pageout_write in H.
    apply (page_sat_same_flags _ _ v1); [exact H|].
    destruct S1 as (pe1 & Hpe1 & Hi1). exists pe1. split; [exact Hpe1|].
    unfold load_page in H2. rewrite Hpe1 in H2. destruct (0 <=? p); [|discriminate].
    injection H2 as ->. split; [exact Hi1 | apply Z.eqb_neq; exact Hm].
Qed.

(** X7.  When the victim slot is dirty, [vmm_pagein] hands the entry of the page
    coming in to [vmm_pageout]: it is that page which ends up initialised and
    modified, whatever page the slot held. *)
Theorem dirty_victim_marks_incoming_page h p v s r v' :
  0 <= cached_idx v ->
  cached v !! Z.to_nat (cached_idx v) = Some s ->
  dirty s <> 0 ->
  vmm_pagein h p v = Ret (r, v') ->
  page_sat written_out p v'.
Proof.
  intros Hc Hs Hd H. apply Z.eqb_neq in Hd. unfold vmm_pagein in H.
  apply bind_inv in H as (c & v0 & H0 & H). injection H0 as <- <-.
  apply bind_inv in H as (? & v1 & H1 & H). injection H1 as _ <-.
  rewrite (bind_Ret _ _ _ _ _ (load_slot_inside (with_cached_idx _ v) _ s Hc Hs)) in H.
  rewrite Hd in H.
  apply bind_inv in H as (? & v3 & H3 & H). apply pageout_marks in H3.
  apply bind_inv in H as (pe & v4 & H4 & H).
  destruct (load_page_sat _ _ _ _ _ H3 H4) as [_ ->].
  apply bind_inv in H as (? & v5 & H5 & H). apply keeps_page_flags_update_slot in H5 as P5.
  apply bind_inv in H as (? & v6 & H6 & H). apply keeps_page_flags_update_slot in H6 as P6.
  apply bind_inv in H as (idx & v7 & H7 & H). injection H7 as _ <-.
  apply bind_inv in H as (? & v8 & H8 & H).
  assert (S8 : page_sat written_out p v8).
  { eapply (update_page_sat written_out); [| |exact H8].
    - intros pe0 Hp0. exact Hp0.
    - apply (page_sat_same_flags _ _ v3); [rewrite P6, P5; reflexivity | exact H3]. }
  destruct (init pe =? 0).
  - apply bind_inv in H as (? & v9 & H9 & H). injection H as _ <-.
    apply keeps_page_flags_update_slot in H9.
    apply (page_sat_same_flags _ _ v8); assumption.
  - apply bind_inv in H as (off & v9 & H9 & H).
    apply (keeps_int_mul page_flags) in H9.
    apply bind_inv in H as (fd & v10 & H10 & H). injection H10 as _ <-.
    destruct fd as [fl|].
    + apply bind_inv in H as (? & v11 & H11 & H). injection H as _ <-.
      apply keeps_page_flags_update_slot in H11.
      apply (page_sat_same_flags _ _ v8); [rewrite H11, H9; reflexivity | exact S8].
    + injection H as _ <-. apply (page_sat_same_flags _ _ v8); assumption.
Qed.

Lemma dirty_victim_marks_incoming_page_witness :
  page_sat written_out 16 (state_after (vmm_pagein x86 16) vmm_18_full).
Proof.
  apply (dirty_victim_marks_incoming_page x86 16 vmm_18_full
           (mk_cached 3 1 (0xAA :: replicate 4095 17)) (Some 0)).
  - vm_compute. discriminate.
  - vm_compute. reflexivity.
  - vm_compute. discriminate.
  - apply result_state_after. vm_compute. reflexivity.
Defined.

(** ** Write, then read, on a resident page *)

Lemma cache_2page_last_used h v va :
  lastused_page v = va / 4096 ->
  vmm_cache_2page h va v = Ret (Some (lastused_page_idx v), v).
Proof.
  intros H. apply Z.eqb_eq in H.
  unfold vmm_cache_2page, bind, gets. rewrite H. reflexivity.
Qed.

Lemma copied_bytes_read_back (d value : list Z) off :
  (off + length value <= length d)%nat ->
  take (length value) (drop off (take off d ++ take (length value) value
                                  ++ drop (off + length value) d)) = value.
Proof.
  intros H.
  rewrite drop_app_length' by (rewrite length_take; lia).
  rewrite firstn_all. apply take_app_length.
Qed.

Lemma copied_bytes_length (d value : list Z) off :
  (off + length value <= length d)%nat ->
  length (take off d ++ take (length value) value ++ drop (off + length value) d) = length d.
Proof.
  intros H. rewrite !length_app, !length_take, length_drop. lia.
Qed.

Lemma write_then_read_on_last_used_page h v va value s :
  lastused_page v = va / 4096 ->
  0 <= lastused_page_idx v ->
  cached v !! Z.to_nat (lastused_page_idx v) = Some s ->
  Z.land (c_flag_rwx s) (Z.shiftl 1 flag_r) <> 0 ->
  Z.land (c_flag_rwx s) (Z.shiftl 1 flag_w) <> 0 ->
  Z.land va 0xfff + Z.of_nat (length value) <= Z.of_nat (length (data s)) ->
  result (let* w := cli_emu_vmm_write h va value (Z.of_nat (length value)) in
          let* r := cli_emu_vmm_read_r h va (Z.of_nat (length value)) in
          ret (w, r)) v
  = Some (Val 0, (Val 0, Some value)).
Proof.
  intros Hlast Hc Hs Hr Hw Hfit.
  apply Z.eqb_neq in Hr, Hw.
  pose proof (page_offset_range va) as [Hoff _].
  set (c := lastused_page_idx v) in *. set (off := Z.land va 0xfff) in *.
  set (len := Z.of_nat (length value)) in *.
  set (d := take (Z.to_nat off) (data s) ++ take (Z.to_nat len) value
            ++ drop (Z.to_nat (off + len)) (data s)).
  set (v1 := with_cached (<[Z.to_nat c := set_data d s]> (cached v)) v).
  set (v2 := with_cached (<[Z.to_nat c := set_dirty 1 (set_data d s)]> (cached v1)) v1).
  assert (Hlt : (Z.to_nat c < length (cached v))%nat) by (eapply lookup_lt_Some; eauto).
  assert (Hs1 : cached v1 !! Z.to_nat c = Some (set_data d s)).
  { unfold v1. cbn [cached with_cached]. apply list_lookup_insert_eq. exact Hlt. }
  assert (Hs2 : cached v2 !! Z.to_nat c = Some (set_dirty 1 (set_data d s))).
  { unfold v2. cbn [cached with_cached]. apply list_lookup_insert_eq.
    unfold v1. cbn [cached with_cached]. rewrite length_insert. exact Hlt. }
  assert (Hwrite : cli_emu_vmm_write h va value len v = Ret (Val 0, v2)).
  { unfold cli_emu_vmm_write.
    rewrite (bind_Ret _ _ _ _ _ (cache_2page_last_used h v va Hlast)).
    rewrite (bind_Ret _ _ _ _ _ (load_slot_inside v c s Hc Hs)). rewrite Hw.
    rewrite (bind_Ret _ _ _ _ _ (copy_in_inside (data s) off value len v Hoff
               ltac:(lia) Hfit ltac:(lia))).
    rewrite (bind_Ret _ _ _ _ _ (update_slot_inside v c s (set_data d) Hc Hs)).
    rewrite (bind_Ret _ _ _ _ _ (update_slot_inside v1 c _ (set_dirty 1) Hc Hs1)).
    reflexivity. }
  assert (Hread : cli_emu_vmm_read_r h va len v2 = Ret ((Val 0, Some value), v2)).
  { unfold cli_emu_vmm_read_r, vmm_read.
    rewrite (bind_Ret _ _ _ _ _ (cache_2page_last_used h v2 va Hlast)).
    change (lastused_page_idx v2) with c.
    rewrite (bind_Ret _ _ _ _ _ (load_slot_inside v2 c _ Hc Hs2)).
    cbn [c_flag_rwx set_dirty set_data data]. rewrite Hr.
    assert (Hd : length d = length (data s)).
    { unfold d, len. rewrite Z2Nat.inj_add, !Nat2Z.id by lia.
      apply copied_bytes_length. lia. }
    rewrite (bind_Ret _ _ _ _ _ (copy_out_inside d off len v2 Hoff ltac:(lia)
               ltac:(rewrite Hd; exact Hfit))).
    unfold d, len. rewrite Z2Nat.inj_add, !Nat2Z.id by lia.
    rewrite copied_bytes_read_back by lia. reflexivity. }
  unfold result. rewrite (bind_Ret _ _ _ _ _ Hwrite), (bind_Ret _ _ _ _ _ Hread).
  reflexivity.
Qed.

Lemma cache_2page_names_slot h v va c :
  names_slot v va c ->
  vmm_cache_2page h va v = Ret (Some c, with_lastused (va / 4096) c v).
Proof.
  intros [[Hp Hi] | (Hp & [H0 Hn] & Hpe & Hc)].
  - rewrite (cache_2page_last_used h v va Hp), Hi. f_equal. f_equal.
    destruct v. cbn in *. subst. reflexivity.
  - destruct (page_flags v !! Z.to_nat (va / 4096)) as [pe|] eqn:E; [|discriminate].
    injection Hpe as Hpe.
    apply Z.eqb_neq in Hp.
    assert (Hlt : (n_pages v <? va / 4096) = false) by (apply Z.ltb_ge; exact Hn).
    assert (Hidx : (cached_page_idx pe =? 0) = false) by (apply Z.eqb_neq; lia).
    unfold vmm_cache_2page. unfold bind at 1, gets at 1. rewrite Hp.
    unfold bind at 1, gets at 1. rewrite Hlt.
    rewrite (bind_Ret _ _ _ _ _ (load_page_inside v _ pe H0 E)). rewrite Hidx, Hpe.
    replace (c + 1 - 1) with c by lia. reflexivity.
Qed.

Lemma write_from_named_slot h v va value len c :
  names_slot v va c ->
  cli_emu_vmm_write h va value len v
  = cli_emu_vmm_write h va value len (with_lastused (va / 4096) c v).
Proof.
  intros H. unfold cli_emu_vmm_write.
  rewrite (bind_Ret _ _ _ _ _ (cache_2page_names_slot h v va c H)).
  rewrite (bind_Ret _ _ _ _ _ (cache_2page_last_used h (with_lastused (va / 4096) c v) va eq_refl)).
  reflexivity.
Qed.

(** X8.  When the address resolves without a fault to a slot whose snapshot has
    the read and the write bit, the bytes written are the bytes read back. *)
Theorem write_then_read_on_resident_page h v va value c s :
  names_slot v va c ->
  0 <= c ->
  cached v !! Z.to_nat c = Some s ->
  Z.land (c_flag_rwx s) (Z.shiftl 1 flag_r) <> 0 ->
  Z.land (c_flag_rwx s) (Z.shiftl 1 flag_w) <> 0 ->
  Z.land va 0xfff + Z.of_nat (length value) <= Z.of_nat (length (data s)) ->
  result (let* w := cli_emu_vmm_write h va value (Z.of_nat (length value)) in
          let* r := cli_emu_vmm_read_r h va (Z.of_nat (length value)) in
          ret (w, r)) v
  = Some (Val 0, (Val 0, Some value)).
Proof.
  intros Hn Hc Hs Hr Hw Hfit.
  rewrite <- (write_then_read_on_last_used_page h (with_lastused (va / 4096) c v) va value s
                eq_refl Hc Hs Hr Hw Hfit).
  unfold result, bind. rewrite (write_from_named_slot h v va value _ c Hn). reflexivity.
Qed.

Lemma write_then_read_on_resident_page_witness :
  result (let* w := cli_emu_vmm_write x86 0x2000 [1; 2; 3; 4] (Z.of_nat (length [1; 2; 3; 4])) in
          let* r := cli_emu_vmm_read_r x86 0x2000 (Z.of_nat (length [1; 2; 3; 4])) in
          ret (w, r)) vmm_rw_faulted
  = Some (Val 0, (Val 0, Some [1; 2; 3; 4])).
Proof.
  apply (write_then_read_on_resident_page x86 vmm_rw_faulted 0x2000 [1; 2; 3; 4] 1
           (mk_cached 3 0 (replicate 4096 1))).
  - right. vm_compute. repeat split; first [discriminate | reflexivity].
  - discriminate.
  - vm_compute. reflexivity.
  - vm_compute. discriminate.
  - vm_compute. discriminate.
  - vm_compute. discriminate.
Defined.

Lemma le_value_le_bytes n x :
  0 <= x -> le_value (le_bytes n x) = x mod 256 ^ Z.of_nat n.
Proof.
  revert x. induction n as [|n IH]; intros x Hx.
  - cbn. rewrite Z.mod_1_r. reflexivity.
  - cbn [le_bytes le_value]. rewrite IH by (apply Z.div_pos; lia).
    rewrite Nat2Z.inj_succ, Z.pow_succ_r by lia.
    rewrite Z.rem_mul_r by lia. reflexivity.
Qed.

Lemma le_bytes_length n x : length (le_bytes n x) = n.
Proof. revert x. induction n as [|n IH]; intros x; cbn; [|rewrite IH]; reflexivity. Qed.

(** X9.  On a little-endian host, [write32] then [read32] at an address that
    resolves without a fault to a readable and writable slot returns the
    value written (as a 32-bit value). *)
Theorem write32_then_read32_on_resident_page h v va x c s :
  big_endian h = false ->
  names_slot v va c ->
  0 <= c ->
  cached v !! Z.to_nat c = Some s ->
  Z.land (c_flag_rwx s) (Z.shiftl 1 flag_r) <> 0 ->
  Z.land (c_flag_rwx s) (Z.shiftl 1 flag_w) <> 0 ->
  Z.land va 0xfff + 4 <= Z.of_nat (length (data s)) ->
  result (let* w := cli_emu_vmm_write32 h va x in
          let* r := cli_emu_vmm_read32 h va in
          ret (w, r)) v
  = Some (Val 0, (Val 0, Some (x mod 2 ^ 32))).
Proof.
  intros Hle Hn Hc Hs Hr Hw Hfit.
  pose proof (write_then_read_on_last_used_page h (with_lastused (va / 4096) c v) va
                (le_bytes 4 (uint32 x)) s eq_refl Hc Hs Hr Hw) as H.
  rewrite le_bytes_length in H. specialize (H Hfit).
  unfold cli_emu_vmm_write32, host_bytes, cli_emu_vmm_read32, read_value. rewrite Hle.
  unfold cli_emu_vmm_read_r in H. change (Z.of_nat 4) with 4 in H.
  remember (le_bytes 4 (uint32 x)) as bs eqn:Ebs.
  unfold result in *. unfold bind in *.
  rewrite (write_from_named_slot h v va bs 4 c Hn).
  destruct (cli_emu_vmm_write h va bs 4 _) as [[w v1]|]; [|discriminate].
  destruct (vmm_read h va 4 (Z.shiftl 1 flag_r) v1) as [[r v2]|]; [|discriminate].
  injection H as -> ->. cbn [fst snd option_map ret]. subst bs.
  rewrite le_value_le_bytes by (apply Z.mod_pos_bound; reflexivity).
  unfold uint32. change (256 ^ Z.of_nat 4) with (2 ^ 32). rewrite Z.mod_mod by discriminate.
  reflexivity.
Qed.

Lemma write32_then_read32_on_resident_page_witness :
  result (let* w := cli_emu_vmm_write32 x86 0x2ffc 0xAABBCCDD in
          let* r := cli_emu_vmm_read32 x86 0x2ffc in
          ret (w, r)) vmm_rw_faulted
  = Some (Val 0, (Val 0, Some (0xAABBCCDD mod 2 ^ 32))).
Proof.
  apply (write32_then_read32_on_resident_page x86 vmm_rw_faulted 0x2ffc 0xAABBCCDD 1
           (mk_cached 3 0 (replicate 4096 1))).
  - reflexivity.
  - right. vm_compute. repeat split; first [discriminate | reflexivity].
  - discriminate.
  - vm_compute. reflexivity.
  - vm_compute. discriminate.
  - vm_compute. discriminate.
  - vm_compute. discriminate.
Defined.

(** ** The error codes of reads and writes *)

Lemma vmm_read_code h va len flags v r v' :
  vmm_read h va len flags v = Ret (r, v') ->
  r.1 = Val 0 \/ r = (Neg EMU_ERR_VMM_READ, None).
Proof.
  unfold vmm_read. intros H.
  apply bind_inv in H as ([c|] & v1 & _ & H).
  - apply bind_inv in H as (s & v2 & _ & H).
    destruct (Z.land (c_flag_rwx s) flags =? 0).
    + injection H as <- _. right. reflexivity.
    + apply bind_inv in H as (bs & v3 & _ & H). injection H as <- _. left. reflexivity.
  - injection H as <- _. right. reflexivity.
Qed.

Lemma read_value_code h va len v r v' :
  read_value h va len v = Ret (r, v') ->
  r.1 = Val 0 \/ r = (Neg EMU_ERR_VMM_READ, None).
Proof.
  unfold read_value. intros H.
  apply bind_inv in H as (r0 & v1 & H0 & H). injection H as <- _.
  apply vmm_read_code in H0 as [H0 | ->]; [left; exact H0 | right; reflexivity].
Qed.

Lemma vmm_write_code h va value len v r v' :
  cli_emu_vmm_write h va value len v = Ret (r, v') ->
  r = Val 0 \/ r = Neg EMU_ERR_VMM_WRITE.
Proof.
  unfold cli_emu_vmm_write. intros H.
  apply bind_inv in H as ([c|] & v1 & _ & H).
  - apply bind_inv in H as (s & v2 & _ & H).
    destruct (Z.land (c_flag_rwx s) (Z.shiftl 1 flag_w) =? 0).
    + injection H as <- _. right. reflexivity.
    + apply bind_inv in H as (d & v3 & _ & H).
      apply bind_inv in H as (? & v4 & _ & H).
      apply bind_inv in H as (? & v5 & _ & H).
      injection H as <- _. left. reflexivity.
  - injection H as <- _. right. reflexivity.
Qed.

(** C9 (as amended).  A failing read returns the one code -EMU_ERR_VMM_READ
    with no value, and a failing write the one code -EMU_ERR_VMM_WRITE,
    whatever made them fail.  [vmm_read] is behind [cli_emu_vmm_read_r] and
    [cli_emu_vmm_read_x], [read_value] behind the 8/16/32-bit reads, and
    [cli_emu_vmm_write] behind every write. *)
Theorem failures_share_one_code h v :
  (forall va len flags r v',
     vmm_read h va len flags v = Ret (r, v') ->
     r.1 = Val 0 \/ r = (Neg EMU_ERR_VMM_READ, None)) /\
  (forall va len r v',
     read_value h va len v = Ret (r, v') ->
     r.1 = Val 0 \/ r = (Neg EMU_ERR_VMM_READ, None)) /\
  (forall va value len r v',
     cli_emu_vmm_write h va value len v = Ret (r, v') ->
     r = Val 0 \/ r = Neg EMU_ERR_VMM_WRITE).
Proof.
  split; [|split]; intros.
  - eapply vmm_read_code; eauto.
  - eapply read_value_code; eauto.
  - eapply vmm_write_code; eauto.
Qed.

Lemma failures_share_one_code_witness :
  ((Neg EMU_ERR_VMM_READ, @None (list Z)).1 = Val 0
   \/ (Neg EMU_ERR_VMM_READ, @None (list Z)) = (Neg EMU_ERR_VMM_READ, None)) /\
  (Neg EMU_ERR_VMM_WRITE = Val 0 \/ Neg EMU_ERR_VMM_WRITE = Neg EMU_ERR_VMM_WRITE).
Proof.
  split.
  - apply (proj1 (failures_share_one_code x86 vmm_rx_unreadable)
             0x4000 1 (Z.shiftl 1 flag_r) _ vmm_rx_unreadable).
    vm_compute. reflexivity.
  - apply (proj2 (proj2 (failures_share_one_code x86 vmm_rx_unreadable))
             0x4000 [1] 1 _ vmm_rx_unreadable).
    vm_compute. reflexivity.
Defined.

(** C9 (as stated, it fails).  Three reads fail for the three causes: past
    the mapped extent (page 4 of 3), without the permission bit (execute, on a
    page that carries read only), and on a failing [pread].  The values
    returned are one and the same; likewise for three writes. *)
Lemma three_causes_one_code :
  n_pages vmm_rx = 3 /\
  result (cli_emu_vmm_prot_get 0x0 1) vmm_rx = Some (Val (Z.shiftl 1 flag_r)) /\
  infd vmm_rx_unreadable = None /\
  result (cli_emu_vmm_read8 x86 0x4000) vmm_rx = Some (Neg EMU_ERR_VMM_READ, None) /\
  result (cli_emu_vmm_read_x x86 0x0 1) vmm_rx = Some (Neg EMU_ERR_VMM_READ, None) /\
  result (cli_emu_vmm_read8 x86 0x1000) vmm_rx_unreadable = Some (Neg EMU_ERR_VMM_READ, None) /\
  result (cli_emu_vmm_write8 x86 0x4000 1) vmm_rx = Some (Neg EMU_ERR_VMM_WRITE) /\
  result (cli_emu_vmm_write8 x86 0x0 1) vmm_rx = Some (Neg EMU_ERR_VMM_WRITE) /\
  result (cli_emu_vmm_write8 x86 0x1000 1) vmm_rx_unreadable = Some (Neg EMU_ERR_VMM_WRITE).
Proof. vm_compute. repeat split; reflexivity. Qed.

(** ** Construction: the page count *)

(** C10 (as amended).  When construction accepts a section list, the page
    count is computed from [sections[nsections-1]] alone, in 32-bit
    arithmetic: ((rva + vsz + 4095) mod 2^32) / 4096.  That is
    ceil((rva + vsz) / 4096) whenever the sum does not wrap. *)
Theorem page_count_from_last_section h pe sections fd v :
  cli_emu_vmm_new h pe sections fd = Ret (Some v) ->
  exists last,
    sections !! Z.to_nat (nsections pe - 1) = Some last /\
    n_pages v = uint32 (rva last + vsz last + 4095) / 4096 /\
    (0 <= rva last -> 0 <= vsz last -> rva last + vsz last + 4095 < 2 ^ 32 ->
     n_pages v = ceil_pages (rva last + vsz last)).
Proof.
  unfold cli_emu_vmm_new.
  destruct (le16_to_host h (Magic pe) =? 523); [discriminate|].
  destruct (nsections pe =? 0); [discriminate|].
  destruct (negb (calloc_ok h 1)); [discriminate|].
  destruct (sections !! Z.to_nat (nsections pe - 1)) as [last|]; [|discriminate].
  destruct (negb (calloc_ok h _)); [discriminate|].
  destruct (map_pages pe sections _) as [[rc v']|] eqn:Hmap; [|discriminate].
  destruct (rc =? -1); [discriminate|]. intros [= <-].
  apply keeps_n_pages_map_pages in Hmap. cbn [n_pages fresh_vmm] in Hmap.
  exists last. split; [reflexivity|]. split; [exact Hmap|].
  intros Hr Hv Hlt. rewrite Hmap, uint32_small by lia. reflexivity.
Qed.

Lemma page_count_from_last_section_witness :
  exists last,
    [sec_rx] !! Z.to_nat (nsections (pe32 1) - 1) = Some last /\
    n_pages vmm_rx_unreadable = uint32 (rva last + vsz last + 4095) / 4096 /\
    (0 <= rva last -> 0 <= vsz last -> rva last + vsz last + 4095 < 2 ^ 32 ->
     n_pages vmm_rx_unreadable = ceil_pages (rva last + vsz last)).
Proof.
  apply (page_count_from_last_section x86 (pe32 1) [sec_rx] None vmm_rx_unreadable).
  vm_compute. reflexivity.
Defined.

(** C10 (as stated, it fails).  A single section {rva 0x2000, size
    0xFFFFFFFF} is accepted, with 2 pages; ceil((rva + size) / 4096) is
    0x100002. *)
Lemma page_count_wraps :
  cli_emu_vmm_new x86 (pe32 1) [sec_wrap] None = Ret (Some vmm_wrap) /\
  n_pages vmm_wrap = 2 /\
  ceil_pages (rva sec_wrap + vsz sec_wrap) = 0x100002.
Proof. vm_compute. repeat split; reflexivity. Qed.

(** X10.  No read, write or protection call changes the page count. *)
Theorem public_calls_keep_page_count h va len flags value rwx :
  keeps n_pages (vmm_read h va len flags) /\
  keeps n_pages (read_value h va len) /\
  keeps n_pages (cli_emu_vmm_write h va value len) /\
  keeps n_pages (cli_emu_vmm_prot_set va len rwx) /\
  keeps n_pages (cli_emu_vmm_prot_get va len).
Proof.
  unfold vmm_read, read_value, vmm_read, cli_emu_vmm_write, cli_emu_vmm_prot_set,
    cli_emu_vmm_prot_get.
  repeat split; auto 40 with keeps.
Qed.

(** ** Sections that do not follow one another *)

(** X11.  Two sections of which the second does not start where the first one's
    virtual extent ends are never accepted. *)
Theorem gap_between_sections_is_rejected h pe s0 s1 rest fd :
  2 <= nsections pe ->
  uint32 (urva s1 - urva s0) <> vsz s0 ->
  cli_emu_vmm_new h pe (s0 :: s1 :: rest) fd = Ret None \/
  cli_emu_vmm_new h pe (s0 :: s1 :: rest) fd = UB.
Proof.
  intros Hn Hgap. apply Z.eqb_neq in Hgap.
  unfold cli_emu_vmm_new.
  destruct (le16_to_host h (Magic pe) =? 523); [left; reflexivity|].
  destruct (nsections pe =? 0); [left; reflexivity|].
  destruct (negb (calloc_ok h 1)); [left; reflexivity|].
  destruct (_ !! Z.to_nat (nsections pe - 1)) as [last|]; [|right; reflexivity].
  destruct (negb (calloc_ok h _)); [left; reflexivity|].
  set (v := fresh_vmm _ _ _).
  enough (H : forall v, match map_pages pe (s0 :: s1 :: rest) v with
                        | Ret (rc, _) => rc = -1
                        | UB => True
                        end).
  { specialize (H v). destruct (map_pages _ _ v) as [[rc v']|]; [|right; reflexivity].
    rewrite H. left. reflexivity. }
  clear v. intros v. unfold map_pages.
  destruct (negb _); [reflexivity|].
  unfold bind at 1. cbn [load_section lookup list_lookup].
  change (load_section (s0 :: s1 :: rest) 0 v) with (Ret (s0, v)).
  unfold bind at 1, gets at 1.
  unfold bind at 1. destruct (map_header _ 0 (rva s0) v) as [[? v1]|]; [|exact I].
  destruct (Z.to_nat (nsections pe)) as [|[|k]] eqn:Ek; [lia | lia |].
  cbn [map_sections]. change (load_section (s0 :: s1 :: rest) 0) with (@ret cli_exe_section s0).
  unfold bind at 1, ret at 1. change (0 =? 0) with true. cbv iota.
  unfold bind at 1, ret at 1. cbv iota.
  unfold bind at 1.
  destruct (map_section_pages _ 0 s0 v1) as [[[|] v2]|]; [|reflexivity|exact I].
  change (load_section (s0 :: s1 :: rest) (0 + 1)) with (@ret cli_exe_section s1).
  unfold bind at 1, ret at 1. change (0 + 1 =? 0) with false. cbv iota.
  change (load_section (s0 :: s1 :: rest) (0 + 1 - 1)) with (@ret cli_exe_section s0).
  unfold bind at 1. unfold bind at 1, ret at 1. unfold ret at 1. rewrite Hgap. reflexivity.
Qed.

Lemma gap_between_sections_is_rejected_witness :
  cli_emu_vmm_new x86 (pe32 2) [sec_first; sec_after_gap] None = Ret None \/
  cli_emu_vmm_new x86 (pe32 2) [sec_first; sec_after_gap] None = UB.
Proof.
  apply (gap_between_sections_is_rejected x86 (pe32 2) sec_first sec_after_gap [] None);
    discriminate.
Defined.

(** ** The entries of header pages *)

Lemma map_header_below rva0 i k : forall j v u v',
  map_header k j rva0 v = Ret (u, v') ->
  0 <= i < j -> j + Z.of_nat k < 2 ^ 32 ->
  page_flags v' !! Z.to_nat i = page_flags v !! Z.to_nat i.
Proof.
  induction k as [|k IH]; intros j v u v' H Hij Hk; cbn [map_header] in H;
    destruct (uint32 (j * 4096) <? rva0); try (injection H as _ <-; reflexivity).
  - apply bind_inv in H as (? & v1 & _ & H). apply bind_inv in H as (? & v2 & _ & H).
    discriminate.
  - apply bind_inv in H as (? & v1 & H1 & H). apply bind_inv in H as (? & v2 & H2 & H).
    rewrite (IH _ _ _ _ H); [| rewrite uint32_small; lia | rewrite uint32_small; lia].
    rewrite (update_page_other _ _ _ _ _ i H2), (update_page_other _ _ _ _ _ i H1) by lia.
    reflexivity.
Qed.

Lemma map_header_at rva0 i k : forall j v u v',
  map_header k j rva0 v = Ret (u, v') ->
  0 <= j <= i -> j + Z.of_nat k < 2 ^ 32 ->
  i * 4096 < rva0 -> rva0 <= 2 ^ 32 ->
  exists pe, page_flags v !! Z.to_nat i = Some pe /\
             page_flags v' !! Z.to_nat i = Some (header_fields i pe).
Proof.
  induction k as [|k IH]; intros j v u v' H Hji Hk Hi Hr; cbn [map_header] in H.
  - replace (uint32 (j * 4096) <? rva0) with true in H
      by (symmetry; apply Z.ltb_lt; rewrite uint32_small; lia).
    apply bind_inv in H as (? & v1 & _ & H). apply bind_inv in H as (? & v2 & _ & H).
    discriminate.
  - replace (uint32 (j * 4096) <? rva0) with true in H
      by (symmetry; apply Z.ltb_lt; rewrite uint32_small; lia).
    apply bind_inv in H as (? & v1 & H1 & H). apply bind_inv in H as (? & v2 & H2 & H).
    destruct (Z.eq_dec j i) as [->|Hne].
    + apply update_page_at in H1 as (pe & Hpe & Hpe1).
      apply update_page_at in H2 as (pe1 & Hpe1' & Hpe2).
      rewrite Hpe1 in Hpe1'. injection Hpe1' as <-.
      exists pe. split; [exact Hpe|].
      rewrite (map_header_below _ i _ _ _ _ _ H); [exact Hpe2 | |]; rewrite uint32_small; lia.
    + destruct (IH _ _ _ _ H) as (pe & Hpe & Hpe'); try rewrite uint32_small; try lia.
      exists pe. split; [|exact Hpe'].
      pose proof (update_page_nonneg _ _ _ _ _ H1).
      rewrite <- (update_page_other _ _ _ _ _ i H1), <- (update_page_other _ _ _ _ _ i H2);
        [exact Hpe | lia..].
Qed.

Lemma map_section_pages_below s i k : forall j v b v',
  map_section_pages k j s v = Ret (b, v') ->
  0 <= i < rva s / 4096 -> 0 <= j -> rva s / 4096 + j + Z.of_nat k <= 2 ^ 32 ->
  page_flags v' !! Z.to_nat i = page_flags v !! Z.to_nat i.
Proof.
  induction k as [|k IH]; intros j v b v' H Hi Hj Hk; cbn [map_section_pages] in H.
  - injection H as _ <-. reflexivity.
  - apply bind_inv in H as (n & v0 & H0 & H). injection H0 as _ <-.
    destruct (n <=? uint32 (rva s / 4096 + j)); [injection H as _ <-; reflexivity|].
    rewrite (uint32_small (rva s / 4096 + j)) in H by lia.
    apply bind_inv in H as (? & v1 & H1 & H).
    apply bind_inv in H as (? & v2 & H2 & H).
    apply bind_inv in H as (? & v3 & H3 & H).
    rewrite (IH _ _ _ _ H); [| lia | rewrite uint32_small; lia | rewrite uint32_small; lia].
    rewrite (update_page_other _ _ _ _ _ i H3) by lia.
    assert (E2 : page_flags v2 !! Z.to_nat i = page_flags v1 !! Z.to_nat i).
    { destruct (_ =? 0); [|injection H2 as _ <-; reflexivity].
      apply (update_page_other _ _ _ _ _ i H2); lia. }
    rewrite E2. apply (update_page_other _ _ _ _ _ i H1); lia.
Qed.

Lemma map_sections_below sections i k : forall idx v rc v',
  map_sections k idx sections v = Ret (rc, v') ->
  (forall s, s ∈ sections -> 0 <= i < rva s / 4096 /\ rva s < 2 ^ 32) ->
  page_flags v' !! Z.to_nat i = page_flags v !! Z.to_nat i.
Proof.
  induction k as [|k IH]; intros idx v rc v' H Hs; cbn [map_sections] in H.
  - injection H as _ <-. reflexivity.
  - apply bind_inv in H as (s & v0 & H0 & H).
    assert (s ∈ sections /\ v0 = v) as [Hin ->].
    { unfold load_section in H0. destruct (sections !! Z.to_nat idx) eqn:E; [|discriminate].
      destruct (0 <=? idx); [|discriminate]. injection H0 as -> ->.
      split; [eapply list_elem_of_lookup_2; eauto | reflexivity]. }
    apply bind_inv in H as (broken & v1 & H1 & H).
    assert (v1 = v) as ->.
    { destruct (idx =? 0); [injection H1 as _ <-; reflexivity|].
      apply bind_inv in H1 as (prev & v2 & H2 & H1). injection H1 as _ <-.
      unfold load_section in H2. destruct (sections !! _); [|discriminate].
      destruct (0 <=? idx - 1); [|discriminate]. injection H2 as _ <-. reflexivity. }
    destruct broken; [injection H as _ <-; reflexivity|].
    apply bind_inv in H as (ok & v2 & H2 & H).
    destruct (Hs s Hin) as [Hi Hr].
    pose proof (uint32_div_bound (vsz s + 4095)) as Hp.
    assert (0 <= uint32 (vsz s + 4095) / 4096).
    { apply Z.div_pos; [|lia]. apply Z.mod_pos_bound. reflexivity. }
    assert (rva s / 4096 < 2 ^ 20) by (apply Z.div_lt_upper_bound; lia).
    apply (map_section_pages_below s i) in H2; [| lia | lia | lia].
    destruct ok; [|injection H as _ <-; exact H2].
    rewrite (IH _ _ _ _ H Hs). exact H2.
Qed.

(** X12.  In every image that construction accepts, a page that lies wholly
    before all sections is mapped 1:1 to the file (offset [i * 8] granules)
    with the read bit only, and its [init] bit is 0: page-in will zero-fill
    it rather than read the file. *)
Theorem header_pages_stay_uninitialized h pe sections fd v i :
  cli_emu_vmm_new h pe sections fd = Ret (Some v) ->
  (forall s, s ∈ sections -> 0 <= i < rva s / 4096 /\ rva s < 2 ^ 32) ->
  page_flags v !! Z.to_nat i = Some (mk_page (i * 8) (Z.shiftl 1 flag_r) 0 0 0).
Proof.
  unfold cli_emu_vmm_new. intros H Hs.
  destruct (le16_to_host h (Magic pe) =? 523); [discriminate|].
  destruct (nsections pe =? 0); [discriminate|].
  destruct (negb (calloc_ok h 1)); [discriminate|].
  destruct (sections !! Z.to_nat (nsections pe - 1)) as [last|]; [|discriminate].
  set (n := uint32 (rva last + vsz last + 4095) / 4096) in *.
  destruct (negb (calloc_ok h n)); [discriminate|].
  destruct (map_pages pe sections _) as [[rc v']|] eqn:Hmap; [|discriminate].
  destruct (rc =? -1) eqn:Hrc; [discriminate|]. injection H as <-.
  unfold map_pages in Hmap.
  destruct (negb _); [injection Hmap as <- _; discriminate Hrc|].
  apply bind_inv in Hmap as (s0 & v0 & H0 & Hmap).
  assert (s0 ∈ sections /\ v0 = fresh_vmm pe n fd) as [Hin ->].
  { unfold load_section in H0. destruct (sections !! Z.to_nat 0) eqn:E; [|discriminate].
    injection H0 as -> ->. split; [eapply list_elem_of_lookup_2; eauto | reflexivity]. }
  apply bind_inv in Hmap as (pf & v1 & H1 & Hmap). injection H1 as <- <-.
  apply bind_inv in Hmap as (? & v2 & H2 & Hmap).
  destruct (Hs s0 Hin) as [Hi Hr].
  pose proof (uint32_div_bound (rva last + vsz last + 4095)) as Hn. fold n in Hn.
  assert (0 <= n).
  { apply Z.div_pos; [|lia]. apply Z.mod_pos_bound. reflexivity. }
  assert (Hi4 : i * 4096 < rva s0).
  { pose proof (Z.mul_div_le (rva s0) 4096 eq_refl). lia. }
  apply (map_header_at (rva s0) i) in H2 as (pe0 & Hpe0 & Hpe2);
    [| lia | cbn [fresh_vmm page_flags]; rewrite length_replicate; lia | lia | lia].
  rewrite (map_sections_below _ i _ _ _ _ _ Hmap Hs), Hpe2.
  cbn [fresh_vmm page_flags] in Hpe0. apply lookup_replicate in Hpe0 as [-> _].
  unfold header_fields, set_flag_rwx, set_file_offset, fresh_page, MINALIGN. cbn.
  f_equal. f_equal. rewrite uint32_small by lia.
  replace (i * 4096) with (i * 8 * 512) by lia. rewrite Z.div_mul by discriminate.
  apply Z.mod_small.
  assert (rva s0 / 4096 < 2 ^ 20) by (apply Z.div_lt_upper_bound; lia). lia.
Qed.

Lemma header_pages_stay_uninitialized_witness :
  page_flags vmm_high_unreadable !! Z.to_nat 7
  = Some (mk_page (7 * 8) (Z.shiftl 1 flag_r) 0 0 0).
Proof.
  apply (header_pages_stay_uninitialized x86 (pe32 1) [sec_high] None vmm_high_unreadable 7).
  - vm_compute. reflexivity.
  - intros s Hs. apply list_elem_of_singleton in Hs as ->. vm_compute.
    repeat split; first [discriminate | reflexivity].
Defined.

(** ** Reading what [pread] brought in *)

Lemma pread_length f off buf :
  length buf = 4096%nat -> length (pread f off buf) = 4096%nat.
Proof.
  intros Hb. unfold pread. rewrite length_app, length_drop, Hb, length_take. lia.
Qed.

Lemma pread_lookup f off buf i x :
  (i < 4096)%nat -> f !! (Z.to_nat off + i)%nat = Some x -> pread f off buf !! i = Some x.
Proof.
  intros Hi Hf. unfold pread.
  assert (Hc : take 4096 (drop (Z.to_nat off) f) !! i = Some x).
  { rewrite lookup_take_lt by lia. rewrite lookup_drop. exact Hf. }
  rewrite lookup_app_l; [exact Hc|]. eapply lookup_lt_Some; eauto.
Qed.

Lemma take_4_lookup (l : list Z) a b c d :
  l !! 0%nat = Some a -> l !! 1%nat = Some b -> l !! 2%nat = Some c -> l !! 3%nat = Some d ->
  take 4 l = [a; b; c; d].
Proof.
  destruct l as [|x0 [|x1 [|x2 [|x3 l]]]]; intros; simplify_eq/=; reflexivity.
Qed.

Lemma scenario_constructed h pe s f :
  calloc_ok h 1 = true -> calloc_ok h 3 = true ->
  Machine pe = 0x14c \/ Machine pe = 0x14d \/ Machine pe = 0x14e ->
  le16_to_host h (Magic pe) <> 0x020b ->
  nsections pe = 1 -> ImageBase pe = 0x400000 ->
  rva s = 0x1000 -> vsz s = 0x2000 -> raw s = 0x400 -> chr s = R_X ->
  cli_emu_vmm_new h pe [s] (Some f) = Ret (Some (scenario_vmm f)).
Proof.
  intros H1 H3 Hm Hmagic Hn Hbase Hrva Hvsz Hraw Hchr.
  destruct pe as [m mg base sa fa n], s as [r sz rw c u]. simpl in *. subst.
  unfold cli_emu_vmm_new. cbn [Magic nsections].
  apply Z.eqb_neq in Hmagic. rewrite Hmagic.
  change (1 =? 0) with false. cbv iota. rewrite H1. cbv [negb].
  match goal with |- context [[?s] !! _] => change ([s] !! Z.to_nat (1 - 1)) with (Some s) end.
  cbv iota beta. cbn [rva vsz].
  change (uint32 (4096 + 8192 + 4095) / 4096) with 3. rewrite H3. cbv [negb].
  destruct Hm as [-> | [-> | ->]]; reflexivity.
Qed.

Lemma scenario_fault h f :
  vmm_cache_2page h 0x1000 (scenario_vmm f) = Ret (Some 1, scenario_vmm_faulted f).
Proof. reflexivity. Qed.

Lemma scenario_read32 h f :
  f !! 0x400%nat = Some 0 -> f !! 0x401%nat = Some 1 ->
  f !! 0x402%nat = Some 2 -> f !! 0x403%nat = Some 3 ->
  cli_emu_vmm_read32 h 0x1000 (scenario_vmm f) = Ret ((Val 0, Some 0x03020100), scenario_vmm_faulted f).
Proof.
  intros H0 H1 H2 H3.
  unfold cli_emu_vmm_read32, read_value, vmm_read.
  rewrite (bind_Ret _ _ _ (Val 0, Some [0; 1; 2; 3]) (scenario_vmm_faulted f)); [reflexivity|].
  rewrite (bind_Ret _ _ _ _ _ (scenario_fault h f)).
  rewrite (bind_Ret (load_slot 1) _ (scenario_vmm_faulted f) (mk_cached 5 0 (pread f 1024 zero_data)) (scenario_vmm_faulted f) eq_refl).
  cbn [c_flag_rwx data]. change (Z.land 5 (Z.shiftl 1 flag_r) =? 0) with false. cbv iota.
  change (Z.land 4096 4095) with 0.
  rewrite (bind_Ret (copy_out _ 0 4) _ _ _ _ (copy_out_inside (pread f 1024 zero_data) 0 4 (scenario_vmm_faulted f) (Z.le_refl 0) ltac:(discriminate)
             ltac:(rewrite pread_length by reflexivity; discriminate))).
  change (Z.to_nat 0) with 0%nat. change (Z.to_nat 4) with 4%nat.
  rewrite drop_0.
  rewrite (take_4_lookup _ 0 1 2 3) by (apply pread_lookup; [lia| assumption]).
  reflexivity.
Qed.

Lemma scenario_write8 h f x :
  cli_emu_vmm_write8 h 0x1000 x (scenario_vmm f) = Ret (Neg EMU_ERR_VMM_WRITE, scenario_vmm_faulted f).
Proof. reflexivity. Qed.

Lemma scenario_write8_after_read h f x :
  result (cli_emu_vmm_write8 h 0x1000 x) (scenario_vmm_faulted f) = Some (Neg EMU_ERR_VMM_WRITE).
Proof. reflexivity. Qed.

(** C7 (as amended).  For an image with base 0x400000 and the one section
    {rva 0x1000, size 0x2000, raw 0x400, read|execute}, over any file whose
    bytes 0x400..0x403 are 0, 1, 2, 3, on any host where the two allocations
    succeed: construction yields an address space in which addresses are
    relative to the image base; [read32] at 0x1000 returns 0x03020100, the
    little-endian value of those four bytes, and [write8] at 0x1000 fails
    with the write error, before and after that read. *)
Theorem scenario_with_relative_addresses h pe s f x :
  calloc_ok h 1 = true -> calloc_ok h 3 = true ->
  Machine pe = 0x14c \/ Machine pe = 0x14d \/ Machine pe = 0x14e ->
  le16_to_host h (Magic pe) <> 0x020b ->
  nsections pe = 1 -> ImageBase pe = 0x400000 ->
  rva s = 0x1000 -> vsz s = 0x2000 -> raw s = 0x400 -> chr s = R_X ->
  f !! 0x400%nat = Some 0 -> f !! 0x401%nat = Some 1 ->
  f !! 0x402%nat = Some 2 -> f !! 0x403%nat = Some 3 ->
  exists v,
    cli_emu_vmm_new h pe [s] (Some f) = Ret (Some v) /\
    imagebase v = 0x400000 /\
    result (cli_emu_vmm_read32 h 0x1000) v = Some (Val 0, Some 0x03020100) /\
    result (cli_emu_vmm_write8 h 0x1000 x) v = Some (Neg EMU_ERR_VMM_WRITE) /\
    (after (cli_emu_vmm_read32 h 0x1000) v ≫= result (cli_emu_vmm_write8 h 0x1000 x))
      = Some (Neg EMU_ERR_VMM_WRITE).
Proof.
  intros H1 H3 Hm Hmagic Hn Hbase Hrva Hvsz Hraw Hchr F0 F1 F2 F3.
  exists (scenario_vmm f). split; [apply scenario_constructed; assumption|].
  split; [reflexivity|].
  unfold result, after. rewrite (scenario_read32 h f F0 F1 F2 F3), scenario_write8.
  split; [reflexivity|]. split; [reflexivity|]. exact (scenario_write8_after_read h f x).
Qed.

Lemma scenario_with_relative_addresses_witness :
  exists v,
    cli_emu_vmm_new x86 (pe32 1) [sec_rx] (Some counting_file) = Ret (Some v) /\
    imagebase v = 0x400000 /\
    result (cli_emu_vmm_read32 x86 0x1000) v = Some (Val 0, Some 0x03020100) /\
    result (cli_emu_vmm_write8 x86 0x1000 0x90) v = Some (Neg EMU_ERR_VMM_WRITE) /\
    (after (cli_emu_vmm_read32 x86 0x1000) v ≫= result (cli_emu_vmm_write8 x86 0x1000 0x90))
      = Some (Neg EMU_ERR_VMM_WRITE).
Proof.
  apply (scenario_with_relative_addresses x86 (pe32 1) sec_rx counting_file 0x90);
    vm_compute; first [reflexivity | discriminate | (left; reflexivity)].
Defined.

(** C7 (as stated, it fails).  In the address space of the scenario the
    image base is recorded but never subtracted: [read32] at 0x401000 is a
    read of page 0x401 of 3 and fails, and [write8] there fails for the same
    reason, not for a missing write bit. *)
Lemma scenario_absolute_address_fails :
  cli_emu_vmm_new x86 (pe32 1) [sec_rx] (Some counting_file) = Ret (Some vmm_rx) /\
  imagebase vmm_rx = 0x400000 /\
  n_pages vmm_rx = 3 /\
  take 4 (drop 0x400 counting_file) = [0; 1; 2; 3] /\
  result (cli_emu_vmm_read32 x86 0x401000) vmm_rx = Some (Neg EMU_ERR_VMM_READ, None) /\
  cli_emu_vmm_write8 x86 0x401000 0x90 vmm_rx = Ret (Neg EMU_ERR_VMM_WRITE, vmm_rx).
Proof. vm_compute. repeat split; reflexivity. Qed.

(** ** The claims settled by running the code *)

(** C1 (the code departs from it).  On a fresh address space whose page 1
    carries the read and the write bit, [write32] at 0x1000 succeeds and the
    [read32] of the same address that follows fails: the write went to the
    slot just filled (slot 1), and the page table sends the read to slot 2. *)
Theorem write_then_read_fails_after_fault :
  n_pages vmm_rw = 3 /\
  result (cli_emu_vmm_prot_get 0x1000 4) vmm_rw
    = Some (Val (Z.lor (Z.shiftl 1 flag_r) (Z.shiftl 1 flag_w))) /\
  result (write32_then_read32 0x1000 0xAABBCCDD) vmm_rw
    = Some (Val 0, (Neg EMU_ERR_VMM_READ, None)) /\
  (slot_data 1 <$> after (write32_then_read32 0x1000 0xAABBCCDD) vmm_rw)
    = Some (Some (host_bytes x86 4 0xAABBCCDD ++ replicate 4092 1)) /\
  (lastused_page_idx <$> after (write32_then_read32 0x1000 0xAABBCCDD) vmm_rw)
    = Some 2.
Proof. vm_compute. repeat split; reflexivity. Qed.

(** C2 (the code departs from it).  Page 17 is written in slot 0; after
    fifteen more pages the sixteenth page-in (page 16) reuses slot 0 and
    writes its buffer to the temporary file at granule 0, moving the cursor
    to 8.  But it is page 16, the page coming in, that is marked modified and
    given the offset; page 17 is not, and reading it again returns a byte of
    page 15 (whose slot its entry names), neither the 0xAA written nor the
    file's 17. *)
Theorem evicted_written_page_is_lost :
  n_pages vmm_18 = 18 /\
  result evict_written_page vmm_18
    = Some (Val 0,
            [(Val 0, Some 1); (Val 0, Some 3); (Val 0, Some 5); (Val 0, Some 7);
             (Val 0, Some 9); (Val 0, Some 11); (Val 0, Some 13)],
            (Val 0, Some 15), (Val 0, Some 15)) /\
  (tmpfd <$> after evict_written_page vmm_18)
    = Some (Some (0xAA :: replicate 4095 17)) /\
  (tmpfd_written <$> after evict_written_page vmm_18) = Some 8 /\
  (after evict_written_page vmm_18 ≫= fun v => page_flags v !! 16%nat)
    = Some (mk_page 0 3 1 1 2) /\
  (after evict_written_page vmm_18 ≫= fun v => page_flags v !! 17%nat)
    = Some (mk_page 136 3 0 1 2).
Proof. vm_compute. repeat split; reflexivity. Qed.

(** C3 (the code departs from it).  The image has 3 pages; address 0x3000
    is the first one past the mapped extent.  The protection calls refuse
    it, but a read or a write passes the test [page > n_pages] and goes on to
    index [page_flags[3]], one entry past the array. *)
Theorem first_address_past_extent_is_not_refused :
  n_pages vmm_rx = 3 /\
  length (page_flags vmm_rx) = 3%nat /\
  cli_emu_vmm_read8 x86 0x3000 vmm_rx = UB /\
  cli_emu_vmm_read_x x86 0x3000 1 vmm_rx = UB /\
  cli_emu_vmm_write8 x86 0x3000 1 vmm_rx = UB /\
  result (cli_emu_vmm_prot_get 0x3000 1) vmm_rx = Some (Neg EMU_ERR_GENERIC) /\
  result (cli_emu_vmm_prot_set 0x3000 1 7) vmm_rx = Some (Neg EMU_ERR_GENERIC).
Proof. vm_compute. repeat split; reflexivity. Qed.

(** C4 (the code departs from it).  With every slot filled, the read of page
    0x10 faults and fails on [pread]: the call returns the read error, but the
    page table already names a slot for the page (entry 4, slot 3).  The
    retried read does not fault ([cached_idx] stays 3): it succeeds, and
    returns the byte 0x5A left in slot 3 by an earlier write to another
    page. *)
Theorem failed_page_in_stays_resident :
  n_pages vmm_high_unreadable = 18 /\
  infd vmm_high_unreadable = None /\
  result fill_then_fail vmm_high_unreadable
    = Some (Val 0, [(Val 0, Some 0); (Val 0, Some 0); (Val 0, Some 0);
                    (Val 0, Some 0); (Val 0, Some 0); (Val 0, Some 0)]) /\
  (after fill_then_fail vmm_high_unreadable ≫= result (read_twice 0x10000))
    = Some ((Neg EMU_ERR_VMM_READ, None), 3, Some (mk_page 2 1 0 1 4),
            (Val 0, Some 0x5A), 3).
Proof. vm_compute. repeat split; reflexivity. Qed.

(** C5 (the code departs from it).  The read of page 1 loads page 2 into
    slot 0 and page 1 into slot 1, and marks page 1 resident.  The read of
    page 0 that follows faults, and loads the adjacent page 1 once more, into
    slot 2, without looking at its entry: slots 1 and 2 both hold page 1. *)
Theorem adjacent_page_loaded_twice :
  n_pages vmm_rx_paged = 3 /\
  (after (cli_emu_vmm_read8 x86 0x1000) vmm_rx_paged ≫= fun v => page_flags v !! 1%nat)
    = Some (mk_page 8 5 0 1 3) /\
  (after (cli_emu_vmm_read8 x86 0x1000) vmm_rx_paged ≫= slot_data 1)
    = Some (replicate 4096 1) /\
  (after (cli_emu_vmm_read8 x86 0x1000) vmm_rx_paged ≫= result (vmm_pagein x86 1))
    = Some (Some 2) /\
  (after (read8_each x86 [0x1000; 0x0]) vmm_rx_paged ≫= slot_data 1)
    = Some (replicate 4096 1) /\
  (after (read8_each x86 [0x1000; 0x0]) vmm_rx_paged ≫= slot_data 2)
    = Some (replicate 4096 1).
Proof. vm_compute. repeat split; reflexivity. Qed.

(** C6 (the code departs from it).  Page 2 carries the read bit only.  After
    a write has faulted page 1 in, the entry of page 2 names the slot that
    holds page 1 with its read|write snapshot, so the write to page 2
    succeeds, and the byte read at that address changes from 1 to 0x77. *)
Theorem write_to_read_only_page_succeeds :
  n_pages vmm_rw_ro = 3 /\
  result write_read_only_page vmm_rw_ro
    = Some (Val 0, Val (Z.shiftl 1 flag_r), (Val 0, Some 1), Val 0, (Val 0, Some 0x77)).
Proof. vm_compute. split; reflexivity. Qed.

(** C8 (the code departs from it).  Page 0 lies before the first section:
    it is mapped with the read bit only and file offset 0, but its [init]
    bit stays 0, so it is zero-filled when faulted in.  The file starts with
    the byte 0x4d; the read of address 0 returns 0. *)
Theorem header_page_reads_as_zero :
  page_flags vmm_rx !! 0%nat = Some (mk_page 0 (Z.shiftl 1 flag_r) 0 0 0) /\
  infd vmm_rx ≫= (fun f => f !! 0%nat) = Some 0x4d /\
  result (cli_emu_vmm_read8 x86 0x0) vmm_rx = Some (Val 0, Some 0).
Proof. vm_compute. repeat split; reflexivity. Qed.

(** * Further properties *)

(** ** Rules for triples *)

Lemma triple_ret {A} (P : emu_vmm -> Prop) (a : A) (Q : A -> emu_vmm -> Prop) :
  (forall v, P v -> Q a v) -> triple P (ret a) Q.
Proof. intros H v a' v' HP [= <- <-]. apply H, HP. Qed.

Lemma triple_undefined {A} (P : emu_vmm -> Prop) (Q : A -> emu_vmm -> Prop) :
  triple P undefined Q.
Proof. intros v a v' _ [=]. Qed.

Lemma triple_gets {A} (P : emu_vmm -> Prop) (g : emu_vmm -> A) (Q : A -> emu_vmm -> Prop) :
  (forall v, P v -> Q (g v) v) -> triple P (gets g) Q.
Proof. intros H v a v' HP [= <- <-]. apply H, HP. Qed.

Lemma triple_modify (P : emu_vmm -> Prop) (g : emu_vmm -> emu_vmm) (Q : unit -> emu_vmm -> Prop) :
  (forall v, P v -> Q tt (g v)) -> triple P (modify g) Q.
Proof. intros H v a v' HP [= <- <-]. apply H, HP. Qed.

Lemma triple_bind {A B} (P : emu_vmm -> Prop) (m : M A) (Q : A -> emu_vmm -> Prop)
    (k : A -> M B) (R : B -> emu_vmm -> Prop) :
  triple P m Q -> (forall a, triple (Q a) (k a) R) -> triple P (bind m k) R.
Proof.
  intros Hm Hk v b v'' HP H. apply bind_inv in H as (a & v' & H1 & H2).
  eapply Hk; [|exact H2]. eapply Hm; eauto.
Qed.

Lemma triple_weaken {A} (P P' : emu_vmm -> Prop) (m : M A) (Q Q' : A -> emu_vmm -> Prop) :
  triple P' m Q' -> (forall v, P v -> P' v) -> (forall a v, Q' a v -> Q a v) ->
  triple P m Q.
Proof. intros H HP HQ v a v' Hv Hr. apply HQ. eapply H; eauto. Qed.

Lemma triple_if {A} (P : emu_vmm -> Prop) (b : bool) (m1 m2 : M A) (Q : A -> emu_vmm -> Prop) :
  (b = true -> triple P m1 Q) -> (b = false -> triple P m2 Q) ->
  triple P (if b then m1 else m2) Q.
Proof. destruct b; auto. Qed.

Lemma triple_load_page (P : emu_vmm -> Prop) p :
  triple P (load_page p)
         (fun pe v => P v /\ 0 <= p /\ page_flags v !! Z.to_nat p = Some pe).
Proof.
  intros v pe v' HP. unfold load_page.
  destruct (page_flags v !! Z.to_nat p) as [pe'|] eqn:E; [|discriminate].
  destruct (Z.leb_spec 0 p); [|discriminate]. intros [= <- <-]. auto.
Qed.

Lemma triple_load_slot (P : emu_vmm -> Prop) c :
  triple P (load_slot c)
         (fun s v => P v /\ 0 <= c /\ cached v !! Z.to_nat c = Some s).
Proof.
  intros v s v' HP. unfold load_slot.
  destruct (cached v !! Z.to_nat c) as [s'|] eqn:E; [|discriminate].
  destruct (Z.leb_spec 0 c); [|discriminate]. intros [= <- <-]. auto.
Qed.

Lemma triple_update_page (P : emu_vmm -> Prop) p g (Q : unit -> emu_vmm -> Prop) :
  (forall v pe, P v -> 0 <= p -> page_flags v !! Z.to_nat p = Some pe ->
                Q tt (with_page_flags (<[Z.to_nat p := g pe]> (page_flags v)) v)) ->
  triple P (update_page p g) Q.
Proof.
  intros H. unfold update_page.
  eapply triple_bind; [apply triple_load_page|]. intros pe.
  apply triple_modify. intros v (HP & Hp & Hpe). apply H; assumption.
Qed.

Lemma triple_update_slot (P : emu_vmm -> Prop) c g (Q : unit -> emu_vmm -> Prop) :
  (forall v s, P v -> 0 <= c -> cached v !! Z.to_nat c = Some s ->
               Q tt (with_cached (<[Z.to_nat c := g s]> (cached v)) v)) ->
  triple P (update_slot c g) Q.
Proof.
  intros H. unfold update_slot.
  eapply triple_bind; [apply triple_load_slot|]. intros s.
  apply triple_modify. intros v (HP & Hc & Hs). apply H; assumption.
Qed.

Lemma triple_int_mul (P : emu_vmm -> Prop) a b :
  triple P (int_mul a b) (fun _ v => P v).
Proof.
  unfold int_mul. destruct (a * b <? 2 ^ 31); [|apply triple_undefined].
  apply triple_ret. auto.
Qed.

Lemma triple_gets_inv {A} (P : emu_vmm -> Prop) (g : emu_vmm -> A) :
  triple P (gets g) (fun _ => P).
Proof. apply triple_gets. auto. Qed.

Lemma triple_load_page_inv (P : emu_vmm -> Prop) p : triple P (load_page p) (fun _ => P).
Proof.
  eapply triple_weaken; [apply (triple_load_page P p) | auto | intros a v [H _]; exact H].
Qed.

Lemma triple_load_slot_inv (P : emu_vmm -> Prop) c : triple P (load_slot c) (fun _ => P).
Proof.
  eapply triple_weaken; [apply (triple_load_slot P c) | auto | intros a v [H _]; exact H].
Qed.

Lemma triple_modify_inv (P : emu_vmm -> Prop) (g : emu_vmm -> emu_vmm) :
  (forall v, P v -> P (g v)) -> triple P (modify g) (fun _ => P).
Proof. intros H. apply (triple_modify P g (fun _ => P)). exact H. Qed.

Lemma triple_ret_inv {A} (P : emu_vmm -> Prop) (a : A) : triple P (ret a) (fun _ => P).
Proof. apply triple_ret. auto. Qed.

(** ** The shape of the address space is kept *)

Lemma wf_with_page_flags v p pe pe' :
  well_formed v -> page_flags v !! p = Some pe ->
  0 <= cached_page_idx pe' <= 15 ->
  well_formed (with_page_flags (<[p := pe']> (page_flags v)) v).
Proof.
  intros [] Hpe Hb. split; cbn [cached cached_idx lastused_page_idx page_flags n_pages
    with_page_flags]; try assumption.
  - apply Forall_insert; assumption.
  - rewrite length_insert. assumption.
Qed.

Lemma wf_with_cached v c s' :
  well_formed v -> length (data s') = 4096%nat ->
  well_formed (with_cached (<[c := s']> (cached v)) v).
Proof.
  intros [] Hb. split; cbn [cached cached_idx lastused_page_idx page_flags n_pages
    with_cached]; try assumption.
  - rewrite length_insert. assumption.
  - apply Forall_insert; assumption.
Qed.

Lemma wf_slot_buffer v c s :
  well_formed v -> cached v !! c = Some s -> length (data s) = 4096%nat.
Proof. intros [] Hs. eapply (Forall_lookup_1 _ _ _ _ wf_buffers0 Hs). Qed.

Lemma wf_entry_bound v p pe :
  well_formed v -> page_flags v !! p = Some pe -> 0 <= cached_page_idx pe <= 15.
Proof. intros [] Hs. eapply (Forall_lookup_1 _ _ _ _ wf_entries0 Hs). Qed.

Lemma wf_update_page_field p g :
  (forall pe, cached_page_idx (g pe) = cached_page_idx pe) ->
  triple well_formed (update_page p g) (fun _ => well_formed).
Proof.
  intros Hg. apply triple_update_page. intros v pe Hwf _ Hpe.
  eapply wf_with_page_flags; eauto. rewrite Hg. eapply wf_entry_bound; eauto.
Qed.

Lemma wf_update_slot_field c g :
  (forall s, length (data (g s)) = length (data s)) ->
  triple well_formed (update_slot c g) (fun _ => well_formed).
Proof.
  intros Hg. apply triple_update_slot. intros v s Hwf _ Hs.
  apply wf_with_cached; [assumption|]. rewrite Hg. eapply wf_slot_buffer; eauto.
Qed.

Lemma wf_with_tmpfd v fd : well_formed v -> well_formed (with_tmpfd fd v).
Proof. intros []. split; assumption. Qed.

Lemma wf_with_tmpfd_written v w : well_formed v -> well_formed (with_tmpfd_written w v).
Proof. intros []. split; assumption. Qed.

Lemma wf_pageout_write h c p :
  triple well_formed (pageout_write h c p) (fun _ => well_formed).
Proof.
  unfold pageout_write.
  eapply triple_bind; [apply triple_load_page_inv|]. intros pe.
  eapply triple_bind; [apply triple_int_mul|]. intros n.
  eapply triple_bind; [apply triple_load_slot_inv|]. intros s.
  eapply triple_bind; [apply triple_gets_inv|]. intros fd.
  destruct fd as [f|]; [destruct (pwrite_ok h)|]; try apply triple_ret_inv.
  apply triple_modify_inv. intros v. apply wf_with_tmpfd.
Qed.

Lemma wf_gentempfd h : triple well_formed (cli_gentempfd h) (fun _ => well_formed).
Proof.
  unfold cli_gentempfd. destruct (gentemp_ok h); [|apply triple_ret_inv].
  apply triple_modify_inv. intros v. apply wf_with_tmpfd.
Qed.

Lemma wf_pageout h c p : triple well_formed (vmm_pageout h c p) (fun _ => well_formed).
Proof.
  unfold vmm_pageout.
  eapply triple_bind; [apply wf_update_page_field; reflexivity|]. intros ?.
  eapply triple_bind; [apply triple_load_page_inv|]. intros pe.
  destruct (modified pe =? 0); [|apply wf_pageout_write].
  eapply triple_bind; [apply wf_update_page_field; reflexivity|]. intros ?.
  eapply triple_bind; [apply triple_gets_inv|]. intros fd0.
  eapply triple_bind; [destruct fd0; [apply triple_ret_inv | apply wf_gentempfd]|].
  intros ?.
  eapply triple_bind; [apply triple_gets_inv|]. intros fd.
  destruct fd; [|apply triple_ret_inv].
  eapply triple_bind; [apply triple_gets_inv|]. intros w.
  eapply triple_bind; [apply wf_update_page_field; reflexivity|]. intros ?.
  eapply triple_bind; [apply triple_modify_inv; intros v; apply wf_with_tmpfd_written|].
  intros ?.
  apply wf_pageout_write.
Qed.

Lemma wf_with_cached_idx v i :
  well_formed v -> 0 <= i < 15 -> well_formed (with_cached_idx i v).
Proof. intros [] Hi. split; assumption. Qed.

Lemma next_slot_range c :
  0 <= c < 15 -> 0 <= (if 15 <=? uint32 (c + 1) then 0 else uint32 (c + 1)) < 15.
Proof.
  intros Hc. unfold uint32. rewrite Z.mod_small by lia.
  destruct (Z.leb_spec 15 (c + 1)); lia.
Qed.

Lemma wf_pagein h p :
  triple well_formed (vmm_pagein h p)
         (fun r v => well_formed v /\ forall c, r = Some c -> 0 <= c < 15).
Proof.
  unfold vmm_pagein.
  eapply triple_bind with (Q := fun c v => well_formed v /\ c = cached_idx v);
    [apply triple_gets; auto|]. intros c.
  set (I := fun v => well_formed v /\ 0 <= c < 15).
  eapply triple_bind with (Q := fun _ => I).
  { apply triple_modify. intros v [Hwf ->]. pose proof (wf_cached_idx _ Hwf).
    split; [apply wf_with_cached_idx; [exact Hwf | apply next_slot_range; assumption]
           | assumption]. }
  intros ?.
  assert (Hlift : forall A (m : M A),
            triple well_formed m (fun _ => well_formed) -> triple I m (fun _ => I)).
  { intros A m Hm v0 x v0' [Hwf Hc] H. split; [eapply Hm; eauto | exact Hc]. }
  eapply triple_bind; [apply triple_load_slot_inv|]. intros s.
  eapply triple_bind with (Q := fun _ => I).
  { destruct (dirty s =? 0); [apply triple_ret_inv | apply Hlift, wf_pageout]. }
  intros ?.
  eapply triple_bind; [apply triple_load_page_inv|]. intros pe.
  eapply triple_bind; [apply Hlift, wf_update_slot_field; reflexivity|]. intros ?.
  eapply triple_bind; [apply Hlift, wf_update_slot_field; reflexivity|]. intros ?.
  eapply triple_bind; [apply triple_gets_inv|]. intros idx.
  eapply triple_bind with (Q := fun _ => I).
  { apply Hlift, triple_update_page. intros v pe' Hwf _ Hpe'.
    eapply wf_with_page_flags; eauto.
    unfold set_cached_page_idx. cbn [cached_page_idx]. change (2 ^ 4) with 16.
    pose proof (Z.mod_pos_bound (idx + 1) 16 eq_refl). lia. }
  intros ?.
  assert (Hret : forall r : option Z, (r = None \/ r = Some c) ->
            triple I (ret r)
                   (fun r v => well_formed v /\ forall c0, r = Some c0 -> 0 <= c0 < 15)).
  { intros r Hr. apply triple_ret. intros v [Hwf Hc]. split; [exact Hwf|].
    intros c0 ->. destruct Hr as [|[= ->]]; [discriminate | exact Hc]. }
  destruct (init pe =? 0).
  - eapply triple_bind with (Q := fun _ => I); [|intros ?; apply Hret; auto].
    apply Hlift, triple_update_slot. intros v0 s0 Hwf0 _ _.
    apply wf_with_cached; [exact Hwf0 | reflexivity].
  - eapply triple_bind; [apply triple_int_mul|]. intros off.
    eapply triple_bind; [apply triple_gets_inv|]. intros fd.
    destruct fd as [f|]; [|apply Hret; auto].
    eapply triple_bind with (Q := fun _ => I); [|intros ?; apply Hret; auto].
    apply Hlift, triple_update_slot. intros v0 s0 Hwf0 _ Hs0.
    apply wf_with_cached; [exact Hwf0|]. cbn. apply pread_length.
    eapply wf_slot_buffer; eauto.
Qed.

Lemma wf_with_lastused v page idx :
  well_formed v -> 0 <= idx < 15 -> well_formed (with_lastused page idx v).
Proof. intros [] Hi. split; assumption. Qed.

Lemma wf_cache_2page h va :
  triple well_formed (vmm_cache_2page h va)
         (fun r v => well_formed v /\ forall c, r = Some c -> 0 <= c < 15).
Proof.
  unfold vmm_cache_2page.
  eapply triple_bind; [apply triple_gets_inv|]. intros lp.
  destruct (lp =? va / 4096).
  - eapply triple_bind with (Q := fun i v => well_formed v /\ i = lastused_page_idx v);
      [apply triple_gets; auto|]. intros i.
    apply triple_ret. intros v [Hwf ->]. split; [exact Hwf|].
    intros c [= <-]. apply wf_lastused_idx, Hwf.
  - eapply triple_bind; [apply triple_gets_inv|]. intros n.
    destruct (n <? va / 4096).
    { apply triple_ret. intros v Hwf. split; [exact Hwf | discriminate]. }
    eapply triple_bind; [apply triple_load_page|]. intros pe.
    destruct (cached_page_idx pe =? 0) eqn:Hidx.
    + eapply triple_bind with (Q := fun _ => well_formed); [|intros ?; apply wf_pagein].
      eapply triple_weaken with (P' := well_formed) (Q' := fun _ => well_formed);
        [| intros v [H _]; exact H | auto].
      destruct (va / 4096 + 1 <? n); [|apply triple_ret_inv].
      eapply triple_bind; [apply wf_pagein|]. intros ?.
      apply triple_ret. intros v [H _]. exact H.
    + eapply triple_bind with
        (Q := fun _ v => well_formed v /\ 0 <= cached_page_idx pe - 1 < 15).
      * apply triple_modify. intros v (Hwf & _ & Hpe).
        pose proof (wf_entry_bound _ _ _ Hwf Hpe). apply Z.eqb_neq in Hidx.
        split; [apply wf_with_lastused; [exact Hwf | lia] | lia].
      * intros ?. apply triple_ret. intros v [Hwf Hc]. split; [exact Hwf|].
        intros c [= <-]. exact Hc.
Qed.

Lemma wf_vmm_read h va len flags :
  triple well_formed (vmm_read h va len flags) (fun _ => well_formed).
Proof.
  unfold vmm_read.
  eapply triple_bind; [apply wf_cache_2page|]. intros [c|].
  - eapply triple_weaken with (P' := well_formed) (Q' := fun _ => well_formed);
      [| intros v [H _]; exact H | auto].
    eapply triple_bind; [apply triple_load_slot_inv|]. intros s.
    destruct (_ =? 0); [apply triple_ret_inv|].
    eapply triple_bind with (Q := fun _ => well_formed); [|intros ?; apply triple_ret_inv].
    unfold copy_out. destruct (_ && _); [apply triple_ret_inv | apply triple_undefined].
  - apply triple_ret. intros v [H _]. exact H.
Qed.

Lemma copy_in_length d off value len v bs v' :
  copy_in d off value len v = Ret (bs, v') -> 0 <= off -> length bs = length d /\ v' = v.
Proof.
  unfold copy_in. intros H Hoff.
  destruct (Z.leb_spec (off + len) (Z.of_nat (length d))); [|discriminate].
  destruct (Z.leb_spec 0 len); [|discriminate].
  destruct (Z.leb_spec len (Z.of_nat (length value))); [|discriminate].
  injection H as <- <-. split; [|reflexivity].
  rewrite !length_app, !length_take, length_drop. lia.
Qed.

Lemma wf_vmm_write h va value len :
  triple well_formed (cli_emu_vmm_write h va value len) (fun _ => well_formed).
Proof.
  unfold cli_emu_vmm_write.
  eapply triple_bind; [apply wf_cache_2page|]. intros [c|].
  - eapply triple_weaken with (P' := well_formed) (Q' := fun _ => well_formed);
      [| intros v [H _]; exact H | auto].
    eapply triple_bind; [apply triple_load_slot|]. intros s.
    destruct (_ =? 0); [apply triple_ret; intros v [H _]; exact H|].
    eapply triple_bind with
      (Q := fun d v => well_formed v /\ length d = 4096%nat).
    { intros v d v' (Hwf & _ & Hs) H.
      apply copy_in_length in H as [Hd ->]; [|apply page_offset_range].
      split; [exact Hwf|]. rewrite Hd. eapply wf_slot_buffer; eauto. }
    intros d.
    eapply triple_bind with (Q := fun _ => well_formed).
    { apply triple_update_slot. intros v s0 [Hwf Hd] _ _.
      apply wf_with_cached; assumption. }
    intros ?.
    eapply triple_bind; [apply wf_update_slot_field; reflexivity|]. intros ?.
    apply triple_ret_inv.
  - apply triple_ret. intros v [H _]. exact H.
Qed.

Lemma wf_prot_set va len rwx :
  triple well_formed (cli_emu_vmm_prot_set va len rwx) (fun _ => well_formed).
Proof.
  unfold cli_emu_vmm_prot_set.
  eapply triple_bind; [apply triple_gets_inv|]. intros n.
  destruct (n <=? va / 4096); [apply triple_ret_inv|].
  eapply triple_bind; [apply wf_update_page_field; reflexivity|]. intros ?.
  apply triple_ret_inv.
Qed.

Lemma wf_prot_get va len :
  triple well_formed (cli_emu_vmm_prot_get va len) (fun _ => well_formed).
Proof.
  unfold cli_emu_vmm_prot_get.
  eapply triple_bind; [apply triple_gets_inv|]. intros n.
  destruct (n <=? va / 4096); [apply triple_ret_inv|].
  eapply triple_bind; [apply triple_load_page_inv|]. intros ?.
  apply triple_ret_inv.
Qed.

Lemma wf_perform h c : triple well_formed (perform h c) (fun _ => well_formed).
Proof.
  destruct c; cbn [perform];
    (eapply triple_bind; [|intros ?; apply triple_ret_inv]).
  - apply wf_vmm_read.
  - apply wf_vmm_write.
  - apply wf_prot_set.
  - apply wf_prot_get.
Qed.

Lemma wf_perform_all h cs : triple well_formed (perform_all h cs) (fun _ => well_formed).
Proof.
  induction cs as [|c cs IH]; cbn [perform_all]; [apply triple_ret_inv|].
  eapply triple_bind; [apply wf_perform|]. intros ?. exact IH.
Qed.

(** ** The address space that construction hands over *)

Lemma pristine_with_page_flags v p pe g :
  pristine v -> page_flags v !! p = Some pe ->
  cached_page_idx (g pe) = cached_page_idx pe -> modified (g pe) = modified pe ->
  pristine (with_page_flags (<[p := g pe]> (page_flags v)) v).
Proof.
  intros (Hwf & Hc & Hi & Hl & Ht & Hw & Hf) Hpe Hg1 Hg2.
  pose proof (Forall_lookup_1 _ _ _ _ Hf Hpe) as [H1 H2].
  split; [|repeat (split; [assumption|])].
  - eapply wf_with_page_flags; eauto. rewrite Hg1, H1. lia.
  - cbn [page_flags with_page_flags]. apply Forall_insert; [exact Hf|].
    rewrite Hg1, Hg2. auto.
Qed.

Lemma pristine_update_page p g :
  (forall pe, cached_page_idx (g pe) = cached_page_idx pe) ->
  (forall pe, modified (g pe) = modified pe) ->
  triple pristine (update_page p g) (fun _ => pristine).
Proof.
  intros H1 H2. apply triple_update_page. intros v pe Hp _ Hpe.
  apply pristine_with_page_flags; auto.
Qed.

Lemma pristine_map_header k : forall i rva0,
  triple pristine (map_header k i rva0) (fun _ => pristine).
Proof.
  induction k as [|k IH]; intros i rva0; cbn [map_header];
    (destruct (_ <? _); [|apply triple_ret_inv]);
    (eapply triple_bind; [apply pristine_update_page; reflexivity|]; intros ?);
    (eapply triple_bind; [apply pristine_update_page; reflexivity|]; intros ?).
  - apply triple_undefined.
  - apply IH.
Qed.

Lemma pristine_map_section_pages k : forall j s,
  triple pristine (map_section_pages k j s) (fun _ => pristine).
Proof.
  induction k as [|k IH]; intros j s; cbn [map_section_pages]; [apply triple_ret_inv|].
  eapply triple_bind; [apply triple_gets_inv|]. intros n.
  destruct (n <=? _); [apply triple_ret_inv|].
  eapply triple_bind; [apply pristine_update_page; reflexivity|]. intros ?.
  eapply triple_bind.
  { destruct (_ =? 0); [apply pristine_update_page; reflexivity | apply triple_ret_inv]. }
  intros ?.
  eapply triple_bind; [apply pristine_update_page; reflexivity|]. intros ?.
  apply IH.
Qed.

Lemma triple_load_section_inv (P : emu_vmm -> Prop) l i :
  triple P (load_section l i) (fun _ => P).
Proof.
  unfold load_section. destruct (l !! Z.to_nat i); [|apply triple_undefined].
  destruct (0 <=? i); [apply triple_ret_inv | apply triple_undefined].
Qed.

Lemma pristine_map_sections k : forall i l,
  triple pristine (map_sections k i l) (fun _ => pristine).
Proof.
  induction k as [|k IH]; intros i l; cbn [map_sections]; [apply triple_ret_inv|].
  eapply triple_bind; [apply triple_load_section_inv|]. intros s.
  eapply triple_bind with (Q := fun _ => pristine).
  { destruct (i =? 0); [apply triple_ret_inv|].
    eapply triple_bind; [apply triple_load_section_inv|]. intros ?. apply triple_ret_inv. }
  intros [|]; [apply triple_ret_inv|].
  eapply triple_bind; [apply pristine_map_section_pages|].
  intros [|]; [apply IH | apply triple_ret_inv].
Qed.

Lemma pristine_map_pages pe l : triple pristine (map_pages pe l) (fun _ => pristine).
Proof.
  unfold map_pages. destruct (negb _); [apply triple_ret_inv|].
  eapply triple_bind; [apply triple_load_section_inv|]. intros s0.
  eapply triple_bind; [apply triple_gets_inv|]. intros pf.
  eapply triple_bind; [apply pristine_map_header|]. intros ?.
  apply pristine_map_sections.
Qed.

Lemma pristine_fresh pe n fd : pristine (fresh_vmm pe n fd).
Proof.
  split; [split|repeat (split; [reflexivity|])]; cbn [fresh_vmm cached cached_idx
    lastused_page_idx page_flags n_pages]; try lia.
  - reflexivity.
  - apply Forall_replicate. reflexivity.
  - apply Forall_replicate. cbn. lia.
  - apply length_replicate.
  - apply Forall_replicate. split; reflexivity.
Qed.

Lemma accepted_is_pristine h pe sections fd v :
  cli_emu_vmm_new h pe sections fd = Ret (Some v) -> pristine v.
Proof.
  unfold cli_emu_vmm_new.
  destruct (_ =? 523); [discriminate|].
  destruct (nsections pe =? 0); [discriminate|].
  destruct (negb (calloc_ok h 1)); [discriminate|].
  destruct (sections !! _) as [last|]; [|discriminate].
  destruct (negb (calloc_ok h _)); [discriminate|].
  destruct (map_pages pe sections _) as [[rc v']|] eqn:Hmap; [|discriminate].
  destruct (rc =? -1); [discriminate|]. intros [= <-].
  eapply pristine_map_pages; [|exact Hmap]. apply pristine_fresh.
Qed.

(** ** The image behind an address space *)

Lemma keeps_image_update_page p g : keeps image (update_page p g).
Proof. apply keeps_update_page_of. reflexivity. Qed.
Lemma keeps_image_update_slot c g : keeps image (update_slot c g).
Proof. apply keeps_update_slot_of. reflexivity. Qed.
#[local] Hint Resolve keeps_image_update_page keeps_image_update_slot : keeps.

Lemma keeps_image_pageout h c p : keeps image (vmm_pageout h c p).
Proof. unfold vmm_pageout, pageout_write, cli_gentempfd. auto 30 with keeps. Qed.
#[local] Hint Resolve keeps_image_pageout : keeps.

Lemma keeps_image_pagein h p : keeps image (vmm_pagein h p).
Proof. unfold vmm_pagein. auto 40 with keeps. Qed.
#[local] Hint Resolve keeps_image_pagein : keeps.

Lemma keeps_image_cache_2page h va : keeps image (vmm_cache_2page h va).
Proof. unfold vmm_cache_2page. auto 40 with keeps. Qed.
#[local] Hint Resolve keeps_image_cache_2page : keeps.

Lemma keeps_image_perform h c : keeps image (perform h c).
Proof.
  destruct c; cbn [perform]; unfold vmm_read, cli_emu_vmm_write, cli_emu_vmm_prot_set,
    cli_emu_vmm_prot_get; auto 40 with keeps.
Qed.

Lemma keeps_image_perform_all h cs : keeps image (perform_all h cs).
Proof.
  pose proof (keeps_image_perform h).
  induction cs as [|c cs IH]; cbn [perform_all]; auto with keeps.
Qed.

Lemma keeps_image_map_header k : forall i rva0, keeps image (map_header k i rva0).
Proof. induction k as [|k IH]; intros i rva0; simpl; auto 10 with keeps. Qed.

Lemma keeps_image_map_section_pages k : forall j s, keeps image (map_section_pages k j s).
Proof. induction k as [|k IH]; intros j s; simpl; auto 20 with keeps. Qed.

Lemma keeps_image_map_sections k : forall i l, keeps image (map_sections k i l).
Proof.
  pose proof keeps_image_map_section_pages.
  induction k as [|k IH]; intros i l; simpl; auto 20 with keeps.
Qed.

Lemma keeps_image_map_pages pe l : keeps image (map_pages pe l).
Proof.
  pose proof keeps_image_map_header. pose proof keeps_image_map_sections.
  unfold map_pages. auto 20 with keeps.
Qed.

Lemma accepted_image h pe sections fd v :
  cli_emu_vmm_new h pe sections fd = Ret (Some v) ->
  imagebase v = ImageBase pe /\ infd v = fd.
Proof.
  unfold cli_emu_vmm_new.
  destruct (_ =? 523); [discriminate|].
  destruct (nsections pe =? 0); [discriminate|].
  destruct (negb (calloc_ok h 1)); [discriminate|].
  destruct (sections !! _) as [last|]; [|discriminate].
  destruct (negb (calloc_ok h _)); [discriminate|].
  destruct (map_pages pe sections _) as [[rc v']|] eqn:Hmap; [|discriminate].
  destruct (rc =? -1); [discriminate|]. intros [= <-].
  apply keeps_image_map_pages in Hmap. unfold image in Hmap. cbn in Hmap.
  injection Hmap as -> _ ->. split; reflexivity.
Qed.

(** X13.  The address space that [cli_emu_vmm_new] returns is in its initial
    shape whatever the image: fifteen clean slots of 4096 zero bytes, no page
    resident or modified, the shortcut on no page, no temp file, and the
    image base and the descriptor those of the call. *)
Theorem accepted_image_is_pristine h pe sections fd v :
  cli_emu_vmm_new h pe sections fd = Ret (Some v) ->
  pristine v /\ imagebase v = ImageBase pe /\ infd v = fd.
Proof.
  intros H. split; [eapply accepted_is_pristine; eassumption|].
  eapply accepted_image; eassumption.
Qed.

Lemma accepted_image_is_pristine_witness :
  pristine vmm_rx_unreadable /\
  imagebase vmm_rx_unreadable = ImageBase (pe32 1) /\ infd vmm_rx_unreadable = None.
Proof.
  apply (accepted_image_is_pristine x86 (pe32 1) [sec_rx] None vmm_rx_unreadable).
  vm_compute. reflexivity.
Defined.

(** X14.  Whatever sequence of reads, writes and protection calls is made on an
    address space that construction returned, as long as each has a defined
    outcome the state stays well formed (fifteen slots of 4096 bytes, the two
    slot cursors below 15, every entry naming slot 0..15, as many entries as
    pages) and the image base, the page count and the input descriptor are
    those of construction. *)
Theorem reachable_states_are_well_formed h pe sections fd v0 h' cs v :
  cli_emu_vmm_new h pe sections fd = Ret (Some v0) ->
  perform_all h' cs v0 = Ret (tt, v) ->
  well_formed v /\ image v = image v0.
Proof.
  intros Hnew Hrun. split.
  - eapply wf_perform_all; [|exact Hrun].
    apply accepted_is_pristine in Hnew. apply Hnew.
  - eapply keeps_image_perform_all. exact Hrun.
Qed.

Lemma reachable_states_are_well_formed_witness :
  well_formed (state_after (perform_all x86 session) vmm_bss) /\
  image (state_after (perform_all x86 session) vmm_bss) = image vmm_bss.
Proof.
  apply (reachable_states_are_well_formed x86 (pe32 1) [sec_bss] None vmm_bss x86 session
           (state_after (perform_all x86 session) vmm_bss)).
  - vm_compute. reflexivity.
  - apply result_state_after. vm_compute. reflexivity.
Defined.

(** X15.  From a well-formed state, the slot that [vmm_cache_2page] returns is
    one of the fifteen, and holds a buffer of 4096 bytes: the pointer handed to
    [vmm_read] and [cli_emu_vmm_write] is inside [cached]. *)
Theorem resolved_slot_is_within_the_cache h va v c v' :
  well_formed v ->
  vmm_cache_2page h va v = Ret (Some c, v') ->
  0 <= c < 15 /\
  exists s, cached v' !! Z.to_nat c = Some s /\ length (data s) = 4096%nat.
Proof.
  intros Hwf H. destruct (wf_cache_2page h va v _ _ Hwf H) as [Hwf' Hc].
  specialize (Hc c eq_refl). split; [exact Hc|].
  destruct (lookup_lt_is_Some_2 (cached v') (Z.to_nat c)) as [s Hs].
  { rewrite (wf_slots _ Hwf'). lia. }
  exists s. split; [exact Hs|]. eapply wf_slot_buffer; eauto.
Qed.

Lemma resolved_slot_is_within_the_cache_witness :
  0 <= 1 < 15 /\
  exists s, cached (state_after (vmm_cache_2page x86 0x1000) vmm_bss) !! Z.to_nat 1 = Some s /\
            length (data s) = 4096%nat.
Proof.
  apply (resolved_slot_is_within_the_cache x86 0x1000 vmm_bss 1
           (state_after (vmm_cache_2page x86 0x1000) vmm_bss)).
  - apply (accepted_is_pristine x86 (pe32 1) [sec_bss] None). vm_compute. reflexivity.
  - apply result_state_after. vm_compute. reflexivity.
Defined.

(** ** What construction refuses *)

Lemma update_page_inside v p pe g :
  0 <= p -> page_flags v !! Z.to_nat p = Some pe ->
  update_page p g v
  = Ret (tt, with_page_flags (<[Z.to_nat p := g pe]> (page_flags v)) v).
Proof.
  intros Hp Hpe. unfold update_page.
  rewrite (bind_Ret _ _ v pe v (load_page_inside v p pe Hp Hpe)). reflexivity.
Qed.

(** An update inside the table: defined, and the shape of the table stays. *)
Lemma update_page_runs v p g :
  0 <= p < Z.of_nat (length (page_flags v)) ->
  exists v', update_page p g v = Ret (tt, v') /\
             length (page_flags v') = length (page_flags v) /\
             n_pages v' = n_pages v.
Proof.
  intros Hp. destruct (lookup_lt_is_Some_2 (page_flags v) (Z.to_nat p)) as [pe Hpe]; [lia|].
  eexists. split; [apply update_page_inside; [lia | exact Hpe]|].
  cbn [page_flags with_page_flags n_pages]. rewrite length_insert. split; reflexivity.
Qed.

Lemma supported_checks h pe :
  supported h pe = true ->
  (le16_to_host h (Magic pe) =? 0x020b) = false /\
  (nsections pe =? 0) = false /\
  negb ((Machine pe =? 0x14c) || (Machine pe =? 0x14d) || (Machine pe =? 0x14e)) = false.
Proof.
  unfold supported. intros H.
  apply andb_true_iff in H as [H Hm]. apply andb_true_iff in H as [H1 H2].
  apply negb_true_iff in H1, H2. rewrite Hm. auto.
Qed.

(** X16.  An image that fails one of the header checks (PE32+ magic, no
    section, a machine type other than 0x14c, 0x14d, 0x14e) is refused with
    NULL, given the section array has the [nsections] entries it is read at. *)
Theorem unsupported_images_are_refused h pe sections fd :
  supported h pe = false ->
  Z.of_nat (length sections) = nsections pe ->
  cli_emu_vmm_new h pe sections fd = Ret None.
Proof.
  unfold supported, cli_emu_vmm_new. intros Hs Hlen.
  destruct (le16_to_host h (Magic pe) =? 523); [reflexivity|].
  destruct (nsections pe =? 0) eqn:Hn; [reflexivity|].
  destruct (negb (calloc_ok h 1)); [reflexivity|].
  apply Z.eqb_neq in Hn.
  destruct (lookup_lt_is_Some_2 sections (Z.to_nat (nsections pe - 1))) as [last ->]; [lia|].
  destruct (negb (calloc_ok h _)); [reflexivity|].
  cbn [negb andb] in Hs. unfold map_pages. rewrite Hs. reflexivity.
Qed.

Lemma unsupported_images_are_refused_witness :
  cli_emu_vmm_new x86 (mk_pedata 0x8664 0x10b 0x400000 0x1000 0x200 1) [sec_rx] None
  = Ret None.
Proof.
  apply unsupported_images_are_refused; reflexivity.
Defined.

(** The header loop on a table of [i + k] entries of which [i] are passed:
    when the first section starts beyond them, the store at [i + k] is next. *)
Lemma map_header_overrun rva0 k : forall i v,
  0 <= i -> length (page_flags v) = (Z.to_nat i + k)%nat ->
  (i + Z.of_nat k) * 4096 < rva0 -> rva0 <= 2 ^ 32 ->
  map_header k i rva0 v = UB.
Proof.
  induction k as [|k IH]; intros i v Hi Hlen Hrva Hmax; cbn [map_header];
    rewrite (uint32_small (i * 4096)) by lia;
    (destruct (Z.ltb_spec (i * 4096) rva0); [|lia]).
  - apply bind_UB. unfold update_page. apply bind_UB. apply load_page_outside.
    apply lookup_ge_None. lia.
  - destruct (update_page_runs v i (set_file_offset (i * 4096 / MINALIGN)))
      as (v1 & H1 & Hl1 & _); [lia|].
    rewrite (bind_Ret _ _ _ _ _ H1).
    destruct (update_page_runs v1 i (set_flag_rwx (Z.shiftl 1 flag_r)))
      as (v2 & H2 & Hl2 & _); [lia|].
    rewrite (bind_Ret _ _ _ _ _ H2).
    rewrite (uint32_small (i + 1)) by lia.
    apply IH; lia.
Qed.

(** X17.  The header loop of lines 93-96 has no bound but the first section's
    start: when the first section starts beyond the page count that the last
    section gives, the loop stores past the end of the page table. *)
Theorem header_loop_overruns_page_table h pe sections fd s0 last :
  supported h pe = true ->
  calloc_ok h 1 = true -> calloc_ok h (page_count last) = true ->
  sections !! 0%nat = Some s0 ->
  sections !! Z.to_nat (nsections pe - 1) = Some last ->
  page_count last * 4096 < rva s0 <= 2 ^ 32 ->
  cli_emu_vmm_new h pe sections fd = UB.
Proof.
  intros Hs Hc1 Hcn H0 Hlast [Hlo Hhi].
  apply supported_checks in Hs as (Hmagic & Hn & Hm).
  unfold cli_emu_vmm_new. rewrite Hmagic, Hn, Hc1, Hlast. cbn [negb].
  fold (page_count last). rewrite Hcn. cbn [negb].
  assert (0 <= page_count last).
  { unfold page_count, uint32. apply Z.div_pos; [apply Z.mod_pos_bound|]; lia. }
  replace (map_pages pe sections (fresh_vmm pe (page_count last) fd)) with (@UB (Z * emu_vmm));
    [reflexivity|].
  symmetry. unfold map_pages. rewrite Hm.
  assert (load_section sections 0 (fresh_vmm pe (page_count last) fd)
          = Ret (s0, fresh_vmm pe (page_count last) fd)) as Hs0.
  { unfold load_section. change (Z.to_nat 0) with 0%nat. rewrite H0. reflexivity. }
  rewrite (bind_Ret _ _ _ _ _ Hs0). unfold gets at 1. unfold bind at 1.
  apply bind_UB. cbn [fresh_vmm page_flags]. rewrite length_replicate.
  apply map_header_overrun; cbn [fresh_vmm page_flags]; try lia.
  rewrite length_replicate. reflexivity.
Qed.

Lemma header_loop_overruns_page_table_witness :
  cli_emu_vmm_new x86 (pe32 2) [sec_late; sec_early] None = UB.
Proof.
  apply (header_loop_overruns_page_table x86 (pe32 2) [sec_late; sec_early] None
           sec_late sec_early); try reflexivity.
  vm_compute. split; [reflexivity | discriminate].
Defined.

(** The header loop within the table: defined, and the table keeps its shape. *)
Lemma map_header_runs rva0 n k : forall i v,
  0 <= i <= n -> n < 2 ^ 20 -> length (page_flags v) = Z.to_nat n ->
  n <= i + Z.of_nat k -> rva0 <= n * 4096 ->
  exists v', map_header k i rva0 v = Ret (tt, v') /\
             length (page_flags v') = Z.to_nat n /\ n_pages v' = n_pages v.
Proof.
  induction k as [|k IH]; intros i v Hi Hn Hlen Hk Hrva; cbn [map_header];
    rewrite (uint32_small (i * 4096)) by lia;
    (destruct (Z.ltb_spec (i * 4096) rva0); [|eexists; split; [reflexivity|auto]]).
  - lia.
  - destruct (update_page_runs v i (set_file_offset (i * 4096 / MINALIGN)))
      as (v1 & H1 & Hl1 & Hn1); [lia|].
    rewrite (bind_Ret _ _ _ _ _ H1).
    destruct (update_page_runs v1 i (set_flag_rwx (Z.shiftl 1 flag_r)))
      as (v2 & H2 & Hl2 & Hn2); [lia|].
    rewrite (bind_Ret _ _ _ _ _ H2).
    rewrite (uint32_small (i + 1)) by lia.
    destruct (IH (i + 1) v2) as (v' & H' & Hl' & Hn'); try lia.
    exists v'. split; [exact H'|]. split; [exact Hl' | congruence].
Qed.

(** The page loop of a section that runs past the page count stops at the
    test of line 118. *)
Lemma map_section_pages_past_extent s k : forall j v,
  0 <= j -> 0 <= rva s ->
  length (page_flags v) = Z.to_nat (n_pages v) ->
  rva s / 4096 + j <= n_pages v < rva s / 4096 + j + Z.of_nat k ->
  n_pages v < 2 ^ 32 ->
  exists v', map_section_pages k j s v = Ret (false, v').
Proof.
  induction k as [|k IH]; intros j v Hj Hrva Hlen Hn Hmax; [lia|].
  cbn [map_section_pages].
  assert (0 <= rva s / 4096) by (apply Z.div_pos; lia).
  rewrite (uint32_small (rva s / 4096 + j)) by lia.
  unfold gets at 1. unfold bind at 1.
  destruct (Z.leb_spec (n_pages v) (rva s / 4096 + j)); [eexists; reflexivity|].
  set (p := rva s / 4096 + j) in *.
  destruct (update_page_runs v p
              (set_init (if Z.land (chr s) IMAGE_SCN_CNT_UNINITIALIZED_DATA =? 0
                         then 1 else 0))) as (v1 & H1 & Hl1 & Hn1); [lia|].
  rewrite (bind_Ret _ _ _ _ _ H1).
  assert (exists v2, (if Z.land (chr s) IMAGE_SCN_CNT_UNINITIALIZED_DATA =? 0
                      then update_page p
                             (set_file_offset (uint32 (raw s + uint32 (j * 4096)) / MINALIGN))
                      else ret tt) v1 = Ret (tt, v2) /\
                     length (page_flags v2) = length (page_flags v) /\
                     n_pages v2 = n_pages v) as (v2 & H2 & Hl2 & Hn2).
  { destruct (_ =? 0).
    - destruct (update_page_runs v1 p
                  (set_file_offset (uint32 (raw s + uint32 (j * 4096)) / MINALIGN)))
        as (v2 & H2 & Hl2 & Hn2); [lia|].
      exists v2. split; [exact H2|]. split; congruence.
    - exists v1. split; [reflexivity|]. split; congruence. }
  rewrite (bind_Ret _ _ _ _ _ H2).
  destruct (update_page_runs v2 p
              (fun pe => set_flag_rwx (Z.lor (flag_rwx pe) (section_flag_rwx (chr s))) pe))
    as (v3 & H3 & Hl3 & Hn3); [lia|].
  rewrite (bind_Ret _ _ _ _ _ H3).
  rewrite (uint32_small (j + 1)) by lia.
  apply IH; try lia.
Qed.

(** X18.  When the pages of the first section run past the page count that the
    last section gives (and the section starts within it), construction stops
    at the test of line 118 and returns NULL. *)
Theorem first_section_past_extent_is_refused h pe sections fd s0 last :
  supported h pe = true -> 0 < nsections pe ->
  calloc_ok h 1 = true -> calloc_ok h (page_count last) = true ->
  sections !! 0%nat = Some s0 ->
  sections !! Z.to_nat (nsections pe - 1) = Some last ->
  0 <= rva s0 <= page_count last * 4096 ->
  page_count last < rva s0 / 4096 + uint32 (vsz s0 + 4095) / 4096 ->
  cli_emu_vmm_new h pe sections fd = Ret None.
Proof.
  intros Hs Hnn Hc1 Hcn H0 Hlast [Hlo Hhi] Hpast.
  pose proof Hs as Hsup. apply supported_checks in Hs as (Hmagic & Hn & Hm).
  unfold cli_emu_vmm_new. rewrite Hmagic, Hn, Hc1, Hlast. cbn [negb].
  fold (page_count last). rewrite Hcn. cbn [negb].
  assert (0 <= page_count last < 2 ^ 20) as Hpc.
  { split; [|apply uint32_div_bound].
    unfold page_count, uint32. apply Z.div_pos; [apply Z.mod_pos_bound|]; lia. }
  set (v0 := fresh_vmm pe (page_count last) fd).
  assert (exists v', map_pages pe sections v0 = Ret (-1, v')) as [v' ->]; [|reflexivity].
  unfold map_pages. rewrite Hm.
  assert (load_section sections 0 v0 = Ret (s0, v0)) as Hs0.
  { unfold load_section. change (Z.to_nat 0) with 0%nat. rewrite H0. reflexivity. }
  rewrite (bind_Ret _ _ _ _ _ Hs0). unfold gets at 1. unfold bind at 1.
  destruct (map_header_runs (rva s0) (page_count last) (length (page_flags v0)) 0 v0)
    as (v1 & H1 & Hl1 & Hn1); try lia.
  { subst v0. cbn [fresh_vmm page_flags]. apply length_replicate. }
  { subst v0. cbn [fresh_vmm page_flags]. rewrite length_replicate. lia. }
  rewrite (bind_Ret _ _ _ _ _ H1).
  apply Z.eqb_neq in Hn.
  destruct (Z.to_nat (nsections pe)) as [|k] eqn:Hk; [lia|].
  cbn [map_sections]. rewrite (bind_Ret _ _ v1 s0 v1).
  2:{ unfold load_section. change (Z.to_nat 0) with 0%nat. rewrite H0. reflexivity. }
  cbn [Z.eqb]. rewrite (bind_Ret _ _ v1 false v1) by reflexivity.
  destruct (map_section_pages_past_extent s0 (Z.to_nat (uint32 (vsz s0 + 4095) / 4096)) 0 v1)
    as (v2 & H2); try lia.
  { rewrite Hl1, Hn1. reflexivity. }
  { rewrite Hn1. subst v0. cbn [fresh_vmm n_pages].
    assert (0 <= rva s0 / 4096) by (apply Z.div_pos; lia).
    assert (rva s0 / 4096 <= page_count last).
    { apply Z.div_le_upper_bound; lia. }
    lia. }
  { rewrite Hn1. subst v0. cbn [fresh_vmm n_pages]. lia. }
  rewrite (bind_Ret _ _ _ _ _ H2). eexists. reflexivity.
Qed.

Lemma first_section_past_extent_is_refused_witness :
  cli_emu_vmm_new x86 (pe32 2) [sec_long; sec_short] None = Ret None.
Proof.
  apply (first_section_past_extent_is_refused x86 (pe32 2) [sec_long; sec_short] None
           sec_long sec_short); try reflexivity.
  vm_compute. split; discriminate.
Defined.

(** ** What construction stores for the pages of a section *)

Lemma accepted_inv h pe sections fd v :
  cli_emu_vmm_new h pe sections fd = Ret (Some v) ->
  exists last s0 v1 rc,
    sections !! Z.to_nat (nsections pe - 1) = Some last /\
    sections !! 0%nat = Some s0 /\
    map_header (Z.to_nat (page_count last)) 0 (rva s0) (fresh_vmm pe (page_count last) fd)
      = Ret (tt, v1) /\
    map_sections (Z.to_nat (nsections pe)) 0 sections v1 = Ret (rc, v) /\ rc <> -1.
Proof.
  unfold cli_emu_vmm_new. intros H.
  destruct (le16_to_host h (Magic pe) =? 523); [discriminate|].
  destruct (nsections pe =? 0); [discriminate|].
  destruct (negb (calloc_ok h 1)); [discriminate|].
  destruct (sections !! Z.to_nat (nsections pe - 1)) as [last|]; [|discriminate].
  fold (page_count last) in H.
  destruct (negb (calloc_ok h _)); [discriminate|].
  destruct (map_pages pe sections _) as [[rc v']|] eqn:Hmap; [|discriminate].
  destruct (rc =? -1) eqn:Hrc; [discriminate|]. injection H as <-.
  unfold map_pages in Hmap.
  destruct (negb _); [injection Hmap as <- _; discriminate Hrc|].
  apply bind_inv in Hmap as (s0 & v0 & H0 & Hmap).
  unfold load_section in H0. change (Z.to_nat 0) with 0%nat in H0.
  destruct (sections !! 0%nat) as [s0'|] eqn:E; [|discriminate].
  injection H0 as -> <-.
  apply bind_inv in Hmap as (pf & v1 & H1 & Hmap). injection H1 as <- <-.
  apply bind_inv in Hmap as ([] & v2 & H2 & Hmap).
  cbn [fresh_vmm page_flags] in H2. rewrite length_replicate in H2.
  exists last, s0, v2, rc. repeat split; try assumption.
  apply Z.eqb_neq. exact Hrc.
Qed.

Lemma load_section_inv sections i v s v' :
  load_section sections i v = Ret (s, v') ->
  sections !! Z.to_nat i = Some s /\ 0 <= i /\ v' = v.
Proof.
  unfold load_section. destruct (sections !! Z.to_nat i); [|discriminate].
  destruct (Z.leb_spec 0 i); [|discriminate]. intros [= -> ->]. auto.
Qed.

(** A property of the entry of [p] that every store of [g] keeps. *)
Lemma update_page_keeps_sat (P : page_t -> Prop) p q g v u v' :
  (forall pe, P pe -> P (g pe)) -> 0 <= p ->
  page_sat P p v -> update_page q g v = Ret (u, v') -> page_sat P p v'.
Proof.
  intros Hg Hp Hsat H. destruct (Z.eq_dec p q) as [->|Hne].
  - eapply update_page_sat; eauto.
  - destruct Hsat as (pe & Hpe & HP). exists pe. split; [|exact HP].
    pose proof (update_page_nonneg _ _ _ _ _ H).
    rewrite (update_page_other _ _ _ _ _ p H); [exact Hpe | lia..].
Qed.

Lemma section_flag_rwx_range c : 0 <= section_flag_rwx c < 8.
Proof.
  unfold section_flag_rwx.
  destruct (_ =? 0), (_ =? 0), (_ =? 0); vm_compute; split; first [discriminate | reflexivity].
Qed.

Lemma land_low_bits x m : 0 <= m < 8 -> Z.land (x mod 2 ^ 3) m = Z.land x m.
Proof.
  intros Hm. rewrite <- Z.land_ones by lia. rewrite <- Z.land_assoc.
  f_equal. rewrite Z.land_comm, Z.land_ones by lia. apply Z.mod_small. lia.
Qed.

Lemma lor_sets_rights old m : 0 <= m < 8 -> Z.land (Z.lor old m mod 2 ^ 3) m = m.
Proof.
  intros Hm. rewrite land_low_bits by exact Hm.
  apply Z.bits_inj'. intros n Hn. rewrite Z.land_spec, Z.lor_spec.
  destruct (Z.testbit old n), (Z.testbit m n); reflexivity.
Qed.

Lemma lor_keeps_rights old new m :
  0 <= m < 8 -> Z.land old m = m -> Z.land (Z.lor old new mod 2 ^ 3) m = m.
Proof.
  intros Hm Hold. rewrite land_low_bits by exact Hm.
  apply Z.bits_inj'. intros n Hn. rewrite Z.land_spec, Z.lor_spec.
  assert (Z.testbit (Z.land old m) n = Z.testbit m n) as Hb by (rewrite Hold; reflexivity).
  rewrite Z.land_spec in Hb.
  destruct (Z.testbit old n), (Z.testbit new n), (Z.testbit m n);
    first [reflexivity | discriminate Hb].
Qed.

Lemma map_section_pages_keeps_rights m p s k : forall j v b v',
  0 <= m < 8 -> 0 <= p ->
  page_sat (has_rights m) p v ->
  map_section_pages k j s v = Ret (b, v') -> page_sat (has_rights m) p v'.
Proof.
  induction k as [|k IH]; intros j v b v' Hm Hp Hsat H; cbn [map_section_pages] in H.
  - injection H as _ <-. exact Hsat.
  - apply bind_inv in H as (n & v0 & H0 & H). injection H0 as _ <-.
    destruct (n <=? _); [injection H as _ <-; exact Hsat|].
    apply bind_inv in H as (? & v1 & H1 & H).
    apply bind_inv in H as (? & v2 & H2 & H).
    apply bind_inv in H as (? & v3 & H3 & H).
    eapply IH; [exact Hm | exact Hp | | exact H].
    eapply update_page_keeps_sat; [| exact Hp | | exact H3].
    { intros pe Hpe. unfold has_rights in *. cbn. apply lor_keeps_rights; assumption. }
    assert (page_sat (has_rights m) p v1) as Hsat1.
    { eapply update_page_keeps_sat; [| exact Hp | exact Hsat | exact H1]. auto. }
    destruct (_ =? 0); [|injection H2 as _ <-; exact Hsat1].
    eapply update_page_keeps_sat; [| exact Hp | exact Hsat1 | exact H2]. auto.
Qed.

(** One run of the section loop, taken apart: the section read, the
    continuity test passed, the page loop, the rest of the sections. *)
Lemma map_sections_step k idx sections v rc v' :
  map_sections (S k) idx sections v = Ret (rc, v') -> rc <> -1 ->
  exists s v1,
    sections !! Z.to_nat idx = Some s /\ 0 <= idx /\
    map_section_pages (Z.to_nat (section_pages s)) 0 s v = Ret (true, v1) /\
    map_sections k (idx + 1) sections v1 = Ret (rc, v').
Proof.
  cbn [map_sections]. intros H Hrc.
  apply bind_inv in H as (s & v0 & H0 & H).
  apply load_section_inv in H0 as (Hs & Hidx & ->).
  apply bind_inv in H as (broken & v1 & H1 & H).
  assert (v1 = v) as ->.
  { destruct (idx =? 0); [injection H1 as _ <-; reflexivity|].
    apply bind_inv in H1 as (prev & v2 & H2 & H1). injection H1 as _ <-.
    apply load_section_inv in H2 as (_ & _ & ->). reflexivity. }
  destruct broken; [injection H as <- _; contradiction|].
  apply bind_inv in H as (ok & v2 & H2 & H).
  destruct ok; [|injection H as <- _; contradiction].
  exists s, v2. auto.
Qed.

Lemma map_sections_keeps_rights m p sections k : forall idx v rc v',
  0 <= m < 8 -> 0 <= p ->
  page_sat (has_rights m) p v ->
  map_sections k idx sections v = Ret (rc, v') -> rc <> -1 ->
  page_sat (has_rights m) p v'.
Proof.
  induction k as [|k IH]; intros idx v rc v' Hm Hp Hsat H Hrc.
  - injection H as _ <-. exact Hsat.
  - apply map_sections_step in H as (s & v1 & _ & _ & H1 & H); [|exact Hrc].
    eapply IH; [exact Hm | exact Hp | | exact H | exact Hrc].
    eapply map_section_pages_keeps_rights; eauto.
Qed.

Lemma page_sat_same_entry (P : page_t -> Prop) p v v' :
  page_flags v' !! Z.to_nat p = page_flags v !! Z.to_nat p ->
  page_sat P p v -> page_sat P p v'.
Proof. intros E (pe & Hpe & HP). exists pe. rewrite E. auto. Qed.

(** The page loop of a section leaves the pages before its cursor alone. *)
Lemma map_section_pages_before s p k : forall j v b v',
  map_section_pages k j s v = Ret (b, v') ->
  0 <= p < rva s / 4096 + j -> 0 <= j -> 0 <= rva s ->
  rva s / 4096 + j + Z.of_nat k < 2 ^ 32 ->
  page_flags v' !! Z.to_nat p = page_flags v !! Z.to_nat p.
Proof.
  induction k as [|k IH]; intros j v b v' H Hp Hj Hrva Hk;
    pose proof (Z.div_pos (rva s) 4096 Hrva eq_refl) as Hdiv; cbn [map_section_pages] in H.
  - injection H as _ <-. reflexivity.
  - apply bind_inv in H as (n & v0 & H0 & H). injection H0 as _ <-.
    destruct (n <=? uint32 (rva s / 4096 + j)); [injection H as _ <-; reflexivity|].
    rewrite (uint32_small (rva s / 4096 + j)) in H by lia.
    apply bind_inv in H as (? & v1 & H1 & H).
    apply bind_inv in H as (? & v2 & H2 & H).
    apply bind_inv in H as (? & v3 & H3 & H).
    rewrite (IH _ _ _ _ H); [| rewrite ?uint32_small; lia..].
    rewrite (update_page_other _ _ _ _ _ p H3) by lia.
    assert (E2 : page_flags v2 !! Z.to_nat p = page_flags v1 !! Z.to_nat p).
    { destruct (_ =? 0); [|injection H2 as _ <-; reflexivity].
      apply (update_page_other _ _ _ _ _ p H2); lia. }
    rewrite E2. apply (update_page_other _ _ _ _ _ p H1); lia.
Qed.

(** What the page loop of a section leaves in the entries of its pages. *)
Lemma map_section_pages_at s j' k : forall j v v',
  map_section_pages k j s v = Ret (true, v') ->
  0 <= j <= j' -> j' < j + Z.of_nat k -> 0 <= rva s ->
  rva s / 4096 + j + Z.of_nat k < 2 ^ 32 ->
  page_sat (fun pe => has_rights (section_flag_rwx (chr s)) pe /\ backed_by s j' pe)
           (rva s / 4096 + j') v'.
Proof.
  induction k as [|k IH]; intros j v v' H Hj Hk Hrva Hmax; [lia|].
  assert (0 <= rva s / 4096) as Hdiv by (apply Z.div_pos; lia).
  destruct (Z.eq_dec j j') as [<-|Hne].
  - cbn [map_section_pages] in H.
    apply bind_inv in H as (n & v0 & H0 & H). injection H0 as _ <-.
    destruct (n <=? uint32 (rva s / 4096 + j)); [discriminate|].
    rewrite (uint32_small (rva s / 4096 + j)) in H by lia.
    apply bind_inv in H as (? & v1 & H1 & H).
    apply bind_inv in H as (? & v2 & H2 & H).
    apply bind_inv in H as (? & v3 & H3 & H).
    eapply page_sat_same_entry.
    { eapply map_section_pages_before; [exact H | ..]; rewrite ?uint32_small; lia. }
    apply update_page_at in H1 as (pe0 & _ & Hpe1).
    assert (page_sat (backed_by s j) (rva s / 4096 + j) v2) as Hsat2.
    { unfold backed_by in *.
      destruct (Z.land (chr s) IMAGE_SCN_CNT_UNINITIALIZED_DATA =? 0).
      - apply update_page_at in H2 as (pe1 & Hpe1' & Hpe2).
        rewrite Hpe1 in Hpe1'. injection Hpe1' as <-.
        eexists. split; [exact Hpe2|]. cbn. split; [reflexivity|].
        unfold uint32. rewrite Zplus_mod_idemp_r. reflexivity.
      - injection H2 as _ <-. eexists. split; [exact Hpe1|]. reflexivity. }
    eapply update_page_sat; [| exact Hsat2 | exact H3].
    intros pe Hpe. split.
    + unfold has_rights. cbn. apply lor_sets_rights, section_flag_rwx_range.
    + unfold backed_by in *. destruct (_ =? 0); exact Hpe.
  - cbn [map_section_pages] in H.
    apply bind_inv in H as (n & v0 & H0 & H). injection H0 as _ <-.
    destruct (n <=? uint32 (rva s / 4096 + j)); [discriminate|].
    apply bind_inv in H as (? & v1 & H1 & H).
    apply bind_inv in H as (? & v2 & H2 & H).
    apply bind_inv in H as (? & v3 & H3 & H).
    apply (IH _ _ _ H); rewrite ?uint32_small; lia.
Qed.

Lemma section_pages_range s : 0 <= section_pages s < 2 ^ 20.
Proof.
  unfold section_pages. split; [|apply uint32_div_bound].
  apply Z.div_pos; [|lia]. apply Z.mod_pos_bound. reflexivity.
Qed.

Lemma rva_page_range s : 0 <= rva s < 2 ^ 32 -> 0 <= rva s / 4096 < 2 ^ 20.
Proof.
  intros Hr. split; [apply Z.div_pos; lia | apply Z.div_lt_upper_bound; lia].
Qed.

(** The run of the section loop that handles section [i], and the rest. *)
Lemma map_sections_reach sections i k : forall idx v rc v',
  map_sections k idx sections v = Ret (rc, v') -> rc <> -1 ->
  0 <= idx <= i -> i < idx + Z.of_nat k ->
  exists s va vb k',
    sections !! Z.to_nat i = Some s /\
    map_section_pages (Z.to_nat (section_pages s)) 0 s va = Ret (true, vb) /\
    map_sections k' (i + 1) sections vb = Ret (rc, v').
Proof.
  induction k as [|k IH]; intros idx v rc v' H Hrc Hidx Hk; [lia|].
  apply map_sections_step in H as (s & v1 & Hs & _ & H1 & H); [|exact Hrc].
  destruct (Z.eq_dec idx i) as [->|Hne].
  - exists s, v, v1, k. auto.
  - apply (IH _ _ _ _ H Hrc); lia.
Qed.

(** The sections from [idx] on leave alone a page that lies before them all. *)
Lemma map_sections_after sections p k : forall idx v rc v',
  map_sections k idx sections v = Ret (rc, v') -> rc <> -1 ->
  (forall (i' : nat) s', (Z.to_nat idx <= i')%nat -> sections !! i' = Some s' ->
                         0 <= p < rva s' / 4096 /\ rva s' < 2 ^ 32) ->
  page_flags v' !! Z.to_nat p = page_flags v !! Z.to_nat p.
Proof.
  induction k as [|k IH]; intros idx v rc v' H Hrc Hlater.
  - injection H as _ <-. reflexivity.
  - apply map_sections_step in H as (s & v1 & Hs & Hidx & H1 & H); [|exact Hrc].
    destruct (Hlater _ _ (Nat.le_refl _) Hs) as [Hp Hr].
    pose proof (section_pages_range s).
    assert (rva s / 4096 < 2 ^ 20) by (apply Z.div_lt_upper_bound; lia).
    rewrite (IH _ _ _ _ H Hrc).
    + apply (map_section_pages_below s p) in H1; [exact H1 | lia..].
    + intros i' s' Hi'. apply Hlater. lia.
Qed.

(** X19.  In every image that construction accepts, each page of each section
    has at least the rights of that section: the section loop only ever adds
    rights to an entry (line 126). *)
Theorem section_rights_accumulate h pe sections fd v i s j :
  cli_emu_vmm_new h pe sections fd = Ret (Some v) ->
  0 <= i < nsections pe -> sections !! Z.to_nat i = Some s ->
  0 <= rva s < 2 ^ 32 -> 0 <= j < section_pages s ->
  page_sat (has_rights (section_flag_rwx (chr s))) (rva s / 4096 + j) v.
Proof.
  intros Hnew Hi Hs Hrva Hj.
  apply accepted_inv in Hnew as (last & s0 & v1 & rc & _ & _ & _ & Hmap & Hrc).
  destruct (map_sections_reach sections i _ _ _ _ _ Hmap Hrc)
    as (s' & va & vb & k' & Hs' & Hpages & Hrest); [lia | lia |].
  rewrite Hs in Hs'. injection Hs' as <-.
  pose proof (section_pages_range s). pose proof (rva_page_range s Hrva).
  eapply map_sections_keeps_rights;
    [apply section_flag_rwx_range | lia | | exact Hrest | exact Hrc].
  apply (map_section_pages_at s j) in Hpages; [| lia..].
  destruct Hpages as (pe' & Hpe' & Hrights & _). exists pe'. auto.
Qed.

Lemma section_rights_accumulate_witness :
  page_sat (has_rights (section_flag_rwx (chr sec_data))) (rva sec_data / 4096 + 1)
           vmm_text_data.
Proof.
  apply (section_rights_accumulate x86 (pe32 2) [sec_text; sec_data] None vmm_text_data
           1 sec_data 1); vm_compute; first [reflexivity | split; first [discriminate | reflexivity]].
Defined.

(** X20.  In every image that construction accepts, page [j] of a section is
    backed as lines 122-125 say, provided every later section starts on a
    later page: zero-filled ([init] 0) for uninitialised data, otherwise read
    from the file at [(raw + j * 4096) / 512] granules of 512 bytes, which
    rounds the raw offset down to a multiple of 512. *)
Theorem section_pages_are_backed_by_the_file h pe sections fd v i s j :
  cli_emu_vmm_new h pe sections fd = Ret (Some v) ->
  0 <= i < nsections pe -> sections !! Z.to_nat i = Some s ->
  0 <= rva s < 2 ^ 32 -> 0 <= j < section_pages s ->
  (forall (i' : nat) s', (Z.to_nat i < i')%nat -> sections !! i' = Some s' ->
                         rva s / 4096 + j < rva s' / 4096 /\ rva s' < 2 ^ 32) ->
  page_sat (backed_by s j) (rva s / 4096 + j) v.
Proof.
  intros Hnew Hi Hs Hrva Hj Hlater.
  apply accepted_inv in Hnew as (last & s0 & v1 & rc & _ & _ & _ & Hmap & Hrc).
  destruct (map_sections_reach sections i _ _ _ _ _ Hmap Hrc)
    as (s' & va & vb & k' & Hs' & Hpages & Hrest); [lia | lia |].
  rewrite Hs in Hs'. injection Hs' as <-.
  pose proof (section_pages_range s). pose proof (rva_page_range s Hrva).
  eapply page_sat_same_entry.
  { eapply map_sections_after; [exact Hrest | exact Hrc |].
    intros i' s' Hi' Hs'. destruct (Hlater i' s') as [Hlt Hr]; [lia | exact Hs' |].
    split; [lia | exact Hr]. }
  apply (map_section_pages_at s j) in Hpages; [| lia..].
  destruct Hpages as (pe' & Hpe' & _ & Hbacked). exists pe'. auto.
Qed.

Lemma section_pages_are_backed_by_the_file_witness :
  page_sat (backed_by sec_text 0) (rva sec_text / 4096 + 0) vmm_text_data.
Proof.
  apply (section_pages_are_backed_by_the_file x86 (pe32 2) [sec_text; sec_data] None
           vmm_text_data 0 sec_text 0).
  - vm_compute. reflexivity.
  - vm_compute. split; first [discriminate | reflexivity].
  - reflexivity.
  - vm_compute. split; first [discriminate | reflexivity].
  - vm_compute. split; first [discriminate | reflexivity].
  - intros [|[|i']] s' Hi' Hs'; [inversion Hi' | | discriminate Hs'].
    injection Hs' as <-. vm_compute. split; reflexivity.
Defined.

(** ** Page-in into a clean slot *)

Lemma pread_beyond f off buf i :
  (length f <= Z.to_nat off + i)%nat -> pread f off buf !! i = buf !! i.
Proof.
  intros Hi. unfold pread.
  set (chunk := take 4096 (drop (Z.to_nat off) f)).
  assert (length chunk <= i)%nat as Hc.
  { subst chunk. rewrite length_take, length_drop. lia. }
  rewrite lookup_app_r by exact Hc. rewrite lookup_drop. f_equal. lia.
Qed.

Lemma pread_whole_page f off buf :
  length buf = 4096%nat -> (Z.to_nat off + 4096 <= length f)%nat ->
  pread f off buf = take 4096 (drop (Z.to_nat off) f).
Proof.
  intros Hb Hf. unfold pread.
  rewrite length_take, length_drop.
  rewrite (drop_ge buf) by lia. apply app_nil_r.
Qed.

(** Lines 161-170 when the slot at [cached_idx] is clean: no page-out, the
    slot takes the rights of the entry, and what is left is the filling of the
    buffer (lines 171-176). *)
Lemma pagein_clean_slot h p v s pe :
  0 <= p -> 0 <= cached_idx v ->
  cached v !! Z.to_nat (cached_idx v) = Some s -> dirty s = 0 ->
  page_flags v !! Z.to_nat p = Some pe ->
  exists v4,
    cached v4 !! Z.to_nat (cached_idx v) = Some (mk_cached (uint8 (flag_rwx pe)) 0 (data s)) /\
    infd v4 = infd v /\
    vmm_pagein h p v
    = (if init pe =? 0 then
         let* _ := update_slot (cached_idx v) (set_data zero_data) in
         ret (Some (cached_idx v))
       else
         let* off := int_mul (file_offset pe) MINALIGN in
         let* fd := gets (if modified pe =? 0 then infd else tmpfd) in
         match fd with
         | None => ret None
         | Some f =>
             let* _ := update_slot (cached_idx v) (fun s => set_data (pread f off (data s)) s) in
             ret (Some (cached_idx v))
         end) v4.
Proof.
  intros Hp Hc Hs Hclean Hpe.
  set (c := cached_idx v) in *.
  assert (Z.to_nat c < length (cached v))%nat as Hlen by (eapply lookup_lt_Some; eauto).
  unfold vmm_pagein.
  unfold gets at 1. unfold bind at 1. fold c.
  unfold modify at 1. unfold bind at 1.
  set (v1 := with_cached_idx _ v).
  rewrite (bind_Ret _ _ v1 s v1) by (apply load_slot_inside; [exact Hc | exact Hs]).
  rewrite Hclean. cbn [Z.eqb]. rewrite (bind_Ret _ _ v1 tt v1) by reflexivity.
  rewrite (bind_Ret _ _ v1 pe v1) by (apply load_page_inside; [exact Hp | exact Hpe]).
  rewrite (bind_Ret _ _ _ _ _ (update_slot_inside v1 c s _ Hc Hs)).
  set (v2 := with_cached _ v1).
  assert (cached v2 !! Z.to_nat c = Some (set_c_flag_rwx (flag_rwx pe) s)) as Hs2.
  { subst v2. cbn [cached with_cached]. apply list_lookup_insert_eq. exact Hlen. }
  rewrite (bind_Ret _ _ _ _ _ (update_slot_inside v2 c _ _ Hc Hs2)).
  set (v3 := with_cached _ v2).
  assert (cached v3 !! Z.to_nat c
          = Some (set_dirty 0 (set_c_flag_rwx (flag_rwx pe) s))) as Hs3.
  { subst v3. cbn [cached with_cached]. apply list_lookup_insert_eq.
    subst v2. cbn [cached with_cached]. rewrite length_insert. exact Hlen. }
  unfold gets at 1. unfold bind at 1.
  assert (page_flags v3 !! Z.to_nat p = Some pe) as Hpe3 by exact Hpe.
  rewrite (bind_Ret _ _ _ _ _ (update_page_inside v3 p pe _ Hp Hpe3)).
  set (v4 := with_page_flags _ v3).
  exists v4. split; [exact Hs3|]. split; reflexivity.
Qed.

Lemma pagein_file_backed h p v s pe f :
  0 <= p -> 0 <= cached_idx v ->
  cached v !! Z.to_nat (cached_idx v) = Some s -> dirty s = 0 ->
  page_flags v !! Z.to_nat p = Some pe -> init pe <> 0 -> modified pe = 0 ->
  file_offset pe * MINALIGN < 2 ^ 31 ->
  infd v = Some f ->
  exists v',
    vmm_pagein h p v = Ret (Some (cached_idx v), v') /\
    cached v' !! Z.to_nat (cached_idx v)
    = Some (mk_cached (uint8 (flag_rwx pe)) 0 (pread f (file_offset pe * MINALIGN) (data s))).
Proof.
  intros Hp Hc Hs Hclean Hpe Hinit Hmod Hoff Hfd.
  destruct (pagein_clean_slot h p v s pe Hp Hc Hs Hclean Hpe) as (v4 & Hs4 & Hfd4 & ->).
  destruct (init pe =? 0) eqn:Hi; [apply Z.eqb_eq in Hi; contradiction|].
  unfold int_mul. apply Z.ltb_lt in Hoff. rewrite Hoff.
  rewrite (bind_Ret _ _ v4 (file_offset pe * MINALIGN) v4) by reflexivity.
  rewrite Hmod. cbn [Z.eqb]. unfold gets at 1. unfold bind at 1.
  rewrite Hfd4, Hfd.
  rewrite (bind_Ret _ _ _ _ _ (update_slot_inside v4 _ _ _ Hc Hs4)).
  eexists. split; [reflexivity|].
  cbn [cached with_cached]. apply list_lookup_insert_eq. eapply lookup_lt_Some; eauto.
Qed.

Lemma pagein_zero_filled h p v s pe :
  0 <= p -> 0 <= cached_idx v ->
  cached v !! Z.to_nat (cached_idx v) = Some s -> dirty s = 0 ->
  page_flags v !! Z.to_nat p = Some pe -> init pe = 0 ->
  exists v',
    vmm_pagein h p v = Ret (Some (cached_idx v), v') /\
    cached v' !! Z.to_nat (cached_idx v) = Some (mk_cached (uint8 (flag_rwx pe)) 0 zero_data).
Proof.
  intros Hp Hc Hs Hclean Hpe Hinit.
  destruct (pagein_clean_slot h p v s pe Hp Hc Hs Hclean Hpe) as (v4 & Hs4 & Hfd4 & ->).
  rewrite Hinit. cbn [Z.eqb].
  rewrite (bind_Ret _ _ _ _ _ (update_slot_inside v4 _ _ _ Hc Hs4)).
  eexists. split; [reflexivity|].
  cbn [cached with_cached]. apply list_lookup_insert_eq. eapply lookup_lt_Some; eauto.
Qed.

(** X21.  Page-in of a file-backed, unmodified page into a clean slot: the slot
    at [cached_idx] is returned, clean, with the rights of the entry, and its
    buffer holds the bytes of the input file from [file_offset * 512] on.
    Where the file ends before the page does, the bytes that were in the slot
    stay: only the -1 of [pread] is looked at (line 172). *)
Theorem page_in_reads_the_input_file h p v s pe f :
  0 <= p -> 0 <= cached_idx v ->
  cached v !! Z.to_nat (cached_idx v) = Some s -> dirty s = 0 ->
  page_flags v !! Z.to_nat p = Some pe -> init pe <> 0 -> modified pe = 0 ->
  file_offset pe * MINALIGN < 2 ^ 31 ->
  infd v = Some f ->
  exists v' s',
    vmm_pagein h p v = Ret (Some (cached_idx v), v') /\
    cached v' !! Z.to_nat (cached_idx v) = Some s' /\
    dirty s' = 0 /\ c_flag_rwx s' = uint8 (flag_rwx pe) /\
    (forall i x, (i < 4096)%nat ->
                 f !! (Z.to_nat (file_offset pe * MINALIGN) + i)%nat = Some x ->
                 data s' !! i = Some x) /\
    (forall i, (length f <= Z.to_nat (file_offset pe * MINALIGN) + i)%nat ->
               data s' !! i = data s !! i).
Proof.
  intros Hp Hc Hs Hclean Hpe Hinit Hmod Hoff Hfd.
  destruct (pagein_file_backed h p v s pe f) as (v' & Hrun & Hs'); try assumption.
  exists v'. eexists. split; [exact Hrun|]. split; [exact Hs'|].
  cbn [dirty c_flag_rwx data].
  split; [reflexivity|]. split; [reflexivity|]. split.
  - intros i x Hi4 Hx. apply pread_lookup; assumption.
  - intros i Hi4. apply pread_beyond. exact Hi4.
Qed.

Lemma page_in_reads_the_input_file_witness :
  exists v' s',
    vmm_pagein x86 1 vmm_short = Ret (Some (cached_idx vmm_short), v') /\
    cached v' !! Z.to_nat (cached_idx vmm_short) = Some s' /\
    dirty s' = 0 /\ c_flag_rwx s' = uint8 (flag_rwx (mk_page 0 5 0 1 0)) /\
    (forall i x, (i < 4096)%nat ->
                 short_file !! (Z.to_nat (file_offset (mk_page 0 5 0 1 0) * MINALIGN) + i)%nat
                 = Some x ->
                 data s' !! i = Some x) /\
    (forall i, (length short_file
                <= Z.to_nat (file_offset (mk_page 0 5 0 1 0) * MINALIGN) + i)%nat ->
               data s' !! i = data fresh_slot !! i).
Proof.
  apply (page_in_reads_the_input_file x86 1 vmm_short fresh_slot (mk_page 0 5 0 1 0)
           short_file); vm_compute; first [reflexivity | discriminate].
Defined.

(** ** Sessions without a write *)

Lemma untouched_slot v c s : untouched v -> cached v !! c = Some s -> dirty s = 0.
Proof. intros [H _] Hs. exact (Forall_lookup_1 _ _ _ _ H Hs). Qed.

Lemma untouched_update_slot c g :
  (forall s, dirty s = 0 -> dirty (g s) = 0) ->
  triple untouched (update_slot c g) (fun _ => untouched).
Proof.
  intros Hg. apply triple_update_slot. intros v s Hu _ Hs.
  pose proof (untouched_slot _ _ _ Hu Hs). destruct Hu as (H1 & H2 & H3 & H4).
  split; [|auto]. cbn [cached with_cached]. apply Forall_insert; auto.
Qed.

Lemma untouched_update_page p g :
  (forall pe, modified (g pe) = modified pe) ->
  triple untouched (update_page p g) (fun _ => untouched).
Proof.
  intros Hg. apply triple_update_page. intros v pe (H1 & H2 & H3 & H4) _ Hpe.
  repeat (split; [assumption|]). cbn [page_flags with_page_flags].
  apply Forall_insert; [exact H4|]. rewrite Hg. exact (Forall_lookup_1 _ _ _ _ H4 Hpe).
Qed.

Lemma untouched_pagein h p : triple untouched (vmm_pagein h p) (fun _ => untouched).
Proof.
  unfold vmm_pagein.
  eapply triple_bind; [apply triple_gets_inv|]. intros c.
  eapply triple_bind; [apply triple_modify_inv; intros v Hu; exact Hu|]. intros ?.
  eapply triple_bind; [apply triple_load_slot|]. intros s.
  eapply triple_bind with (Q := fun _ => untouched).
  { intros v0 r0 v0' (Hu & _ & Hs) H. rewrite (untouched_slot _ _ _ Hu Hs) in H.
    injection H as _ <-. exact Hu. }
  intros ?.
  eapply triple_bind; [apply triple_load_page_inv|]. intros pe.
  eapply triple_bind; [apply untouched_update_slot; auto|]. intros ?.
  eapply triple_bind; [apply untouched_update_slot; reflexivity|]. intros ?.
  eapply triple_bind; [apply triple_gets_inv|]. intros idx.
  eapply triple_bind; [apply untouched_update_page; reflexivity|]. intros ?.
  destruct (init pe =? 0).
  - eapply triple_bind; [apply untouched_update_slot; auto|]. intros ?.
    apply triple_ret_inv.
  - eapply triple_bind; [apply triple_int_mul|]. intros off.
    eapply triple_bind; [apply triple_gets_inv|]. intros [f|]; [|apply triple_ret_inv].
    eapply triple_bind; [apply untouched_update_slot; auto|]. intros ?.
    apply triple_ret_inv.
Qed.

Lemma untouched_cache_2page h va :
  triple untouched (vmm_cache_2page h va) (fun _ => untouched).
Proof.
  unfold vmm_cache_2page.
  eapply triple_bind; [apply triple_gets_inv|]. intros lp.
  destruct (lp =? va / 4096).
  - eapply triple_bind; [apply triple_gets_inv|]. intros ?. apply triple_ret_inv.
  - eapply triple_bind; [apply triple_gets_inv|]. intros n.
    destruct (n <? va / 4096); [apply triple_ret_inv|].
    eapply triple_bind; [apply triple_load_page_inv|]. intros pe.
    destruct (cached_page_idx pe =? 0).
    + eapply triple_bind with (Q := fun _ => untouched); [|intros ?; apply untouched_pagein].
      destruct (va / 4096 + 1 <? n); [|apply triple_ret_inv].
      eapply triple_bind; [apply untouched_pagein|]. intros ?. apply triple_ret_inv.
    + eapply triple_bind; [apply triple_modify_inv; intros v Hu; exact Hu|]. intros ?.
      apply triple_ret_inv.
Qed.

Lemma untouched_perform h c :
  is_write c = false -> triple untouched (perform h c) (fun _ => untouched).
Proof.
  destruct c; cbn [is_write perform]; intros Hw; [|discriminate| |];
    (eapply triple_bind; [|intros ?; apply triple_ret_inv]).
  - unfold vmm_read.
    eapply triple_bind; [apply untouched_cache_2page|]. intros [c|]; [|apply triple_ret_inv].
    eapply triple_bind; [apply triple_load_slot_inv|]. intros s.
    destruct (_ =? 0); [apply triple_ret_inv|].
    eapply triple_bind with (Q := fun _ => untouched); [|intros ?; apply triple_ret_inv].
    unfold copy_out. destruct (_ && _); [apply triple_ret_inv | apply triple_undefined].
  - unfold cli_emu_vmm_prot_set.
    eapply triple_bind; [apply triple_gets_inv|]. intros n.
    destruct (n <=? va / 4096); [apply triple_ret_inv|].
    eapply triple_bind; [apply untouched_update_page; reflexivity|]. intros ?.
    apply triple_ret_inv.
  - unfold cli_emu_vmm_prot_get.
    eapply triple_bind; [apply triple_gets_inv|]. intros n.
    destruct (n <=? va / 4096); [apply triple_ret_inv|].
    eapply triple_bind; [apply triple_load_page_inv|]. intros ?.
    apply triple_ret_inv.
Qed.

Lemma untouched_perform_all h cs :
  Forall (fun c => is_write c = false) cs ->
  triple untouched (perform_all h cs) (fun _ => untouched).
Proof.
  induction 1 as [|c cs Hc _ IH]; cbn [perform_all]; [apply triple_ret_inv|].
  eapply triple_bind; [apply untouched_perform; exact Hc|]. intros ?. exact IH.
Qed.

Lemma pristine_untouched v : pristine v -> untouched v.
Proof.
  intros (_ & Hc & _ & _ & Ht & Hw & Hf). split; [|split; [exact Ht | split; [exact Hw|]]].
  - rewrite Hc. apply Forall_replicate. reflexivity.
  - eapply Forall_impl; [exact Hf|]. intros pe [_ H]. exact H.
Qed.

(** X22.  A session of reads and protection calls, without a write, on an
    address space that construction returned leaves no slot dirty and no page
    marked modified, and creates no temp file: [vmm_pageout] never runs. *)
Theorem sessions_without_writes_touch_nothing h pe sections fd v0 h' cs v :
  cli_emu_vmm_new h pe sections fd = Ret (Some v0) ->
  Forall (fun c => is_write c = false) cs ->
  perform_all h' cs v0 = Ret (tt, v) ->
  untouched v.
Proof.
  intros Hnew Hcs Hrun.
  eapply untouched_perform_all; [exact Hcs | | exact Hrun].
  apply pristine_untouched. eapply accepted_is_pristine. exact Hnew.
Qed.

Lemma sessions_without_writes_touch_nothing_witness :
  untouched (state_after (perform_all x86 [Read 0x1000 4 1; ProtSet 0x1000 1 7;
                                             Read 0x0 1 1; ProtGet 0x1000 1])
               vmm_short).
Proof.
  apply (sessions_without_writes_touch_nothing x86 (pe32 1) [sec_rx0] (Some short_file)
           vmm_short x86
           [Read 0x1000 4 1; ProtSet 0x1000 1 7; Read 0x0 1 1; ProtGet 0x1000 1]).
  - vm_compute. reflexivity.
  - repeat constructor.
  - apply result_state_after. vm_compute. reflexivity.
Defined.

(** ** Byte order *)

Lemma le_value_rev_le_bytes_4 x :
  le_value (rev (le_bytes 4 x)) = bswap32 x.
Proof.
  unfold bswap32. cbn [le_bytes rev app le_value].
  replace (x / 256 / 256) with (x / 2 ^ 16) by (rewrite Z.div_div by lia; reflexivity).
  replace (x / 2 ^ 16 / 256) with (x / 2 ^ 24) by (rewrite Z.div_div by lia; reflexivity).
  change (2 ^ 8) with 256. lia.
Qed.

(** X23.  On a big-endian host, [write32] then [read32] at an address that
    resolves without a fault to a readable and writable slot returns the value
    with its bytes in the opposite order: the write stores the host word as it
    is (lines 281-285), the read converts from little-endian (line 251). *)
Theorem write32_then_read32_swaps_on_big_endian h v va x c s :
  big_endian h = true ->
  names_slot v va c ->
  0 <= c ->
  cached v !! Z.to_nat c = Some s ->
  Z.land (c_flag_rwx s) (Z.shiftl 1 flag_r) <> 0 ->
  Z.land (c_flag_rwx s) (Z.shiftl 1 flag_w) <> 0 ->
  Z.land va 0xfff + 4 <= Z.of_nat (length (data s)) ->
  result (let* w := cli_emu_vmm_write32 h va x in
          let* r := cli_emu_vmm_read32 h va in
          ret (w, r)) v
  = Some (Val 0, (Val 0, Some (bswap32 (x mod 2 ^ 32)))).
Proof.
  intros Hbe Hn Hc Hs Hr Hw Hfit.
  pose proof (write_then_read_on_last_used_page h (with_lastused (va / 4096) c v) va
                (rev (le_bytes 4 (uint32 x))) s eq_refl Hc Hs Hr Hw) as H.
  rewrite length_rev, le_bytes_length in H. specialize (H Hfit).
  unfold cli_emu_vmm_write32, host_bytes, cli_emu_vmm_read32, read_value. rewrite Hbe.
  unfold cli_emu_vmm_read_r in H. change (Z.of_nat 4) with 4 in H.
  remember (rev (le_bytes 4 (uint32 x))) as bs eqn:Ebs.
  unfold result in *. unfold bind in *.
  rewrite (write_from_named_slot h v va bs 4 c Hn).
  destruct (cli_emu_vmm_write h va bs 4 _) as [[w v1]|]; [|discriminate].
  destruct (vmm_read h va 4 (Z.shiftl 1 flag_r) v1) as [[r v2]|]; [|discriminate].
  injection H as -> ->. cbn [fst snd option_map ret]. subst bs.
  rewrite le_value_rev_le_bytes_4. reflexivity.
Qed.

Lemma write32_then_read32_swaps_on_big_endian_witness :
  result (let* w := cli_emu_vmm_write32 big_endian_host 0x2ffc 0xAABBCCDD in
          let* r := cli_emu_vmm_read32 big_endian_host 0x2ffc in
          ret (w, r)) vmm_rw_faulted
  = Some (Val 0, (Val 0, Some (bswap32 (0xAABBCCDD mod 2 ^ 32)))).
Proof.
  apply (write32_then_read32_swaps_on_big_endian big_endian_host vmm_rw_faulted 0x2ffc
           0xAABBCCDD 1 (mk_cached 3 0 (replicate 4096 1))).
  - reflexivity.
  - right. vm_compute. repeat split; first [discriminate | reflexivity].
  - discriminate.
  - vm_compute. reflexivity.
  - vm_compute. discriminate.
  - vm_compute. discriminate.
  - vm_compute. discriminate.
Defined.

(** ** The first read of a page *)

Lemma entry_update_page_other p pe q g :
  0 <= p -> p <> q ->
  triple (fun v => page_flags v !! Z.to_nat p = Some pe) (update_page q g)
         (fun _ v => page_flags v !! Z.to_nat p = Some pe).
Proof.
  intros Hp Hne. apply triple_update_page. intros v pe' H Hq _.
  cbn [page_flags with_page_flags]. rewrite list_lookup_insert_ne by lia. exact H.
Qed.

Lemma triple_of_keeps {A B} (f : emu_vmm -> B) (m : M A) x :
  keeps f m -> triple (fun v => f v = x) m (fun _ v => f v = x).
Proof. intros Hk v a v' Hv Hr. rewrite (Hk _ _ _ Hr). exact Hv. Qed.

Lemma entry_pageout h c q p pe :
  0 <= p -> p <> q ->
  triple (fun v => page_flags v !! Z.to_nat p = Some pe) (vmm_pageout h c q)
         (fun _ v => page_flags v !! Z.to_nat p = Some pe).
Proof.
  intros Hp Hne. unfold vmm_pageout.
  pose proof (fun m Hm => triple_of_keeps (A := unit) (fun v => page_flags v !! Z.to_nat p)
                            m (Some pe) (fun v a v' H => f_equal (fun l => l !! Z.to_nat p)
                                                           (Hm v a v' H))) as Hflags.
  eapply triple_bind; [apply entry_update_page_other; assumption|]. intros ?.
  eapply triple_bind; [apply triple_load_page_inv|]. intros pe'.
  destruct (modified pe' =? 0); [|apply Hflags, keeps_page_flags_pageout_write].
  eapply triple_bind; [apply entry_update_page_other; assumption|]. intros ?.
  eapply triple_bind; [apply triple_gets_inv|]. intros fd0.
  eapply triple_bind.
  { destruct fd0; [apply triple_ret_inv | apply Hflags, keeps_page_flags_gentempfd]. }
  intros ?.
  eapply triple_bind; [apply triple_gets_inv|]. intros [fl|]; [|apply triple_ret_inv].
  eapply triple_bind; [apply triple_gets_inv|]. intros w.
  eapply triple_bind; [apply entry_update_page_other; assumption|]. intros ?.
  eapply triple_bind; [apply triple_modify_inv; intros v H; exact H|]. intros ?.
  apply Hflags, keeps_page_flags_pageout_write.
Qed.

(** Page-in of page [q] leaves the entry of every other page as it is. *)
Lemma entry_pagein h q p pe :
  0 <= p -> p <> q ->
  triple (fun v => page_flags v !! Z.to_nat p = Some pe) (vmm_pagein h q)
         (fun _ v => page_flags v !! Z.to_nat p = Some pe).
Proof.
  intros Hp Hne. unfold vmm_pagein.
  pose proof (fun c g => triple_update_slot (fun v => page_flags v !! Z.to_nat p = Some pe)
                           c g (fun _ v => page_flags v !! Z.to_nat p = Some pe)
                           (fun v s H _ _ => H)) as Hslot.
  eapply triple_bind; [apply triple_gets_inv|]. intros c.
  eapply triple_bind; [apply triple_modify_inv; intros v H; exact H|]. intros ?.
  eapply triple_bind; [apply triple_load_slot_inv|]. intros s.
  eapply triple_bind.
  { destruct (dirty s =? 0); [apply triple_ret_inv | apply entry_pageout; assumption]. }
  intros ?.
  eapply triple_bind; [apply triple_load_page_inv|]. intros pe'.
  eapply triple_bind; [apply Hslot|]. intros ?.
  eapply triple_bind; [apply Hslot|]. intros ?.
  eapply triple_bind; [apply triple_gets_inv|]. intros idx.
  eapply triple_bind; [apply entry_update_page_other; assumption|]. intros ?.
  destruct (init pe' =? 0).
  - eapply triple_bind; [apply Hslot|]. intros ?. apply triple_ret_inv.
  - eapply triple_bind; [apply triple_int_mul|]. intros off.
    eapply triple_bind; [apply triple_gets_inv|]. intros [f|]; [|apply triple_ret_inv].
    eapply triple_bind; [apply Hslot|]. intros ?. apply triple_ret_inv.
Qed.

(** Lines 185-202 when the page is neither the one last used nor resident. *)
Lemma cache_2page_fault h v va pe :
  lastused_page v <> va / 4096 -> 0 <= va / 4096 <= n_pages v ->
  page_flags v !! Z.to_nat (va / 4096) = Some pe -> cached_page_idx pe = 0 ->
  vmm_cache_2page h va v
  = (let* _ := (if va / 4096 + 1 <? n_pages v
                then let* _ := vmm_pagein h (va / 4096 + 1) in ret tt
                else ret tt) in
     vmm_pagein h (va / 4096)) v.
Proof.
  intros Hl [H0 Hn] Hpe Hidx. apply Z.eqb_neq in Hl.
  assert ((n_pages v <? va / 4096) = false) as Hlt by (apply Z.ltb_ge; exact Hn).
  unfold vmm_cache_2page. unfold bind at 1, gets at 1. rewrite Hl.
  unfold bind at 1, gets at 1. rewrite Hlt.
  rewrite (bind_Ret _ _ _ _ _ (load_page_inside v _ pe H0 Hpe)). rewrite Hidx.
  reflexivity.
Qed.

(** X24.  The first read of a page.  On a well-formed address space with no
    dirty slot, a read that faults the page in and returns gives the bytes
    that back the page: zeros when the entry is not initialised, otherwise the
    bytes of the input file from [file_offset * 512], when the file holds the
    whole page. *)
Theorem first_read_returns_the_backing_bytes h v va len flags pe f bytes r v' :
  well_formed v -> untouched v ->
  lastused_page v <> va / 4096 -> 0 <= va / 4096 <= n_pages v ->
  page_flags v !! Z.to_nat (va / 4096) = Some pe -> cached_page_idx pe = 0 ->
  Z.land (uint8 (flag_rwx pe)) flags <> 0 ->
  (init pe = 0 /\ bytes = zero_data) \/
  (init pe <> 0 /\ file_offset pe * MINALIGN < 2 ^ 31 /\ infd v = Some f /\
   (Z.to_nat (file_offset pe * MINALIGN) + 4096 <= length f)%nat /\
   bytes = take 4096 (drop (Z.to_nat (file_offset pe * MINALIGN)) f)) ->
  vmm_read h va len flags v = Ret (r, v') ->
  r = (Val 0, Some (take (Z.to_nat len) (drop (Z.to_nat (Z.land va 0xfff)) bytes))).
Proof.
  intros Hwf Hun Hl Hrange Hpe Hidx Hflags Hback Hrun.
  unfold vmm_read in Hrun. apply bind_inv in Hrun as (pc & v2 & Hres & Hrun).
  rewrite (cache_2page_fault h v va pe Hl Hrange Hpe Hidx) in Hres.
  apply bind_inv in Hres as (u & v1 & Hnext & Hin).
  assert (well_formed v1 /\ untouched v1 /\ infd v1 = infd v /\
          page_flags v1 !! Z.to_nat (va / 4096) = Some pe) as (Hwf1 & Hun1 & Hfd1 & Hpe1).
  { destruct (va / 4096 + 1 <? n_pages v); [|injection Hnext as _ <-; auto].
    apply bind_inv in Hnext as (r1 & v1' & Hnext & Hret). injection Hret as _ <-.
    split; [exact (proj1 (wf_pagein _ _ _ _ _ Hwf Hnext))|].
    split; [exact (untouched_pagein _ _ _ _ _ Hun Hnext)|].
    split.
    - pose proof (keeps_image_pagein _ _ _ _ _ Hnext) as Himg.
      unfold image in Himg. congruence.
    - apply (entry_pagein h (va / 4096 + 1) (va / 4096) pe (proj1 Hrange)
               ltac:(lia) _ _ _ Hpe Hnext). }
  pose proof (wf_cached_idx _ Hwf1) as Hc1.
  destruct (lookup_lt_is_Some_2 (cached v1) (Z.to_nat (cached_idx v1))) as [s1 Hs1].
  { rewrite (wf_slots _ Hwf1). lia. }
  pose proof (untouched_slot _ _ _ Hun1 Hs1) as Hclean.
  assert (exists v2', vmm_pagein h (va / 4096) v1 = Ret (Some (cached_idx v1), v2') /\
                      cached v2' !! Z.to_nat (cached_idx v1)
                      = Some (mk_cached (uint8 (flag_rwx pe)) 0 bytes))
    as (v2' & Hin' & Hs2).
  { destruct Hback as [[Hinit ->] | (Hinit & Hoff & Hfd & Hlen & ->)].
    - apply (pagein_zero_filled h _ v1 s1 pe); try assumption; lia.
    - destruct (pagein_file_backed h (va / 4096) v1 s1 pe f) as (v2' & Hin' & Hs2);
        try assumption; try lia.
      + destruct Hun1 as (_ & _ & _ & Hmod). exact (Forall_lookup_1 _ _ _ _ Hmod Hpe1).
      + congruence.
      + exists v2'. split; [exact Hin'|]. rewrite Hs2. do 2 f_equal.
        apply pread_whole_page; [|exact Hlen]. eapply wf_slot_buffer; eauto. }
  rewrite Hin' in Hin. injection Hin as <- <-.
  rewrite (bind_Ret _ _ _ _ _ (load_slot_inside v2' _ _ (proj1 Hc1) Hs2)) in Hrun.
  cbn [c_flag_rwx data] in Hrun.
  apply Z.eqb_neq in Hflags. rewrite Hflags in Hrun.
  apply bind_inv in Hrun as (bs & v3 & Hcopy & Hret).
  unfold copy_out in Hcopy. destruct (_ && _); [|discriminate].
  injection Hcopy as <- <-. injection Hret as <- _. reflexivity.
Qed.

Lemma first_read_returns_the_backing_bytes_witness :
  (Val 0, Some [1; 1])
  = (Val 0, Some (take (Z.to_nat 2)
                    (drop (Z.to_nat (Z.land 0x1001 0xfff))
                       (take 4096 (drop (Z.to_nat (8 * MINALIGN)) (paged_file 3)))))).
Proof.
  apply (first_read_returns_the_backing_bytes x86 vmm_rx_paged 0x1001 2 1
           (mk_page 8 5 0 1 0) (paged_file 3)
           (take 4096 (drop (Z.to_nat (8 * MINALIGN)) (paged_file 3)))
           (Val 0, Some [1; 1]) (state_after (vmm_read x86 0x1001 2 1) vmm_rx_paged)).
  - refine (proj1 (accepted_is_pristine x86 (pe32 1) [sec_rx_paged] (Some (paged_file 3))
                     vmm_rx_paged _)).
    vm_compute. reflexivity.
  - apply pristine_untouched.
    apply (accepted_is_pristine x86 (pe32 1) [sec_rx_paged] (Some (paged_file 3))).
    vm_compute. reflexivity.
  - vm_compute. discriminate.
  - vm_compute. split; discriminate.
  - vm_compute. reflexivity.
  - reflexivity.
  - vm_compute. discriminate.
  - right. split; [vm_compute; discriminate|]. split; [vm_compute; reflexivity|].
    split; [vm_compute; reflexivity|]. split; [|reflexivity].
    apply Nat.leb_le. vm_compute. reflexivity.
  - apply result_state_after. vm_compute. reflexivity.
Defined.

(** ** Protection and resident pages *)

Lemma write_on_last_used_page h v va value s :
  lastused_page v = va / 4096 ->
  0 <= lastused_page_idx v ->
  cached v !! Z.to_nat (lastused_page_idx v) = Some s ->
  Z.land (c_flag_rwx s) (Z.shiftl 1 flag_w) <> 0 ->
  Z.land va 0xfff + Z.of_nat (length value) <= Z.of_nat (length (data s)) ->
  result (cli_emu_vmm_write h va value (Z.of_nat (length value))) v = Some (Val 0).
Proof.
  intros Hlast Hc Hs Hw Hfit.
  apply Z.eqb_neq in Hw.
  pose proof (page_offset_range va) as [Hoff _].
  set (c := lastused_page_idx v) in *.
  assert (Hlt : (Z.to_nat c < length (cached v))%nat) by (eapply lookup_lt_Some; eauto).
  unfold result, cli_emu_vmm_write.
  rewrite (bind_Ret _ _ _ _ _ (cache_2page_last_used h v va Hlast)).
  rewrite (bind_Ret _ _ _ _ _ (load_slot_inside v c s Hc Hs)). rewrite Hw.
  rewrite (bind_Ret _ _ _ _ _ (copy_in_inside (data s) (Z.land va 0xfff) value
             (Z.of_nat (length value)) v Hoff
             ltac:(lia) Hfit ltac:(lia))).
  rewrite (bind_Ret _ _ _ _ _ (update_slot_inside v c s _ Hc Hs)).
  set (v1 := with_cached _ v).
  assert (exists s1, cached v1 !! Z.to_nat c = Some s1) as [s1 Hs1].
  { apply lookup_lt_is_Some_2. subst v1. cbn [cached with_cached].
    rewrite length_insert. exact Hlt. }
  rewrite (bind_Ret _ _ _ _ _ (update_slot_inside v1 c s1 _ Hc Hs1)).
  reflexivity.
Qed.

(** X25.  [prot_set] changes the entry of the page and nothing else: while the
    page is resident, accesses are checked against the rights the slot took at
    page-in.  A write to a resident page whose slot has the write right
    succeeds right after [prot_set] with any rights, none included. *)
Theorem protection_change_misses_resident_page h v va len rwx value c s :
  names_slot v va c ->
  0 <= c ->
  cached v !! Z.to_nat c = Some s ->
  Z.land (c_flag_rwx s) (Z.shiftl 1 flag_w) <> 0 ->
  0 <= va / 4096 < n_pages v ->
  (Z.to_nat (va / 4096) < length (page_flags v))%nat ->
  Z.land va 0xfff + Z.of_nat (length value) <= Z.of_nat (length (data s)) ->
  result (let* p := cli_emu_vmm_prot_set va len rwx in
          let* w := cli_emu_vmm_write h va value (Z.of_nat (length value)) in
          ret (p, w)) v
  = Some (NoValue, Val 0).
Proof.
  intros Hn Hc Hs Hw [H0 Hlt] Hlen Hfit.
  destruct (lookup_lt_is_Some_2 _ _ Hlen) as [pe Hpe].
  assert (Hb : (n_pages v <=? va / 4096) = false) by (apply Z.leb_gt; exact Hlt).
  set (v1 := with_page_flags (<[Z.to_nat (va / 4096) := set_flag_rwx rwx pe]> (page_flags v)) v).
  assert (cli_emu_vmm_prot_set va len rwx v = Ret (NoValue, v1)) as Hset.
  { unfold cli_emu_vmm_prot_set. unfold gets at 1. unfold bind at 1. rewrite Hb.
    rewrite (bind_Ret _ _ _ _ _ (update_page_inside v _ pe _ H0 Hpe)). reflexivity. }
  assert (names_slot v1 va c) as Hn1.
  { destruct Hn as [Hn | (Hl & Hr & Hidx & Hc')]; [left; exact Hn | right].
    split; [exact Hl|]. split; [exact Hr|]. split; [|exact Hc'].
    subst v1. cbn [page_flags with_page_flags].
    rewrite list_lookup_insert_eq by exact Hlen.
    rewrite Hpe in Hidx. exact Hidx. }
  unfold result. rewrite (bind_Ret _ _ _ _ _ Hset).
  pose proof (write_on_last_used_page h (with_lastused (va / 4096) c v1) va value s
                eq_refl Hc Hs Hw Hfit) as Hwrite.
  unfold result in Hwrite. unfold bind.
  rewrite (write_from_named_slot h v1 va value _ c Hn1).
  destruct (cli_emu_vmm_write h va value _ _) as [[w v2]|]; [|discriminate].
  injection Hwrite as ->. reflexivity.
Qed.

Lemma protection_change_misses_resident_page_witness :
  result (let* p := cli_emu_vmm_prot_set 0x2000 1 0 in
          let* w := cli_emu_vmm_write x86 0x2000 [1; 2; 3; 4] (Z.of_nat (length [1; 2; 3; 4])) in
          ret (p, w)) vmm_rw_faulted
  = Some (NoValue, Val 0).
Proof.
  apply (protection_change_misses_resident_page x86 vmm_rw_faulted 0x2000 1 0 [1; 2; 3; 4] 1
           (mk_cached 3 0 (replicate 4096 1))).
  - right. vm_compute. repeat split; first [discriminate | reflexivity].
  - discriminate.
  - vm_compute. reflexivity.
  - vm_compute. discriminate.
  - vm_compute. split; [discriminate | reflexivity].
  - apply Nat.ltb_lt. vm_compute. reflexivity.
  - vm_compute. discriminate.
Defined.

(** ** Page-out *)

(** X26.  The first page-out of a page: with a temp file at hand (or one that
    can be created, then empty) and a working [pwrite], the 4096 bytes of the
    slot are written to the temp file at the cursor [tmpfd_written] (in
    granules of 512 bytes), the entry records that offset and is marked
    initialised and modified, and the cursor moves on by 8 granules.  The slots
    are left as they are. *)
Theorem first_page_out_appends_to_temp_file h c p v s pe f0 :
  0 <= p -> page_flags v !! Z.to_nat p = Some pe -> modified pe = 0 ->
  0 <= c -> cached v !! Z.to_nat c = Some s ->
  tmpfd v = Some f0 \/ (tmpfd v = None /\ gentemp_ok h = true /\ f0 = []) ->
  pwrite_ok h = true ->
  0 <= tmpfd_written v < 2 ^ 22 ->
  exists v',
    vmm_pageout h c p v = Ret (tt, v') /\
    tmpfd v' = Some (pwrite f0 (tmpfd_written v * MINALIGN) (data s)) /\
    tmpfd_written v' = tmpfd_written v + 8 /\
    page_flags v' !! Z.to_nat p
    = Some (mk_page (tmpfd_written v) (flag_rwx pe) 1 1 (cached_page_idx pe)) /\
    cached v' = cached v.
Proof.
  intros Hp Hpe Hmod Hc Hs Hfd Hpw Hw.
  assert (Z.to_nat p < length (page_flags v))%nat as Hlen by (eapply lookup_lt_Some; eauto).
  unfold vmm_pageout.
  rewrite (bind_Ret _ _ _ _ _ (update_page_inside v p pe (set_init 1) Hp Hpe)).
  set (v1 := with_page_flags _ v).
  assert (page_flags v1 !! Z.to_nat p = Some (set_init 1 pe)) as Hpe1.
  { subst v1. cbn [page_flags with_page_flags]. apply list_lookup_insert_eq. exact Hlen. }
  rewrite (bind_Ret _ _ _ _ _ (load_page_inside v1 p _ Hp Hpe1)).
  cbn [modified set_init]. rewrite Hmod. cbn [Z.eqb].
  rewrite (bind_Ret _ _ _ _ _ (update_page_inside v1 p _ (set_modified 1) Hp Hpe1)).
  set (v2 := with_page_flags _ v1).
  assert (length (page_flags v2) = length (page_flags v)) as Hlen2.
  { subst v2 v1. cbn [page_flags with_page_flags]. rewrite !length_insert. reflexivity. }
  assert (page_flags v2 !! Z.to_nat p = Some (set_modified 1 (set_init 1 pe))) as Hpe2.
  { subst v2. cbn [page_flags with_page_flags]. apply list_lookup_insert_eq.
    subst v1. cbn [page_flags with_page_flags]. rewrite length_insert. exact Hlen. }
  unfold gets at 1. unfold bind at 1. change (tmpfd v2) with (tmpfd v).
  assert (exists v3,
            (match tmpfd v with None => cli_gentempfd h | Some _ => ret tt end) v2
            = Ret (tt, v3) /\
            tmpfd v3 = Some f0 /\ page_flags v3 = page_flags v2 /\
            cached v3 = cached v /\ tmpfd_written v3 = tmpfd_written v)
    as (v3 & H3 & Hfd3 & Hpf3 & Hc3 & Hw3).
  { destruct Hfd as [Hfd | (Hfd & Hgen & ->)]; rewrite Hfd.
    - exists v2. repeat split; try reflexivity. exact Hfd.
    - unfold cli_gentempfd. rewrite Hgen. eexists. repeat split; reflexivity. }
  rewrite (bind_Ret _ _ _ _ _ H3).
  unfold gets at 1. unfold bind at 1. rewrite Hfd3.
  unfold gets at 1. unfold bind at 1. rewrite Hw3.
  assert (page_flags v3 !! Z.to_nat p = Some (set_modified 1 (set_init 1 pe))) as Hpe3
    by (rewrite Hpf3; exact Hpe2).
  rewrite (bind_Ret _ _ _ _ _ (update_page_inside v3 p _ (set_file_offset (tmpfd_written v))
                                 Hp Hpe3)).
  set (v4 := with_page_flags _ v3).
  unfold modify at 1. unfold bind at 1.
  set (v5 := with_tmpfd_written _ v4).
  assert (page_flags v5 !! Z.to_nat p
          = Some (mk_page (tmpfd_written v) (flag_rwx pe) 1 1 (cached_page_idx pe))) as Hpe5.
  { subst v5 v4. cbn [page_flags with_page_flags with_tmpfd_written].
    rewrite list_lookup_insert_eq by (rewrite Hpf3, Hlen2; exact Hlen).
    unfold set_file_offset, set_modified, set_init. cbn.
    rewrite Z.mod_small by lia. reflexivity. }
  unfold pageout_write.
  rewrite (bind_Ret _ _ _ _ _ (load_page_inside v5 p _ Hp Hpe5)).
  cbn [file_offset]. unfold int_mul.
  assert ((tmpfd_written v * MINALIGN <? 2 ^ 31) = true) as ->.
  { apply Z.ltb_lt. unfold MINALIGN. lia. }
  rewrite (bind_Ret _ _ v5 (tmpfd_written v * MINALIGN) v5) by reflexivity.
  assert (cached v5 !! Z.to_nat c = Some s) as Hs5.
  { subst v5 v4. cbn [cached with_page_flags with_tmpfd_written]. rewrite Hc3. exact Hs. }
  rewrite (bind_Ret _ _ _ _ _ (load_slot_inside v5 c s Hc Hs5)).
  unfold gets at 1. unfold bind at 1.
  change (tmpfd v5) with (tmpfd v3). rewrite Hfd3, Hpw.
  eexists. split; [reflexivity|].
  cbn [tmpfd with_tmpfd tmpfd_written page_flags cached].
  split; [reflexivity|]. split.
  { subst v5. cbn [tmpfd_written with_tmpfd_written]. change (4096 / MINALIGN) with 8.
    apply uint32_small. lia. }
  split; [exact Hpe5|].
  subst v5 v4. cbn [cached with_page_flags with_tmpfd_written]. exact Hc3.
Qed.

Lemma first_page_out_appends_to_temp_file_witness :
  exists v',
    vmm_pageout x86 0 1 vmm_bss = Ret (tt, v') /\
    tmpfd v' = Some (pwrite [] (tmpfd_written vmm_bss * MINALIGN) (data fresh_slot)) /\
    tmpfd_written v' = tmpfd_written vmm_bss + 8 /\
    page_flags v' !! Z.to_nat 1
    = Some (mk_page (tmpfd_written vmm_bss) (flag_rwx (mk_page 0 3 0 0 0)) 1 1
              (cached_page_idx (mk_page 0 3 0 0 0))) /\
    cached v' = cached vmm_bss.
Proof.
  apply (first_page_out_appends_to_temp_file x86 0 1 vmm_bss fresh_slot (mk_page 0 3 0 0 0) []).
  - discriminate.
  - vm_compute. reflexivity.
  - reflexivity.
  - discriminate.
  - vm_compute. reflexivity.
  - right. repeat split; reflexivity.
  - reflexivity.
  - vm_compute. split; [discriminate | reflexivity].
Defined.

(** ** Accesses that run past the end of the page *)


